(** * instatimefixer: a shallow embedding of the in-place timestamp patcher

    The development follows [src/instatimefixer.py] section by section:
    the protobuf varint helpers, the timestamp helpers, the chunked
    binary search, the patch logic and the per-file loop of the CLI.

    Conventions of the embedding.
    - Python [bytes] are [list byte]; Python [int] is [Z].
    - A file is its contents, a [list byte]; [f.seek(o); f.read(n)] is
      [read_at]; a function that writes returns the new contents.
    - A Python exception that leaves a function is the [Raise] case of
      [result]; [print] appends a [msg] to an output log.
    - [str] values are Rocq strings, i.e. sequences of code points
      below 256. *)

From Stdlib Require Import ZArith List Lia Bool String Ascii Sorted.
From Stdlib Require Import Strings.Byte.
Import ListNotations.

Local Open Scope Z_scope.

(** ** Bytes, exceptions and results *)

Definition bytes := list byte.

Definition byte_val (b : byte) : Z := Z.of_N (Byte.to_N b).

Definition len {A : Type} (l : list A) : Z := Z.of_nat (List.length l).

(** The exceptions the program can raise. *)
Inductive exn : Type :=
| IndexError
| ValueError
| StructError
| UnicodeEncodeError.

Inductive result (A : Type) : Type :=
| Ok (a : A)
| Raise (e : exn).

Arguments Ok {A} a.
Arguments Raise {A} e.

Definition bind {A B : Type} (r : result A) (k : A -> result B) : result B :=
  match r with
  | Ok a => k a
  | Raise e => Raise e
  end.

Notation "x <- r ;; k" := (bind r (fun x => k))
  (at level 61, r at next level, right associativity).
Notation "' p <- r ;; k" := (bind r (fun p => k))
  (at level 61, p pattern, r at next level, right associativity).

(** [l[:n]] and [l[n:]] for [n >= 0], by recursion on the list so that
    they evaluate with a binary counter. *)
Fixpoint take {A : Type} (n : Z) (l : list A) : list A :=
  match l with
  | [] => []
  | x :: l' => if n <=? 0 then [] else x :: take (n - 1) l'
  end.

Fixpoint drop {A : Type} (n : Z) (l : list A) : list A :=
  match l with
  | [] => []
  | x :: l' => if n <=? 0 then l else drop (n - 1) l'
  end.

(** [bytes([v])]: one element of a [bytes] object, [ValueError] outside
    [range(256)]. *)
Definition byte_of_Z (v : Z) : result byte :=
  if (0 <=? v) && (v <? 256) then
    match Byte.of_N (Z.to_N v) with
    | Some b => Ok b
    | None => Raise ValueError
    end
  else Raise ValueError.

Fixpoint py_bytes (parts : list Z) : result bytes :=
  match parts with
  | [] => Ok []
  | v :: rest =>
      b <- byte_of_Z v ;;
      bs <- py_bytes rest ;;
      Ok (b :: bs)
  end.

(** ** Protobuf varint helpers *)

(** The [while value > 0x7F] loop of [_encode_varint].  Each round
    shifts seven bits out, so [fuel] rounds are enough for a value
    below [2^(7*fuel)]; see [encode_loop_fuel]. *)
Fixpoint encode_loop (fuel : nat) (value : Z) (parts : list Z) : list Z :=
  match fuel with
  | O => parts ++ [value]
  | S fuel' =>
      if value >? 0x7F then
        encode_loop fuel' (Z.shiftr value 7)
                    (parts ++ [Z.lor (Z.land value 0x7F) 0x80])
      else parts ++ [value]
  end.

Definition encode_fuel (value : Z) : nat := Z.to_nat (Z.log2 value).

Definition _encode_varint (value : Z) : result bytes :=
  py_bytes (encode_loop (encode_fuel value) value []).

(** The [while True] loop of [_decode_varint], on the bytes from [pos]
    on; [data[pos]] past the end raises [IndexError]. *)
Fixpoint decode_loop (rest : bytes) (res shift : Z) (pos : nat)
  : result (Z * nat) :=
  match rest with
  | [] => Raise IndexError
  | byte :: rest' =>
      let res := Z.lor res (Z.shiftl (Z.land (byte_val byte) 0x7F) shift) in
      let pos := S pos in
      if Z.land (byte_val byte) 0x80 =? 0 then Ok (res, pos)
      else decode_loop rest' res (shift + 7) pos
  end.

(** [pos] is a [nat]: every call site passes [0]. *)
Definition _decode_varint (data : bytes) (pos : nat) : result (Z * nat) :=
  decode_loop (skipn pos data) 0 0 pos.

(** ** Strings *)

(** [s[lo:hi]] and [s[lo:]] for constant bounds [0 <= lo <= hi]. *)
Definition str_slice (lo hi : nat) (s : string) : string :=
  string_of_list_ascii (firstn (hi - lo) (skipn lo (list_ascii_of_string s))).

Definition str_from (lo : nat) (s : string) : string :=
  string_of_list_ascii (skipn lo (list_ascii_of_string s)).

Definition code (c : ascii) : Z := Z.of_nat (nat_of_ascii c).

(** The white space [int()] strips: the ASCII blanks and, of the code
    points below 256, U+0085 and U+00A0. *)
Definition is_space (c : ascii) : bool :=
  let n := code c in
  ((9 <=? n) && (n <=? 13)) || (n =? 32) || (n =? 133) || (n =? 160).

Definition digit_val (c : ascii) : option Z :=
  let n := code c in
  if (48 <=? n) && (n <=? 57) then Some (n - 48) else None.

(** [str.isdigit] on one code point below 256: the decimal digits and
    the superscripts U+00B2, U+00B3 and U+00B9. *)
Definition is_digit_char (c : ascii) : bool :=
  let n := code c in
  ((48 <=? n) && (n <=? 57)) || (n =? 178) || (n =? 179) || (n =? 185).

Definition isdigit (s : string) : bool :=
  match list_ascii_of_string s with
  | [] => false
  | cs => forallb is_digit_char cs
  end.

Fixpoint lstrip (cs : list ascii) : list ascii :=
  match cs with
  | c :: cs' => if is_space c then lstrip cs' else cs
  | [] => []
  end.

(** The digits of a decimal literal after its first digit: digits, each
    optionally preceded by one underscore. *)
Fixpoint digits_value (cs : list ascii) (acc : Z) : option Z :=
  match cs with
  | [] => Some acc
  | c :: cs' =>
      match digit_val c with
      | Some d => digits_value cs' (acc * 10 + d)
      | None =>
          if (code c =? 95) then
            match cs' with
            | c2 :: cs'' =>
                match digit_val c2 with
                | Some d => digits_value cs'' (acc * 10 + d)
                | None => None
                end
            | [] => None
            end
          else None
      end
  end.

Definition unsigned_value (cs : list ascii) : option Z :=
  match cs with
  | c :: cs' =>
      match digit_val c with
      | Some d => digits_value cs' d
      | None => None
      end
  | [] => None
  end.

(** [int(s)] in base ten: surrounding white space, an optional sign,
    then the digits; anything else is a [ValueError].  (The limit
    CPython puts on the number of digits is not modelled.) *)
Definition py_int (s : string) : result Z :=
  let cs := rev (lstrip (rev (lstrip (list_ascii_of_string s)))) in
  let signed :=
    match cs with
    | c :: cs' =>
        if code c =? 43 then unsigned_value cs'
        else if code c =? 45 then option_map Z.opp (unsigned_value cs')
        else unsigned_value cs
    | [] => None
    end in
  match signed with
  | Some v => Ok v
  | None => Raise ValueError
  end.

(** [s.encode("ascii")]: a code point above 127 is a
    [UnicodeEncodeError]. *)
Fixpoint encode_ascii_chars (cs : list ascii) : result bytes :=
  match cs with
  | [] => Ok []
  | c :: cs' =>
      if code c <? 128 then
        bs <- encode_ascii_chars cs' ;;
        Ok (byte_of_ascii c :: bs)
      else Raise UnicodeEncodeError
  end.

Definition encode_ascii (s : string) : result bytes :=
  encode_ascii_chars (list_ascii_of_string s).

(** [s.encode("utf-16-le")] for code points below 256: the code point,
    then a zero byte. *)
Fixpoint encode_utf16le_chars (cs : list ascii) : bytes :=
  match cs with
  | [] => []
  | c :: cs' => byte_of_ascii c :: x00 :: encode_utf16le_chars cs'
  end.

Definition encode_utf16le (s : string) : bytes :=
  encode_utf16le_chars (list_ascii_of_string s).

(** ** Timestamp helpers *)

Definition _MP4_EPOCH_OFFSET : Z := 2082844800.

Definition _CHUNK_SIZE : Z := 64 * 1024 * 1024.

(** [datetime]: the proleptic Gregorian calendar of the standard
    library, at whole seconds and in UTC. *)
Record datetime : Type := mkDatetime {
  dt_year : Z; dt_month : Z; dt_day : Z;
  dt_hour : Z; dt_minute : Z; dt_second : Z
}.

Definition is_leap (y : Z) : bool :=
  (y mod 4 =? 0) && (negb (y mod 100 =? 0) || (y mod 400 =? 0)).

Definition days_in_month (y m : Z) : Z :=
  if m =? 2 then (if is_leap y then 29 else 28)
  else if (m =? 4) || (m =? 6) || (m =? 9) || (m =? 11) then 30
  else 31.

Definition days_before_year (y : Z) : Z :=
  let y := y - 1 in y * 365 + y / 4 - y / 100 + y / 400.

Definition days_before_month (y m : Z) : Z :=
  nth (Z.to_nat m) [0; 0; 31; 59; 90; 120; 151; 181; 212; 243; 273; 304; 334] 0
  + (if (2 <? m) && is_leap y then 1 else 0).

Definition ymd2ord (y m d : Z) : Z :=
  days_before_year y + days_before_month y m + d.

(** The constructor [datetime(y, mo, d, h, mi, s, tzinfo=utc)] with its
    range checks. *)
Definition datetime_new (y mo d h mi s : Z) : result datetime :=
  if (1 <=? y) && (y <=? 9999) && (1 <=? mo) && (mo <=? 12)
     && (1 <=? d) && (d <=? days_in_month y mo)
     && (0 <=? h) && (h <=? 23) && (0 <=? mi) && (mi <=? 59)
     && (0 <=? s) && (s <=? 59)
  then Ok (mkDatetime y mo d h mi s)
  else Raise ValueError.

(** Seconds since 1970-01-01T00:00:00Z.  [dt.timestamp()] is this
    number as a float, and exactly so: it is an integer below [2^53]. *)
Definition epoch_seconds (dt : datetime) : Z :=
  (ymd2ord (dt_year dt) (dt_month dt) (dt_day dt) - 719163) * 86400
  + dt_hour dt * 3600 + dt_minute dt * 60 + dt_second dt.

(** The year of [datetime.fromtimestamp(t, tz=timezone.utc)]. *)
Definition fromtimestamp_year (t : Z) : Z :=
  let n := 719163 + t / 86400 - 1 in
  let n400 := n / 146097 in
  let n := n mod 146097 in
  let n100 := n / 36524 in
  let n := n mod 36524 in
  let n4 := n / 1461 in
  let n := n mod 1461 in
  let n1 := n / 365 in
  let year := n400 * 400 + 1 + n100 * 100 + n4 * 4 + n1 in
  if (n1 =? 4) || (n100 =? 4) then year - 1 else year.

Definition _parse_ts (ts_str : string) : result datetime :=
  y <- py_int (str_slice 0 4 ts_str) ;;
  mo <- py_int (str_slice 4 6 ts_str) ;;
  d <- py_int (str_slice 6 8 ts_str) ;;
  h <- py_int (str_slice 8 10 ts_str) ;;
  mi <- py_int (str_slice 10 12 ts_str) ;;
  s <- py_int (str_slice 12 14 ts_str) ;;
  datetime_new y mo d h mi s.

Definition validate_timestamp (ts_str : string) : result unit :=
  if negb (Nat.eqb (String.length ts_str) 14) || negb (isdigit ts_str)
  then Raise ValueError else
  y <- py_int (str_slice 0 4 ts_str) ;;
  mo <- py_int (str_slice 4 6 ts_str) ;;
  d <- py_int (str_slice 6 8 ts_str) ;;
  h <- py_int (str_slice 8 10 ts_str) ;;
  mi <- py_int (str_slice 10 12 ts_str) ;;
  s <- py_int (str_slice 12 14 ts_str) ;;
  if negb ((2000 <=? y) && (y <=? 2099)) then Raise ValueError else
  if negb ((1 <=? mo) && (mo <=? 12)) then Raise ValueError else
  if negb ((1 <=? d) && (d <=? 31)) then Raise ValueError else
  if negb ((0 <=? h) && (h <=? 23)) then Raise ValueError else
  if negb ((0 <=? mi) && (mi <=? 59)) then Raise ValueError else
  if negb ((0 <=? s) && (s <=? 59)) then Raise ValueError else
  Ok tt.

(** ** Binary search *)

Fixpoint bytes_eqb (a b : bytes) : bool :=
  match a, b with
  | [], [] => true
  | x :: a', y :: b' => Byte.eqb x y && bytes_eqb a' b'
  | _, _ => false
  end.

Fixpoint starts_with (data pat : bytes) : bool :=
  match pat with
  | [] => true
  | p :: pat' =>
      match data with
      | [] => false
      | d :: data' => Byte.eqb d p && starts_with data' pat'
      end
  end.

Fixpoint find_from (rest sub : bytes) (idx : Z) : Z :=
  if starts_with rest sub then idx
  else
    match rest with
    | [] => -1
    | _ :: rest' => find_from rest' sub (idx + 1)
    end.

(** [data.find(sub, start)] for [0 <= start]: the lowest index from
    [start] on at which [sub] occurs, or [-1]. *)
Definition bytes_find (data sub : bytes) (start : Z) : Z :=
  if len data <? start then -1 else find_from (drop start data) sub start.

(** [sub in data]. *)
Definition bytes_in (sub data : bytes) : bool :=
  negb (bytes_find data sub 0 =? -1).

(** The inner [while True] loop of [_find_pattern]: the offsets found in
    one search buffer.  [idx] grows with every round, so
    [length search_data + 2] rounds reach the [break]. *)
Fixpoint find_hits (fuel : nat) (search_data pattern : bytes)
                   (search_base pos : Z) : list Z :=
  match fuel with
  | O => []
  | S fuel' =>
      let idx := bytes_find search_data pattern pos in
      if idx =? -1 then []
      else (search_base + idx)
             :: find_hits fuel' search_data pattern search_base (idx + 1)
  end.

(** [chunk[-overlap:]]; [chunk[-0:]] is the whole chunk. *)
Definition last_bytes (overlap : Z) (chunk : bytes) : bytes :=
  if overlap =? 0 then chunk else drop (len chunk - overlap) chunk.

(** The outer [while True] loop of [_find_pattern]; [rest] is what the
    file handle has not read yet.  Every round but the last reads at
    least one byte, so [length rest + 1] rounds reach the [break]. *)
Fixpoint scan_chunks (chunk_size : Z) (fuel : nat) (pattern rest : bytes)
                     (file_pos : Z) (prev_tail : bytes) : list Z :=
  match fuel with
  | O => []
  | S fuel' =>
      let chunk := take chunk_size rest in
      match chunk with
      | [] => []
      | _ :: _ =>
          let overlap := len pattern in
          let search_data := prev_tail ++ chunk in
          let search_base := file_pos - len prev_tail in
          let found :=
            find_hits (S (S (List.length search_data)))
                      search_data pattern search_base 0 in
          let prev_tail' :=
            if overlap <=? len chunk then last_bytes overlap chunk
            else chunk in
          found ++ scan_chunks chunk_size fuel' pattern
                               (drop chunk_size rest)
                               (file_pos + len chunk) prev_tail'
      end
  end.

(** [_find_pattern] with the window size as a parameter. *)
Definition find_pattern_chunked (chunk_size : Z) (file pattern : bytes)
  : list Z :=
  scan_chunks chunk_size (S (List.length file)) pattern file 0 [].

Definition _find_pattern (file pattern : bytes) : list Z :=
  find_pattern_chunked _CHUNK_SIZE file pattern.

(** ** Patch logic *)

(** [f.seek(off); f.read(n)] for [0 <= off]. *)
Definition read_at (file : bytes) (off n : Z) : bytes :=
  take n (drop off file).

(** [f.seek(off); f.write(data)]: overwrites, and extends the file when
    the write runs past its end (with zero bytes up to [off] when the
    seek went past the end). *)
Definition write_at (file : bytes) (off : Z) (data : bytes) : bytes :=
  take off file
  ++ repeat x00 (Z.to_nat (off - len file))
  ++ data
  ++ drop (off + len data) file.

Inductive msg : Type :=
| MsgVarintMismatch (wrong_len correct_len : Z)
| MsgNoPatchable
| MsgCandidate (type : string) (offset : Z)
| MsgDryRun (count : Z)
| MsgUnexpectedBytes (offset : Z)
| MsgApplied (count : Z)
| MsgNotFound (filepath : string)
| MsgFile (filepath : string)
| MsgDone
| MsgFailed.

Record patch : Type := mkPatch {
  p_type : string;
  p_offset : Z;
  p_old : bytes;
  p_new : bytes
}.

(** [buf[0]]. *)
Definition first_byte (buf : bytes) : result byte :=
  match buf with
  | b :: _ => Ok b
  | [] => Raise IndexError
  end.

Definition be_value (bs : bytes) : Z :=
  fold_left (fun acc b => acc * 256 + byte_val b) bs 0.

(** [struct.unpack_from(">I", buf, off)[0]]. *)
Definition unpack_u32 (buf : bytes) (off : Z) : result Z :=
  if len buf - off <? 4 then Raise StructError
  else Ok (be_value (take 4 (drop off buf))).

(** [struct.pack(">I", v)]. *)
Definition pack_u32 (v : Z) : result bytes :=
  if (0 <=? v) && (v <=? 4294967295) then
    py_bytes [v / 16777216; (v / 65536) mod 256; (v / 256) mod 256; v mod 256]
  else Raise StructError.

(** A [for] loop whose body appends to [patches] and may raise. *)
Fixpoint for_each {A : Type} (items : list A)
                  (body : A -> result (list patch)) : result (list patch) :=
  match items with
  | [] => Ok []
  | x :: items' =>
      ps <- body x ;;
      qs <- for_each items' body ;;
      Ok (ps ++ qs)
  end.

Definition mp4_field (box_type : bytes) (buf : bytes) (offset delta_sec : Z)
                     (field : Z * string) : result (list patch) :=
  let '(field_off, name) := field in
  val <- unpack_u32 buf field_off ;;
  let new_val := val + delta_sec in
  old <- pack_u32 val ;;
  new <- pack_u32 new_val ;;
  Ok [mkPatch (string_of_list_byte box_type ++ "." ++ name)%string
              (offset + 4 + field_off) old new].

(** The body of the loop over the hits of one box type.  [ct] is a
    32-bit count of seconds from 1904, a date from 1904 to 2040, for
    which [datetime.fromtimestamp] does not raise; where a platform
    refuses the dates before 1970, the [except] clause skips the hit as
    the year test does. *)
Definition mp4_hit (file box_type : bytes) (delta_sec offset : Z)
  : result (list patch) :=
  let buf := read_at file (offset + 4) 20 in
  version <- first_byte buf ;;
  if negb (byte_val version =? 0) then Ok [] else
  ct <- unpack_u32 buf 4 ;;
  let ct_year := fromtimestamp_year (ct - _MP4_EPOCH_OFFSET) in
  if negb ((2000 <=? ct_year) && (ct_year <=? 2099)) then Ok [] else
  for_each [(4, "creation"%string); (8, "modification"%string)]
           (mp4_field box_type buf offset delta_sec).

Definition box_types : list bytes :=
  [list_byte_of_string "mvhd"; list_byte_of_string "tkhd";
   list_byte_of_string "mdhd"].

Definition mp4_patches (file : bytes) (delta_sec : Z) : result (list patch) :=
  for_each box_types (fun box_type =>
    for_each (_find_pattern file box_type)
             (mp4_hit file box_type delta_sec)).

Definition protobuf_patches (file wrong_varint correct_varint : bytes)
  : list patch :=
  map (fun offset =>
         mkPatch "protobuf creation_time" (offset + 1)
                 wrong_varint correct_varint)
      (_find_pattern file (x38 :: wrong_varint)).

(** The body of the loop over the hits of the tag [a0 02]. *)
Definition gps_hit (file : bytes) (wrong_epoch_ms delta_ms offset : Z)
  : result (list patch) :=
  let buf := read_at file (offset + 2) 10 in
  match _decode_varint buf 0 with
  | Raise _ => Ok []
  | Ok (val, vend) =>
      if negb ((1577836800000 <=? val) && (val <=? 1893456000000)) then Ok []
      else if 86400000 <=? Z.abs (val - wrong_epoch_ms) then Ok []
      else
        let old_v := firstn vend buf in
        new_v <- _encode_varint (val + delta_ms) ;;
        if len old_v =? len new_v then
          Ok [mkPatch "first_gps_timestamp" (offset + 2) old_v new_v]
        else Ok []
  end.

Definition gps_patches (file : bytes) (wrong_epoch_ms delta_ms : Z)
  : result (list patch) :=
  for_each (_find_pattern file [xa0; x02])
           (gps_hit file wrong_epoch_ms delta_ms).

Definition ascii_patches (file wrong_ascii correct_ascii : bytes)
  : list patch :=
  map (fun offset =>
         mkPatch "ASCII filename date" offset wrong_ascii correct_ascii)
      (_find_pattern file wrong_ascii).

Definition marker_VID : bytes := encode_utf16le "VID".
Definition marker_LRV : bytes := encode_utf16le "LRV".

(** The body of the loop over the hits of the UTF-16LE date. *)
Definition utf16_hit (file : bytes)
                     (wrong_utf16 correct_utf16 : bytes)
                     (wrong_time correct_time : string) (offset : Z)
  : list patch :=
  let ctx_start := Z.max 0 (offset - 20) in
  let ctx := read_at file ctx_start 60 in
  if negb (bytes_in marker_VID ctx) && negb (bytes_in marker_LRV ctx) then []
  else
    let time_offset := offset + 18 in
    let wrong_time_u16 := encode_utf16le wrong_time in
    let correct_time_u16 := encode_utf16le correct_time in
    mkPatch "UTF-16LE filename date" offset wrong_utf16 correct_utf16
    :: (if bytes_eqb (read_at file time_offset (len wrong_time_u16))
                     wrong_time_u16
        then [mkPatch "UTF-16LE filename time" time_offset
                      wrong_time_u16 correct_time_u16]
        else []).

Definition utf16_patches (file : bytes)
                         (wrong_utf16 correct_utf16 : bytes)
                         (wrong_time correct_time : string) : list patch :=
  flat_map (utf16_hit file wrong_utf16 correct_utf16 wrong_time correct_time)
           (_find_pattern file wrong_utf16).

(** Deduplicate: keep the first patch of each [(offset, type)]. *)
Definition key_eqb (k1 k2 : Z * string) : bool :=
  (fst k1 =? fst k2) && String.eqb (snd k1) (snd k2).

Fixpoint dedup (seen : list (Z * string)) (patches : list patch)
  : list patch :=
  match patches with
  | [] => []
  | p :: rest =>
      let key := (p_offset p, p_type p) in
      if existsb (key_eqb key) seen then dedup seen rest
      else p :: dedup (key :: seen) rest
  end.

(** [_patch_write]: the success flag, the file afterwards and what was
    printed. *)
Definition _patch_write (file : bytes) (offset : Z) (old new : bytes)
  : bool * bytes * list msg :=
  let existing := read_at file offset (len old) in
  if negb (bytes_eqb existing old) then
    (false, file, [MsgUnexpectedBytes offset])
  else (true, write_at file offset new, []).

(** The write loop at the end of [patch_file]. *)
Fixpoint write_patches (file : bytes) (patches : list patch) (ok : bool)
  : bool * bytes * list msg :=
  match patches with
  | [] => (ok, file, [])
  | p :: rest =>
      let '(written, file1, out1) :=
        _patch_write file (p_offset p) (p_old p) (p_new p) in
      let ok := if negb written then false else ok in
      let '(ok', file2, out2) := write_patches file1 rest ok in
      (ok', file2, out1 ++ out2)
  end.

(** What [patch_file] computes before it decides anything: either the
    length mismatch of the two varints, or the deduplicated patches. *)
Inductive plan : Type :=
| VarintMismatch (wrong_len correct_len : Z)
| Patches (patches : list patch).

Definition plan_patches (file : bytes) (wrong_str correct_str : string)
  : result plan :=
  wrong_ts <- py_int wrong_str ;;
  correct_ts <- py_int correct_str ;;
  let wrong_date := str_slice 0 8 wrong_str in
  let correct_date := str_slice 0 8 correct_str in
  let wrong_time := str_from 8 wrong_str in
  let correct_time := str_from 8 correct_str in
  wrong_dt <- _parse_ts wrong_str ;;
  correct_dt <- _parse_ts correct_str ;;
  let delta_sec := epoch_seconds correct_dt - epoch_seconds wrong_dt in
  let delta_ms := delta_sec * 1000 in
  atoms <- mp4_patches file delta_sec ;;
  wrong_varint <- _encode_varint wrong_ts ;;
  correct_varint <- _encode_varint correct_ts ;;
  if negb (len wrong_varint =? len correct_varint) then
    Ok (VarintMismatch (len wrong_varint) (len correct_varint))
  else
  let protobuf := protobuf_patches file wrong_varint correct_varint in
  let wrong_epoch_ms := epoch_seconds wrong_dt * 1000 in
  gps <- gps_patches file wrong_epoch_ms delta_ms ;;
  wrong_ascii <- encode_ascii (wrong_date ++ "_" ++ wrong_time) ;;
  correct_ascii <- encode_ascii (correct_date ++ "_" ++ correct_time) ;;
  let ascii := ascii_patches file wrong_ascii correct_ascii in
  let wrong_utf16 := encode_utf16le wrong_date in
  let correct_utf16 := encode_utf16le correct_date in
  let utf16 :=
    utf16_patches file wrong_utf16 correct_utf16 wrong_time correct_time in
  Ok (Patches (dedup [] (atoms ++ protobuf ++ gps ++ ascii ++ utf16))).

(** [patch_file]: the returned flag, the file afterwards and what was
    printed.  Every [raise] comes before the first write, so a raised
    exception leaves the file as it was. *)
Definition patch_file (file : bytes) (wrong_str correct_str : string)
                      (dry_run : bool) : result (bool * bytes * list msg) :=
  pl <- plan_patches file wrong_str correct_str ;;
  match pl with
  | VarintMismatch wl cl => Ok (false, file, [MsgVarintMismatch wl cl])
  | Patches patches =>
      match patches with
      | [] => Ok (false, file, [MsgNoPatchable])
      | _ :: _ =>
          let listing :=
            map (fun p => MsgCandidate (p_type p) (p_offset p)) patches in
          if dry_run then
            Ok (true, file, listing ++ [MsgDryRun (len patches)])
          else
            let '(ok, file', out) := write_patches file patches true in
            Ok (ok, file',
                listing ++ out
                ++ (if ok then [MsgApplied (len patches)] else []))
      end
  end.

(** ** The per-file loop of the command line *)

(** The files a run can see: a path is looked up from the front. *)
Definition filesystem := list (string * bytes).

Fixpoint fs_lookup (fs : filesystem) (path : string) : option bytes :=
  match fs with
  | [] => None
  | (p, content) :: fs' =>
      if String.eqb p path then Some content else fs_lookup fs' path
  end.

Fixpoint fs_store (fs : filesystem) (path : string) (content : bytes)
  : filesystem :=
  match fs with
  | [] => []
  | (p, c) :: fs' =>
      if String.eqb p path then (p, content) :: fs'
      else (p, c) :: fs_store fs' path content
  end.

(** The loop [for filepath in files] that ends [main]. *)
Fixpoint main_loop (fs : filesystem) (files : list string)
                   (wrong_str correct_str : string) (dry_run : bool)
  : result (filesystem * list msg) :=
  match files with
  | [] => Ok (fs, [])
  | filepath :: files' =>
      match fs_lookup fs filepath with
      | None =>
          '(fs', out) <- main_loop fs files' wrong_str correct_str dry_run ;;
          Ok (fs', MsgNotFound filepath :: out)
      | Some content =>
          '(success, content', out1) <-
            patch_file content wrong_str correct_str dry_run ;;
          let fs1 := fs_store fs filepath content' in
          '(fs', out2) <- main_loop fs1 files' wrong_str correct_str dry_run ;;
          Ok (fs', MsgFile filepath :: out1
                   ++ (if success then MsgDone else MsgFailed) :: out2)
      end
  end.

(** * Notions used in the statements *)

(** A decimal digit, and the value of a string of them. *)
Definition is_decimal (c : ascii) : bool :=
  (48 <=? code c) && (code c <=? 57).

Definition dec_value (cs : list ascii) (acc : Z) : Z :=
  fold_left (fun a c => a * 10 + (code c - 48)) cs acc.

(** [pat] occurs in [data] at offset [o]. *)
Definition occurs_at (data pat : bytes) (o : Z) : Prop :=
  0 <= o /\ o + len pat <= len data /\ read_at data o (len pat) = pat.

(** The types of the patches of the MP4 atom stage. *)
Definition atom_types : list string :=
  ["mvhd.creation"; "mvhd.modification"; "tkhd.creation";
   "tkhd.modification"; "mdhd.creation"; "mdhd.modification"]%string.

(** The exceptions the MP4 atom stage can raise. *)
Definition atom_exn (e : exn) : Prop := e = StructError \/ e = IndexError.

(** The trace of the write loop in terms of [write_at], candidate by
    candidate: each one is verified against the file as the earlier
    writes left it, written when its old bytes are there, and skipped
    otherwise; the candidates after it are processed all the same. *)
Inductive writes : bytes -> list patch -> list bool -> bytes -> Prop :=
| writes_nil (file : bytes) : writes file [] [] file
| writes_ok (file : bytes) (p : patch) (rest : list patch)
            (outcomes : list bool) (file' : bytes) :
    read_at file (p_offset p) (len (p_old p)) = p_old p ->
    writes (write_at file (p_offset p) (p_new p)) rest outcomes file' ->
    writes file (p :: rest) (true :: outcomes) file'
| writes_mismatch (file : bytes) (p : patch) (rest : list patch)
                  (outcomes : list bool) (file' : bytes) :
    read_at file (p_offset p) (len (p_old p)) <> p_old p ->
    writes file rest outcomes file' ->
    writes file (p :: rest) (false :: outcomes) file'.

(** ** Example files *)

(** The tag [a0 02] and the varint of 1767469616000, the epoch
    milliseconds of 2026-01-03 19:46:56 UTC, then two more bytes. *)
Definition gps_example_file : bytes :=
  [xa0; x02; x80; x97; x98; xab; xb8; x33; x00; x00].

(** The date 20260103 in UTF-16LE, followed by the marker VID. *)
Definition marker_after_file : bytes :=
  encode_utf16le "20260103" ++ encode_utf16le "VID".

(** An [mvhd] atom of version 0 whose two time fields are e5803a00,
    2026-01-04 15:38:40 UTC in seconds since 1904, then eight bytes. *)
Definition mvhd_example_file : bytes :=
  list_byte_of_string "mvhd"
  ++ [x00; x00; x00; x00; xe5; x80; x3a; x00; xe5; x80; x3a; x00]
  ++ list_byte_of_string "12345678".

(** The ASCII date and time of 2026-01-03 19:46:56 between two bytes. *)
Definition ascii_example_file : bytes :=
  list_byte_of_string "zz20260103_194656zz".

(** The date and time 2012-01-15 20:12:01 in ASCII, twice, the second
    occurrence starting on the time of the first. *)
Definition overlap_example_file : bytes :=
  list_byte_of_string "20120115_20120115_201201".

(** [mvhd_example_file] after one run, and after two runs, with the
    timestamps 2026-01-03 19:46:56 and 2026-02-15 14:38:00. *)
Definition mvhd_example_once : bytes :=
  list_byte_of_string "mvhd"
  ++ [x00; x00; x00; x00; xe5; xb8; xa2; x18; xe5; xb8; xa2; x18]
  ++ list_byte_of_string "12345678".

Definition mvhd_example_twice : bytes :=
  list_byte_of_string "mvhd"
  ++ [x00; x00; x00; x00; xe5; xf1; x0a; x30; xe5; xf1; x0a; x30]
  ++ list_byte_of_string "12345678".

(** An [mvhd] atom of version 0 with a plausible creation field and a
    modification field of ffffffff. *)
Definition mvhd_odd_modification_file : bytes :=
  list_byte_of_string "mvhd"
  ++ [x00; x00; x00; x00; xe5; x80; x3a; x00; xff; xff; xff; xff]
  ++ list_byte_of_string "12345678".

(** * Further definitions *)

(** The continuation bit of a varint byte. *)
Definition continues (b : byte) : bool :=
  negb (Z.land (byte_val b) 0x80 =? 0).

(** The key of the deduplication in [patch_file]. *)
Definition patch_key (p : patch) : Z * string := (p_offset p, p_type p).

(** A candidate whose expected old bytes, at least one, are in the file
    at its offset. *)
Definition verifies (file : bytes) (p : patch) : Prop :=
  0 <= p_offset p /\ p_old p <> [] /\
  read_at file (p_offset p) (len (p_old p)) = p_old p.

(** A candidate as [patch_file] may write it: taken from the file and
    with as many new bytes as old ones. *)
Definition in_place (p : patch) : Prop :=
  0 <= p_offset p /\ p_old p <> [] /\ len (p_old p) = len (p_new p).

(** Two candidates whose byte ranges do not meet. *)
Definition apart (p q : patch) : Prop :=
  p_offset p + len (p_new p) <= p_offset q \/
  p_offset q + len (p_new q) <= p_offset p.

(** The tag [38] and the varint of 20260103194656, then a zero byte. *)
Definition protobuf_example_file : bytes :=
  [x38; xa0; x90; x84; xe2; xd2; xcd; x04; x00].

(** [str(v)] for an integer: its decimal digits, after a minus sign
    when it is negative.  The loop takes the digits off from the right;
    a value has no more decimal digits than bits, so the fuel is never
    used up (see [str_digits_spec]). *)
Definition digit_char (d : Z) : ascii := ascii_of_nat (Z.to_nat (48 + d)).

Fixpoint str_digits (fuel : nat) (v : Z) (acc : list ascii) : list ascii :=
  match fuel with
  | O => acc
  | S fuel' =>
      let acc' := digit_char (v mod 10) :: acc in
      if v <? 10 then acc' else str_digits fuel' (v / 10) acc'
  end.

Definition py_str (v : Z) : string :=
  if v <? 0 then
    String "-" (string_of_list_ascii
                  (str_digits (S (Z.to_nat (Z.log2 (- v)))) (- v) []))
  else string_of_list_ascii (str_digits (S (Z.to_nat (Z.log2 v))) v []).

(** The body of the loop of [read_shooting_time] for one hit of the tag
    [38]: [Some s] when it returns [s], [None] when it goes on to the
    next hit. *)
Definition shooting_time_at (file : bytes) (offset : Z)
  : result (option string) :=
  let buf := read_at file (offset + 1) 10 in
  match _decode_varint buf 0 with
  | Raise _ => Ok None
  | Ok (val, _) =>
      let s := py_str val in
      if negb (Nat.eqb (String.length s) 14)
         || negb (String.eqb (str_slice 0 2 s) "20")
      then Ok None
      else
        y <- py_int (str_slice 0 4 s) ;;
        mo <- py_int (str_slice 4 6 s) ;;
        d <- py_int (str_slice 6 8 s) ;;
        h <- py_int (str_slice 8 10 s) ;;
        mi <- py_int (str_slice 10 12 s) ;;
        sec <- py_int (str_slice 12 14 s) ;;
        if (1 <=? mo) && (mo <=? 12) && (1 <=? d) && (d <=? 31)
           && (h <=? 23) && (mi <=? 59) && (sec <=? 59)
        then Ok (Some s)
        else Ok None
  end.

Fixpoint first_shooting_time (file : bytes) (offsets : list Z)
  : result string :=
  match offsets with
  | [] => Raise ValueError
  | offset :: rest =>
      r <- shooting_time_at file offset ;;
      match r with
      | Some s => Ok s
      | None => first_shooting_time file rest
      end
  end.

Definition read_shooting_time (file : bytes) : result string :=
  first_shooting_time file (_find_pattern file [x38]).

(** [_fmt_ts]. *)
Definition _fmt_ts (ts_str : string) : string :=
  (str_slice 0 4 ts_str ++ "-" ++ str_slice 4 6 ts_str ++ "-"
   ++ str_slice 6 8 ts_str ++ " " ++ str_slice 8 10 ts_str ++ ":"
   ++ str_slice 10 12 ts_str ++ ":" ++ str_slice 12 14 ts_str)%string.

(** The tag [38] and the varint of 20260103194656 after two bytes [38]
    that start no plausible timestamp. *)
Definition reader_example_file : bytes :=
  [x38; x38; x01; x38; xa0; x90; x84; xe2; xd2; xcd; x04; x00].

(** The number written by the characters [lo, hi) of a timestamp
    string. *)
Definition ts_field (lo hi : nat) (ts_str : string) : Z :=
  dec_value (list_ascii_of_string (str_slice lo hi ts_str)) 0.

(** Fourteen decimal digits YYYYMMDDHHmmss with the year in 2000..2099,
    the month in 1..12, the day in 1..31, the hour up to 23, minute and
    second up to 59. *)
Definition well_formed (ts_str : string) : Prop :=
  String.length ts_str = 14%nat /\
  forallb is_decimal (list_ascii_of_string ts_str) = true /\
  2000 <= ts_field 0 4 ts_str <= 2099 /\
  1 <= ts_field 4 6 ts_str <= 12 /\
  1 <= ts_field 6 8 ts_str <= 31 /\
  ts_field 8 10 ts_str <= 23 /\
  ts_field 10 12 ts_str <= 59 /\
  ts_field 12 14 ts_str <= 59.

(** ** The command line *)

(** What [main] prints: the usage text ([stripped] or as it is), its
    own lines, and the lines of [patch_file] and of the loop over the
    files. *)
Inductive line : Type :=
| LineDoc (stripped : bool)
| LineMissing (filepath : string)
| LineShootingTime (filepath formatted : string)
| LineReadError (filepath : string)
| LineDryRunMode
| LineNoValidFiles
| LineAutoDetected (formatted : string)
| LineNothingToDo (formatted : string)
| LineCurrent (formatted : string)
| LineCorrect (formatted : string)
| LineOf (m : msg).

(** How [main] ends: it returns, or [sys.exit] is called. *)
Inductive status : Type :=
| Returned
| Exited (code : Z).

(** [a.startswith("-")] and [a in argv]. *)
Definition startswith_dash (a : string) : bool :=
  match a with
  | String c _ => Ascii.eqb c "-"
  | EmptyString => false
  end.

Definition mem (a : string) (argv : list string) : bool :=
  existsb (String.eqb a) argv.

(** The loop of the [--read] mode. *)
Fixpoint read_loop (fs : filesystem) (args : list string)
  : result (list line) :=
  match args with
  | [] => Ok []
  | filepath :: rest =>
      match fs_lookup fs filepath with
      | None =>
          out <- read_loop fs rest ;;
          Ok (LineMissing filepath :: out)
      | Some content =>
          match read_shooting_time content with
          | Ok ts =>
              out <- read_loop fs rest ;;
              Ok (LineShootingTime filepath (_fmt_ts ts) :: out)
          | Raise ValueError =>
              out <- read_loop fs rest ;;
              Ok (LineReadError filepath :: out)
          | Raise e => Raise e
          end
      end
  end.

(** [next((f for f in files if Path(f).exists()), None)], with the
    content of the file found. *)
Fixpoint first_existing (fs : filesystem) (files : list string)
  : option (string * bytes) :=
  match files with
  | [] => None
  | f :: rest =>
      match fs_lookup fs f with
      | Some content => Some (f, content)
      | None => first_existing fs rest
      end
  end.

(** [main] up to its last loop: either it is over ([Stop]), or the loop
    is run over [files] with the two timestamps ([Patch]). *)
Inductive setup : Type :=
| Stop (out : list line) (st : status)
| Patch (files : list string) (wrong_str correct_str : string)
        (dry_run : bool) (out : list line).

(** From the test [wrong_str == correct_str] on. *)
Definition main_compare (files : list string) (wrong_str correct_str : string)
                        (dry_run : bool) (out : list line) : setup :=
  if String.eqb wrong_str correct_str then
    Stop (out ++ [LineNothingToDo (_fmt_ts correct_str)]) Returned
  else
    Patch files wrong_str correct_str dry_run
          (out ++ [LineCurrent (_fmt_ts wrong_str);
                   LineCorrect (_fmt_ts correct_str)]).

Definition main_setup (argv : list string) (fs : filesystem)
  : result setup :=
  let help := mem "--help" argv || mem "-h" argv in
  if (List.length argv <? 2)%nat || help then
    Ok (Stop [LineDoc true] (Exited (if help then 0 else 1)))
  else
  let dry_run := mem "--dry-run" argv in
  let read_only := mem "--read" argv in
  let args := filter (fun a => negb (startswith_dash a)) (tl argv) in
  if read_only then
    out <- read_loop fs args ;;
    Ok (Stop out Returned)
  else
  if (List.length args <? 2)%nat then
    Ok (Stop [LineDoc false] (Exited 1))
  else
  let last_arg := last args ""%string in
  let second_last :=
    if (3 <=? List.length args)%nat then last (removelast args) ""%string
    else ""%string in
  let is_ts (a : string) := isdigit a && Nat.eqb (String.length a) 14 in
  let out := if dry_run then [LineDryRunMode] else [] in
  if (3 <=? List.length args)%nat && is_ts second_last && is_ts last_arg
  then
    let files := removelast (removelast args) in
    let wrong_str := second_last in
    let correct_str := last_arg in
    _ <- validate_timestamp correct_str ;;
    _ <- validate_timestamp wrong_str ;;
    Ok (main_compare files wrong_str correct_str dry_run out)
  else if is_ts last_arg then
    let files := removelast args in
    let correct_str := last_arg in
    _ <- validate_timestamp correct_str ;;
    match first_existing fs files with
    | None => Ok (Stop (out ++ [LineNoValidFiles]) (Exited 1))
    | Some (first_file, content) =>
        if String.eqb first_file "" then
          Ok (Stop (out ++ [LineNoValidFiles]) (Exited 1))
        else
          wrong_str <- read_shooting_time content ;;
          Ok (main_compare files wrong_str correct_str dry_run
                (out ++ [LineAutoDetected (_fmt_ts wrong_str)]))
    end
  else
    Ok (Stop [LineDoc false] (Exited 1)).

(** [main] on the arguments [argv] (the program's name first) and the
    files [fs]: the files afterwards, what was printed and how it
    ended. *)
Definition main (argv : list string) (fs : filesystem)
  : result (filesystem * list line * status) :=
  s <- main_setup argv fs ;;
  match s with
  | Stop out st => Ok (fs, out, st)
  | Patch files wrong_str correct_str dry_run out =>
      '(fs', out') <- main_loop fs files wrong_str correct_str dry_run ;;
      Ok (fs', out ++ map LineOf out', Returned)
  end.

(** The paths of a file system with the size of each file. *)
Definition sizes (fs : filesystem) : list (string * Z) :=
  map (fun entry => (fst entry, len (snd entry))) fs.

(** ** The write phase, by what can be read back *)

(** [after] is [before] with the bytes [new] put at offset [off]: the
    [off] bytes in front read as before, at [off] one reads [new], and
    what follows reads as before. *)
Definition replaced (before : bytes) (off : Z) (new after : bytes) : Prop :=
  read_at after 0 off = read_at before 0 off /\
  read_at after off (len new) = new /\
  drop (off + len new) after = drop (off + len new) before.

(** The write loop of [patch_file] on the candidates in turn, from the
    file [file] to the file [file']: a candidate whose old bytes are
    read back at its offset is replaced; one whose old bytes are not
    there is refused with a message, the file staying as it is, and
    the loop goes on.  The flag is true when no candidate was
    refused. *)
Inductive write_run :
  bytes -> list patch -> bool -> bytes -> list msg -> Prop :=
| run_end (file : bytes) : write_run file [] true file []
| run_written (file : bytes) (p : patch) (rest : list patch)
              (file1 : bytes) (ok : bool) (file' : bytes)
              (errors : list msg) :
    read_at file (p_offset p) (len (p_old p)) = p_old p ->
    replaced file (p_offset p) (p_new p) file1 ->
    write_run file1 rest ok file' errors ->
    write_run file (p :: rest) ok file' errors
| run_refused (file : bytes) (p : patch) (rest : list patch)
              (ok : bool) (file' : bytes) (errors : list msg) :
    read_at file (p_offset p) (len (p_old p)) <> p_old p ->
    write_run file rest ok file' errors ->
    write_run file (p :: rest) false file'
              (MsgUnexpectedBytes (p_offset p) :: errors).

(** A candidate that can be verified: its offset is not negative and
    it has old bytes. *)
Definition checkable (p : patch) : Prop :=
  0 <= p_offset p /\ p_old p <> [].

(** * Properties *)

(** Closes the case of a stage whose patches are of another type than
    the patch at hand. *)
Ltac not_this_stage :=
  match goal with
  | T : p_type ?p = _, H : In (p_type ?p) atom_types |- _ =>
      rewrite T in H; simpl in H; exfalso; intuition discriminate
  | T : p_type ?p = _, H : p_type ?p = _ |- _ =>
      rewrite T in H; discriminate
  end.

(** ** Lists and lengths *)

Lemma take_firstn {A : Type} (l : list A) :
  forall n, take n l = firstn (Z.to_nat n) l.
Proof.
  induction l as [|x l IH]; intro n; simpl.
  - now rewrite firstn_nil.
  - destruct (Z.leb_spec n 0) as [Hn|Hn].
    + replace (Z.to_nat n) with O by lia. reflexivity.
    + replace (Z.to_nat n) with (S (Z.to_nat (n - 1))) by lia.
      simpl. now rewrite IH.
Qed.

Lemma drop_skipn {A : Type} (l : list A) :
  forall n, drop n l = skipn (Z.to_nat n) l.
Proof.
  induction l as [|x l IH]; intro n; simpl.
  - now rewrite skipn_nil.
  - destruct (Z.leb_spec n 0) as [Hn|Hn].
    + replace (Z.to_nat n) with O by lia. reflexivity.
    + replace (Z.to_nat n) with (S (Z.to_nat (n - 1))) by lia.
      simpl. now rewrite IH.
Qed.

Lemma len_nonneg {A : Type} (l : list A) : 0 <= len l.
Proof. unfold len. lia. Qed.

Lemma len_app {A : Type} (l1 l2 : list A) : len (l1 ++ l2) = len l1 + len l2.
Proof. unfold len. rewrite length_app. lia. Qed.

Lemma len_cons {A : Type} (x : A) (l : list A) : len (x :: l) = 1 + len l.
Proof.
  unfold len. change (List.length (x :: l)) with (S (List.length l)). lia.
Qed.

Lemma len_take {A : Type} (n : Z) (l : list A) :
  len (take n l) = Z.max 0 (Z.min n (len l)).
Proof. unfold len. rewrite take_firstn, length_firstn. lia. Qed.

Lemma len_drop {A : Type} (n : Z) (l : list A) :
  len (drop n l) = Z.max 0 (len l - Z.max 0 n).
Proof. unfold len. rewrite drop_skipn, length_skipn. lia. Qed.

Lemma take_drop {A : Type} (n : Z) (l : list A) : take n l ++ drop n l = l.
Proof. rewrite take_firstn, drop_skipn. apply firstn_skipn. Qed.

Lemma take_all {A : Type} (n : Z) (l : list A) : len l <= n -> take n l = l.
Proof.
  unfold len. intro H. rewrite take_firstn. apply firstn_all2. lia.
Qed.

Lemma drop_all {A : Type} (n : Z) (l : list A) : len l <= n -> drop n l = [].
Proof.
  unfold len. intro H. rewrite drop_skipn. apply skipn_all2. lia.
Qed.

Lemma drop_0 {A : Type} (n : Z) (l : list A) : n <= 0 -> drop n l = l.
Proof.
  intro H. rewrite drop_skipn. replace (Z.to_nat n) with O by lia.
  reflexivity.
Qed.

Lemma take_app_exact {A : Type} (l1 l2 : list A) :
  take (len l1) (l1 ++ l2) = l1.
Proof.
  unfold len. rewrite take_firstn, Nat2Z.id.
  rewrite firstn_app, Nat.sub_diag, firstn_all. simpl.
  now rewrite app_nil_r.
Qed.

Lemma drop_app_exact {A : Type} (l1 l2 : list A) :
  drop (len l1) (l1 ++ l2) = l2.
Proof.
  unfold len. rewrite drop_skipn, Nat2Z.id.
  rewrite skipn_app, Nat.sub_diag, skipn_all. reflexivity.
Qed.

Lemma drop_drop {A : Type} (n m : Z) (l : list A) :
  0 <= n -> 0 <= m -> drop n (drop m l) = drop (m + n) l.
Proof.
  intros Hn Hm. rewrite !drop_skipn, skipn_skipn. f_equal. lia.
Qed.

(** ** The varint codec *)

Lemma byte_of_Z_ok (v : Z) :
  0 <= v < 256 -> exists b, byte_of_Z v = Ok b /\ byte_val b = v.
Proof.
  intros [Hlo Hhi]. unfold byte_of_Z.
  destruct (Z.leb_spec 0 v); [|lia].
  destruct (Z.ltb_spec v 256); [|lia]. simpl.
  destruct (Byte.of_N (Z.to_N v)) as [b|] eqn:E.
  - exists b. split; [reflexivity|].
    unfold byte_val. apply Byte.to_of_N in E. rewrite E. lia.
  - apply Byte.of_N_None_iff in E. lia.
Qed.

Lemma byte_val_range (b : byte) : 0 <= byte_val b < 256.
Proof.
  unfold byte_val. pose proof (Byte.to_N_bounded b). lia.
Qed.

Lemma encode_loop_acc (fuel : nat) :
  forall v parts, encode_loop fuel v parts = parts ++ encode_loop fuel v [].
Proof.
  induction fuel as [|fuel IH]; intros v parts; simpl.
  - reflexivity.
  - destruct (v >? 127); [|reflexivity].
    rewrite IH. rewrite (IH _ [_]). now rewrite <- app_assoc.
Qed.

Lemma low7_split (v : Z) :
  Z.lor (Z.land v 127) (Z.shiftl (Z.shiftr v 7) 7) = v.
Proof.
  change 127 with (Z.ones 7).
  rewrite <- Z.ldiff_ones_r by lia.
  rewrite Z.lor_comm. apply Z.lor_ldiff_and.
Qed.

Lemma low7_range (v : Z) : 0 <= Z.land v 127 < 128.
Proof.
  change 127 with (Z.ones 7). rewrite Z.land_ones by lia.
  change (2 ^ 7) with 128. apply Z.mod_pos_bound. lia.
Qed.

Lemma low7_flag (v : Z) : Z.lor (Z.land v 127) 128 = Z.land v 127 + 128.
Proof.
  pose proof (Z.add_lor_land (Z.land v 127) 128) as H.
  rewrite <- Z.land_assoc in H. change (Z.land 127 128) with 0 in H.
  rewrite Z.land_0_r in H. lia.
Qed.

Lemma low7_of_flagged (v : Z) :
  Z.land (Z.lor (Z.land v 127) 128) 127 = Z.land v 127.
Proof.
  rewrite Z.land_lor_distr_l. rewrite <- Z.land_assoc.
  change (Z.land 127 127) with 127. change (Z.land 128 127) with 0.
  apply Z.lor_0_r.
Qed.

Lemma flag_of_flagged (v : Z) :
  Z.land (Z.lor (Z.land v 127) 128) 128 <> 0.
Proof.
  rewrite Z.land_lor_distr_l. change (Z.land 128 128) with 128.
  intro H. apply Z.lor_eq_0_iff in H. destruct H. discriminate.
Qed.

Lemma small_low7 (v : Z) : 0 <= v <= 127 -> Z.land v 127 = v.
Proof.
  intro H. change 127 with (Z.ones 7). rewrite Z.land_ones by lia.
  apply Z.mod_small. change (2 ^ 7) with 128. lia.
Qed.

Lemma small_flag (v : Z) : 0 <= v <= 127 -> Z.land v 128 = 0.
Proof.
  intro H. rewrite <- (small_low7 v H), <- Z.land_assoc.
  change (Z.land 127 128) with 0. apply Z.land_0_r.
Qed.

(** The encoder's loop on a value that fits the fuel, and what the
    decoder's loop makes of its output from any state. *)
Lemma encode_decode_loop (fuel : nat) :
  forall v, 0 <= v < 2 ^ (7 * (Z.of_nat fuel + 1)) ->
  exists bs, py_bytes (encode_loop fuel v []) = Ok bs /\
    bs <> [] /\
    forall tail r s p, 0 <= s ->
      decode_loop (bs ++ tail) r s p
      = Ok (Z.lor r (Z.shiftl v s), (p + List.length bs)%nat).
Proof.
  assert (Hlast : forall v, 0 <= v <= 127 ->
    exists bs, py_bytes [v] = Ok bs /\ bs <> [] /\
      forall tail r s p, 0 <= s ->
        decode_loop (bs ++ tail) r s p
        = Ok (Z.lor r (Z.shiftl v s), (p + List.length bs)%nat)).
  { intros v Hv. destruct (byte_of_Z_ok v) as [b [Hb Hval]]; [lia|].
    exists [b]. simpl. rewrite Hb. simpl. split; [reflexivity|].
    split; [discriminate|]. intros tail r s p Hs.
    rewrite Hval, small_flag, small_low7 by lia. simpl.
    do 2 f_equal. lia. }
  induction fuel as [|fuel IH]; intros v Hv.
  - simpl. apply Hlast. change (2 ^ (7 * (Z.of_nat 0 + 1))) with 128 in Hv.
    lia.
  - simpl. destruct (Z.gtb_spec v 127) as [Hbig|Hsmall].
    2: { apply Hlast. lia. }
    rewrite encode_loop_acc.
    destruct (IH (Z.shiftr v 7)) as [bs [Hbs [Hne Hdec]]].
    { rewrite Z.shiftr_div_pow2 by lia. split.
      - apply Z.div_pos; lia.
      - apply Z.div_lt_upper_bound; [lia|].
        rewrite <- Z.pow_add_r by lia.
        replace (7 + 7 * (Z.of_nat fuel + 1))
          with (7 * (Z.of_nat (S fuel) + 1)) by lia.
        lia. }
    destruct (byte_of_Z_ok (Z.lor (Z.land v 127) 128)) as [b [Hb Hval]].
    { rewrite low7_flag. pose proof (low7_range v). lia. }
    exists (b :: bs). simpl. rewrite Hb. simpl. rewrite Hbs. simpl.
    split; [reflexivity|]. split; [discriminate|].
    intros tail r s p Hs. rewrite Hval, low7_of_flagged.
    destruct (Z.eqb_spec (Z.land (Z.lor (Z.land v 127) 128) 128) 0) as [E|_].
    { now apply flag_of_flagged in E. }
    rewrite Hdec by lia. f_equal. f_equal.
    + rewrite <- Z.lor_assoc. f_equal.
      replace (s + 7) with (7 + s) by lia.
      rewrite <- Z.shiftl_shiftl by lia.
      rewrite <- Z.shiftl_lor. now rewrite low7_split.
    + lia.
Qed.

Lemma encode_fuel_enough (v : Z) :
  0 <= v -> v < 2 ^ (7 * (Z.of_nat (encode_fuel v) + 1)).
Proof.
  intro Hv. unfold encode_fuel.
  rewrite Z2Nat.id by apply Z.log2_nonneg.
  destruct (Z.eq_dec v 0) as [->|Hnz].
  - simpl. lia.
  - assert (Hlog : v < 2 ^ (Z.succ (Z.log2 v))).
    { apply Z.log2_spec. lia. }
    eapply Z.lt_le_trans; [exact Hlog|].
    apply Z.pow_le_mono_r; [lia|]. pose proof (Z.log2_nonneg v). lia.
Qed.

(** More fuel than a value needs changes nothing. *)
Lemma encode_loop_fuel (fuel : nat) :
  forall v extra, 0 <= v < 2 ^ (7 * (Z.of_nat fuel + 1)) ->
    encode_loop (fuel + extra) v [] = encode_loop fuel v [].
Proof.
  induction fuel as [|fuel IH]; intros v extra Hv.
  - change (2 ^ (7 * (Z.of_nat 0 + 1))) with 128 in Hv.
    destruct extra; simpl; [reflexivity|].
    destruct (Z.gtb_spec v 127); [lia|reflexivity].
  - simpl. destruct (Z.gtb_spec v 127) as [Hbig|]; [|reflexivity].
    rewrite encode_loop_acc, (encode_loop_acc fuel). f_equal.
    apply IH. rewrite Z.shiftr_div_pow2 by lia. split.
    + apply Z.div_pos; lia.
    + apply Z.div_lt_upper_bound; [lia|].
      rewrite <- Z.pow_add_r by lia.
      replace (7 + 7 * (Z.of_nat fuel + 1))
        with (7 * (Z.of_nat (S fuel) + 1)) by lia.
      lia.
Qed.

(** The encoder returns on every non-negative integer, and the decoder
    reads the value back from its bytes, whatever follows them. *)
Lemma encode_varint_decodes (v : Z) :
  0 <= v ->
  exists bs, _encode_varint v = Ok bs /\ bs <> [] /\
             forall tail,
               _decode_varint (bs ++ tail) 0 = Ok (v, List.length bs).
Proof.
  intro Hv. unfold _encode_varint, _decode_varint.
  destruct (encode_decode_loop (encode_fuel v) v) as [bs [Hbs [Hne Hdec]]].
  { split; [exact Hv|]. now apply encode_fuel_enough. }
  exists bs. split; [exact Hbs|]. split; [exact Hne|].
  intro tail. simpl skipn. rewrite Hdec by lia.
  now rewrite Z.shiftl_0_r.
Qed.

(** C8. Varint round trip: every non-negative integer, and so the
    integer of every 14-digit timestamp, is encoded to some bytes, and
    decoding those bytes from position 0 returns the integer together
    with the number of bytes of the encoding. *)
Theorem varint_roundtrip (v : Z) :
  0 <= v ->
  exists bs, _encode_varint v = Ok bs /\
             _decode_varint bs 0 = Ok (v, List.length bs).
Proof.
  intro Hv. unfold _encode_varint, _decode_varint.
  destruct (encode_decode_loop (encode_fuel v) v) as [bs [Hbs [_ Hdec]]].
  { split; [exact Hv|]. now apply encode_fuel_enough. }
  exists bs. split; [exact Hbs|]. simpl.
  specialize (Hdec [] 0 0 O). rewrite app_nil_r in Hdec.
  rewrite Hdec by lia. rewrite Z.shiftl_0_r. reflexivity.
Qed.

Lemma varint_roundtrip_witness :
  exists bs, _encode_varint 20260103194656 = Ok bs /\
             _decode_varint bs 0 = Ok (20260103194656, List.length bs).
Proof. apply (varint_roundtrip 20260103194656). lia. Defined.

Lemma py_bytes_length (parts : list Z) :
  forall bs, py_bytes parts = Ok bs -> List.length bs = List.length parts.
Proof.
  induction parts as [|v parts IH]; simpl; intros bs H.
  - now inversion H.
  - destruct (byte_of_Z v); [|discriminate]. simpl in H.
    destruct (py_bytes parts) as [bs'|]; [|discriminate]. simpl in H.
    inversion H. simpl. now rewrite (IH bs').
Qed.

Lemma encode_loop_length (fuel : nat) :
  forall v parts, 2 ^ (7 * Z.of_nat fuel) <= v ->
    List.length (encode_loop fuel v parts)
    = (List.length parts + fuel + 1)%nat.
Proof.
  induction fuel as [|fuel IH]; intros v parts Hv; simpl encode_loop.
  - rewrite length_app. simpl. lia.
  - assert (H128 : 2 ^ 7 <= 2 ^ (7 * Z.of_nat (S fuel))).
    { apply Z.pow_le_mono_r; lia. }
    change (2 ^ 7) with 128 in H128.
    destruct (Z.gtb_spec v 127); [|lia].
    rewrite IH.
    + rewrite length_app. simpl. lia.
    + rewrite Z.shiftr_div_pow2 by lia.
      apply Z.div_le_lower_bound; [lia|].
      rewrite <- Z.pow_add_r by lia.
      replace (7 + 7 * Z.of_nat fuel) with (7 * Z.of_nat (S fuel)) by lia.
      exact Hv.
Qed.

(** A value of 43 to 49 bits is encoded in exactly seven bytes. *)
Lemma encode_varint_7 (v : Z) :
  2 ^ 42 <= v < 2 ^ 49 ->
  exists bs, _encode_varint v = Ok bs /\ List.length bs = 7%nat.
Proof.
  intros [Hlo Hhi].
  destruct (encode_varint_decodes v) as [bs [Henc _]]; [lia|].
  exists bs. split; [exact Henc|].
  unfold _encode_varint in Henc. apply py_bytes_length in Henc.
  rewrite Henc.
  assert (Hfuel : (6 <= encode_fuel v)%nat).
  { unfold encode_fuel.
    assert (42 <= Z.log2 v) by (apply Z.log2_le_pow2; lia). lia. }
  replace (encode_fuel v) with (6 + (encode_fuel v - 6))%nat by lia.
  rewrite encode_loop_fuel.
  - rewrite encode_loop_length; [reflexivity|].
    change (7 * Z.of_nat 6) with 42. exact Hlo.
  - change (7 * (Z.of_nat 6 + 1)) with 49. lia.
Qed.

(** ** Decimal strings *)

Lemma digit_char_cases (c : ascii) :
  is_digit_char c = true ->
  is_space c = false /\ code c <> 43 /\ code c <> 45 /\ code c <> 95 /\
  digit_val c = (if is_decimal c then Some (code c - 48) else None).
Proof.
  unfold is_digit_char, is_space, digit_val, is_decimal.
  intro H. repeat split; lia.
Qed.

Lemma lstrip_digit_chars (cs : list ascii) :
  forallb is_digit_char cs = true -> lstrip cs = cs.
Proof.
  destruct cs as [|c cs]; simpl; [reflexivity|].
  intro H. apply andb_prop in H. destruct H as [Hc _].
  apply digit_char_cases in Hc. destruct Hc as [Hs _]. now rewrite Hs.
Qed.

Lemma digits_value_digit_chars (cs : list ascii) :
  forall acc, forallb is_digit_char cs = true ->
    digits_value cs acc
    = (if forallb is_decimal cs then Some (dec_value cs acc) else None).
Proof.
  induction cs as [|c cs IH]; intros acc H; simpl.
  - reflexivity.
  - simpl in H. apply andb_prop in H. destruct H as [Hc Hcs].
    destruct (digit_char_cases c Hc) as [_ [_ [_ [H95 Hd]]]].
    rewrite Hd. destruct (is_decimal c); simpl.
    + now apply IH.
    + destruct (Z.eqb_spec (code c) 95); [contradiction|reflexivity].
Qed.

(** [int()] on a string of [isdigit] characters: its decimal value when
    they are all decimal digits, and [ValueError] otherwise. *)
Lemma py_int_digit_chars (cs : list ascii) :
  cs <> [] -> forallb is_digit_char cs = true ->
  py_int (string_of_list_ascii cs)
  = (if forallb is_decimal cs then Ok (dec_value cs 0) else Raise ValueError).
Proof.
  intros Hne H. unfold py_int.
  rewrite list_ascii_of_string_of_list_ascii.
  rewrite (lstrip_digit_chars cs H).
  rewrite lstrip_digit_chars.
  2: { rewrite forallb_forall in *. intros x Hx. apply H.
       now apply in_rev. }
  rewrite rev_involutive.
  destruct cs as [|c cs]; [contradiction|].
  simpl in H. apply andb_prop in H. destruct H as [Hc Hcs].
  destruct (digit_char_cases c Hc) as [_ [H43 [H45 [_ Hd]]]].
  destruct (Z.eqb_spec (code c) 43); [contradiction|].
  destruct (Z.eqb_spec (code c) 45); [contradiction|].
  unfold unsigned_value. rewrite Hd. simpl forallb.
  destruct (is_decimal c); simpl; [|reflexivity].
  rewrite digits_value_digit_chars by exact Hcs.
  unfold dec_value. simpl.
  destruct (forallb is_decimal cs); reflexivity.
Qed.

Lemma is_decimal_range (c : ascii) :
  is_decimal c = true -> 48 <= code c <= 57.
Proof. unfold is_decimal. lia. Qed.

Lemma bind_Ok {A B : Type} (r : result A) (k : A -> result B) (b : B) :
  bind r k = Ok b -> exists a, r = Ok a /\ k a = Ok b.
Proof. destruct r as [a|e]; simpl; [eauto|discriminate]. Qed.

Lemma decimal_or_error (cs : list ascii) (v : Z) :
  (if forallb is_decimal cs then Ok (dec_value cs 0) else Raise ValueError)
  = Ok v ->
  Forall (fun c => 48 <= code c <= 57) cs /\ v = dec_value cs 0.
Proof.
  destruct (forallb is_decimal cs) eqn:E; [|discriminate].
  intro H. inversion H. split; [|reflexivity].
  apply Forall_forall. intros c Hc. apply is_decimal_range.
  rewrite forallb_forall in E. now apply E.
Qed.

(** What [validate_timestamp] accepts: fourteen decimal digits whose
    fields are in range; [int()] of such a string is its decimal value. *)
Lemma validate_timestamp_accepts (s : string) :
  validate_timestamp s = Ok tt ->
  exists v, py_int s = Ok v /\ 20000101000000 <= v <= 20991231235959.
Proof.
  unfold validate_timestamp.
  destruct (Nat.eqb_spec (String.length s) 14) as [Hlen|]; [|discriminate].
  destruct (isdigit s) eqn:Hdig; [|discriminate].
  simpl negb. simpl orb. cbv iota.
  do 14 (destruct s as [|? s]; [discriminate|]).
  destruct s; [|discriminate]. clear Hlen.
  unfold isdigit in Hdig. simpl in Hdig.
  repeat (apply andb_prop in Hdig; destruct Hdig as [? Hdig]). clear Hdig.
  match goal with
  | |- context [String ?c0 (String ?c1 (String ?c2 (String ?c3
         (String ?c4 (String ?c5 (String ?c6 (String ?c7 (String ?c8
         (String ?c9 (String ?c10 (String ?c11 (String ?c12
         (String ?c13 EmptyString)))))))))))))] =>
      change (str_slice 0 4 _) with (string_of_list_ascii [c0; c1; c2; c3]);
      change (str_slice 4 6 _) with (string_of_list_ascii [c4; c5]);
      change (str_slice 6 8 _) with (string_of_list_ascii [c6; c7]);
      change (str_slice 8 10 _) with (string_of_list_ascii [c8; c9]);
      change (str_slice 10 12 _) with (string_of_list_ascii [c10; c11]);
      change (str_slice 12 14 _) with (string_of_list_ascii [c12; c13]);
      change (String c0 _) with
        (string_of_list_ascii
           [c0; c1; c2; c3; c4; c5; c6; c7; c8; c9; c10; c11; c12; c13])
  end.
  rewrite !py_int_digit_chars
    by (try discriminate; simpl; repeat (apply andb_true_intro; split);
        try assumption; reflexivity).
  intro Hv.
  do 6 (apply bind_Ok in Hv; destruct Hv as [? [Hd Hv]];
        apply decimal_or_error in Hd; destruct Hd as [? ?]; subst).
  repeat match goal with
         | H : Forall _ (_ :: _) |- _ => inversion H; subst; clear H
         | H : Forall _ [] |- _ => clear H
         end.
  repeat match type of Hv with
         | (if negb ?b then _ else _) = _ =>
             let E := fresh "R" in
             destruct b eqn:E; cbn [negb] in Hv; [|discriminate]
         end.
  clear Hv.
  unfold dec_value in *. cbn [fold_left] in *.
  match goal with
  | |- context [forallb is_decimal ?cs] =>
      assert (D : forallb is_decimal cs = true)
        by (cbn [forallb]; unfold is_decimal; lia);
      rewrite D
  end.
  eexists. split; [reflexivity|]. lia.
Qed.

(** C10. For every pair of timestamp strings that [validate_timestamp]
    accepts, the integers of both lie in [2^44, 2^45) and both are
    encoded as varints of exactly seven bytes, so [patch_file] never
    comes to the length-mismatch branch, whatever the file. *)
Theorem validated_varints_have_7_bytes (wrong_str correct_str : string) :
  validate_timestamp wrong_str = Ok tt ->
  validate_timestamp correct_str = Ok tt ->
  (exists wrong_ts correct_ts wrong_varint correct_varint,
     py_int wrong_str = Ok wrong_ts /\
     py_int correct_str = Ok correct_ts /\
     2 ^ 44 <= wrong_ts < 2 ^ 45 /\
     2 ^ 44 <= correct_ts < 2 ^ 45 /\
     _encode_varint wrong_ts = Ok wrong_varint /\
     _encode_varint correct_ts = Ok correct_varint /\
     List.length wrong_varint = 7%nat /\
     List.length correct_varint = 7%nat) /\
  forall file wl cl,
    plan_patches file wrong_str correct_str <> Ok (VarintMismatch wl cl).
Proof.
  intros Hw Hc.
  destruct (validate_timestamp_accepts _ Hw) as [vw [Ew Rw]].
  destruct (validate_timestamp_accepts _ Hc) as [vc [Ec Rc]].
  destruct (encode_varint_7 vw) as [bw [Ebw Lw]]; [lia|].
  destruct (encode_varint_7 vc) as [bc [Ebc Lc]]; [lia|].
  split.
  - exists vw, vc, bw, bc. repeat split; try assumption; lia.
  - intros file wl cl. unfold plan_patches. rewrite Ew, Ec. simpl bind.
    destruct (_parse_ts wrong_str); [|discriminate].
    destruct (_parse_ts correct_str); [|discriminate]. simpl bind.
    destruct (mp4_patches file _); [|discriminate]. simpl bind.
    rewrite Ebw, Ebc. simpl bind. unfold len. rewrite Lw, Lc.
    simpl negb. cbv iota.
    destruct (gps_patches file _ _); [|discriminate]. simpl bind.
    destruct (encode_ascii _); [|discriminate]. simpl bind.
    destruct (encode_ascii _); discriminate.
Qed.

Lemma validated_varints_have_7_bytes_witness :
  (exists wrong_ts correct_ts wrong_varint correct_varint,
     py_int "20260103194656" = Ok wrong_ts /\
     py_int "20260215143800" = Ok correct_ts /\
     2 ^ 44 <= wrong_ts < 2 ^ 45 /\
     2 ^ 44 <= correct_ts < 2 ^ 45 /\
     _encode_varint wrong_ts = Ok wrong_varint /\
     _encode_varint correct_ts = Ok correct_varint /\
     List.length wrong_varint = 7%nat /\
     List.length correct_varint = 7%nat) /\
  forall file wl cl,
    plan_patches file "20260103194656" "20260215143800"
    <> Ok (VarintMismatch wl cl).
Proof.
  apply (validated_varints_have_7_bytes "20260103194656" "20260215143800");
    reflexivity.
Defined.

(** ** The chunked scanner *)

Lemma drop_cons_pos {A : Type} (n : Z) (x : A) (l : list A) :
  0 < n -> drop n (x :: l) = drop (n - 1) l.
Proof. intro H. simpl. destruct (Z.leb_spec n 0); [lia|reflexivity]. Qed.

Lemma take_cons_pos {A : Type} (n : Z) (x : A) (l : list A) :
  0 < n -> take n (x :: l) = x :: take (n - 1) l.
Proof. intro H. simpl. destruct (Z.leb_spec n 0); [lia|reflexivity]. Qed.

Lemma drop_app_ge {A : Type} (i : Z) (pre l : list A) :
  0 <= i -> drop (len pre + i) (pre ++ l) = drop i l.
Proof.
  intro H. unfold len. rewrite !drop_skipn, skipn_app.
  rewrite skipn_all2 by lia. simpl. f_equal. lia.
Qed.

Lemma drop_app_le {A : Type} (i : Z) (l post : list A) :
  i <= len l -> drop i (l ++ post) = drop i l ++ post.
Proof.
  unfold len. intro H. rewrite !drop_skipn, skipn_app.
  replace (Z.to_nat i - List.length l)%nat with O by lia. reflexivity.
Qed.

Lemma take_app_le {A : Type} (n : Z) (l post : list A) :
  n <= len l -> take n (l ++ post) = take n l.
Proof.
  unfold len. intro H. rewrite !take_firstn, firstn_app.
  replace (Z.to_nat n - List.length l)%nat with O by lia.
  simpl. apply app_nil_r.
Qed.

Lemma byte_eqb_eq (x y : byte) : Byte.eqb x y = true <-> x = y.
Proof. split; [apply Byte.byte_dec_bl | apply Byte.byte_dec_lb]. Qed.

Lemma bytes_eqb_eq (a : bytes) : forall b, bytes_eqb a b = true <-> a = b.
Proof.
  induction a as [|x a IH]; intros [|y b]; simpl;
    try (split; [discriminate|discriminate]); try tauto.
  rewrite andb_true_iff, byte_eqb_eq, IH. split.
  - intros [-> ->]. reflexivity.
  - intro H. inversion H. tauto.
Qed.

Lemma starts_with_take (pat : bytes) :
  forall data, starts_with data pat = true <-> take (len pat) data = pat.
Proof.
  induction pat as [|p pat IH]; intros data.
  - simpl. destruct data; simpl; tauto.
  - destruct data as [|d data].
    + simpl. split; discriminate.
    + rewrite take_cons_pos
        by (rewrite len_cons; pose proof (len_nonneg pat); lia).
      rewrite len_cons. replace (1 + len pat - 1) with (len pat) by lia.
      simpl. rewrite andb_true_iff, byte_eqb_eq, IH. split.
      * intros [-> ->]. reflexivity.
      * intro H. inversion H as [[H1 H2]]. rewrite H2. tauto.
Qed.

Lemma occurs_at_starts_with (data pat : bytes) (o : Z) :
  occurs_at data pat o <->
  0 <= o <= len data /\ starts_with (drop o data) pat = true.
Proof.
  unfold occurs_at, read_at. rewrite starts_with_take. split.
  - intros [H0 [H1 H2]]. pose proof (len_nonneg pat). repeat split; auto; lia.
  - intros [[H0 H1] H2]. repeat split; auto.
    assert (E : len (take (len pat) (drop o data)) = len pat) by now rewrite H2.
    rewrite len_take, len_drop in E. pose proof (len_nonneg pat). lia.
Qed.

Lemma find_from_spec (sub rest : bytes) :
  forall idx,
    (find_from rest sub idx = -1 /\
     forall k, 0 <= k <= len rest -> starts_with (drop k rest) sub = false)
    \/
    (idx <= find_from rest sub idx <= idx + len rest /\
     starts_with (drop (find_from rest sub idx - idx) rest) sub = true /\
     forall k, 0 <= k < find_from rest sub idx - idx ->
               starts_with (drop k rest) sub = false).
Proof.
  induction rest as [|x rest IH]; intro idx.
  - cbn [find_from]. destruct (starts_with [] sub) eqn:E.
    + right. pose proof (len_nonneg (@nil byte)).
      replace (idx - idx) with 0 by lia. rewrite drop_0 by lia.
      repeat split; try lia. exact E.
    + left. split; [reflexivity|]. intros k Hk.
      now rewrite drop_0 by (unfold len in Hk; simpl in Hk; lia).
  - cbn [find_from]. destruct (starts_with (x :: rest) sub) eqn:E.
    + right. pose proof (len_nonneg (x :: rest)).
      replace (idx - idx) with 0 by lia. rewrite drop_0 by lia.
      repeat split; try lia. exact E.
    + rewrite len_cons. pose proof (len_nonneg rest).
      destruct (IH (idx + 1)) as [[Hr Hnone]|[Hr [Hocc Hnone]]].
      * left. split; [exact Hr|]. intros k Hk.
        destruct (Z.eq_dec k 0) as [->|Hk0].
        -- now rewrite drop_0 by lia.
        -- rewrite drop_cons_pos by lia. apply Hnone. lia.
      * right. split; [lia|]. split.
        -- rewrite drop_cons_pos by lia.
           replace (find_from rest sub (idx + 1) - idx - 1)
             with (find_from rest sub (idx + 1) - (idx + 1)) by lia.
           exact Hocc.
        -- intros k Hk. destruct (Z.eq_dec k 0) as [->|Hk0].
           ++ now rewrite drop_0 by lia.
           ++ rewrite drop_cons_pos by lia. apply Hnone. lia.
Qed.

(** [bytes.find]: either [-1] and there is no occurrence from [start]
    on, or the first occurrence from [start] on. *)
Lemma bytes_find_spec (data sub : bytes) (start : Z) :
  0 <= start ->
  (bytes_find data sub start = -1 /\
   forall o, start <= o -> ~ occurs_at data sub o)
  \/
  (start <= bytes_find data sub start /\
   occurs_at data sub (bytes_find data sub start) /\
   forall o, start <= o < bytes_find data sub start -> ~ occurs_at data sub o).
Proof.
  intro Hs. unfold bytes_find.
  destruct (Z.ltb_spec (len data) start) as [Hlt|Hle].
  - left. split; [reflexivity|]. intros o Ho [_ [Hb _]].
    pose proof (len_nonneg sub). lia.
  - assert (Hlen : len (drop start data) = len data - start)
      by (rewrite len_drop; lia).
    destruct (find_from_spec sub (drop start data) start)
      as [[Hr Hnone]|[Hr [Hocc Hnone]]].
    + left. split; [exact Hr|]. intros o Ho Hoc.
      apply occurs_at_starts_with in Hoc. destruct Hoc as [Hb Hsw].
      specialize (Hnone (o - start)). rewrite drop_drop in Hnone by lia.
      replace (start + (o - start)) with o in Hnone by lia.
      rewrite Hnone in Hsw by lia. discriminate.
    + right. rewrite drop_drop in Hocc by lia.
      replace (start + (find_from (drop start data) sub start - start))
        with (find_from (drop start data) sub start) in Hocc by lia.
      split; [lia|]. split.
      * apply occurs_at_starts_with. split; [lia|exact Hocc].
      * intros o Ho Hoc. apply occurs_at_starts_with in Hoc.
        destruct Hoc as [Hb Hsw].
        specialize (Hnone (o - start)). rewrite drop_drop in Hnone by lia.
        replace (start + (o - start)) with o in Hnone by lia.
        rewrite Hnone in Hsw by lia. discriminate.
Qed.

(** The inner loop: with fuel for every index left, it reports exactly
    the occurrences from [pos] on, in strictly ascending order. *)
Lemma find_hits_spec (data pat : bytes) (base : Z) (fuel : nat) :
  forall pos, 0 <= pos -> len data - pos + 2 <= Z.of_nat fuel ->
    (forall x, In x (find_hits fuel data pat base pos) <->
               exists o, x = base + o /\ pos <= o /\ occurs_at data pat o)
    /\ StronglySorted Z.lt (find_hits fuel data pat base pos).
Proof.
  induction fuel as [|fuel IH]; intros pos Hpos Hfuel.
  - simpl. split; [|constructor]. intro x. split; [contradiction|].
    intros [o [_ [Ho [_ [Hb _]]]]]. pose proof (len_nonneg pat). lia.
  - cbn [find_hits].
    destruct (bytes_find_spec data pat pos Hpos)
      as [[Hr Hnone]|[Hr [Hocc Hnone]]].
    + rewrite Hr. simpl. split; [|constructor].
      intro x. split; [contradiction|].
      intros [o [_ [Ho Hoc]]]. now apply (Hnone o).
    + set (r := bytes_find data pat pos) in *.
      destruct (Z.eqb_spec r (-1)) as [E|_]; [lia|].
      destruct (IH (r + 1)) as [IHin IHsorted]; [lia|lia|].
      split.
      * intro x. simpl. rewrite IHin. split.
        -- intros [<-|[o [-> [Ho Hoc]]]].
           ++ exists r. auto.
           ++ exists o. split; [reflexivity|]. split; [lia|exact Hoc].
        -- intros [o [-> [Ho Hoc]]].
           destruct (Z.eq_dec o r) as [->|Hne]; [now left|].
           right. exists o. split; [reflexivity|]. split; [|exact Hoc].
           destruct (Z.lt_ge_cases o r) as [Hlt|Hge]; [|lia].
           exfalso. apply (Hnone o); [lia|exact Hoc].
      * constructor; [exact IHsorted|].
        apply Forall_forall. intros x Hx. apply IHin in Hx.
        destruct Hx as [o [-> [Ho _]]]. lia.
Qed.

Lemma read_at_inside (pre mid post : bytes) (i n : Z) :
  0 <= i -> 0 <= n -> i + n <= len mid ->
  read_at (pre ++ mid ++ post) (len pre + i) n = read_at mid i n.
Proof.
  intros Hi Hn Hin. unfold read_at.
  rewrite drop_app_ge by lia. rewrite drop_app_le by lia.
  apply take_app_le. rewrite len_drop. lia.
Qed.

(** An occurrence inside a segment of the file is an occurrence in the
    file, and conversely. *)
Lemma occurs_at_inside (pre mid post pat : bytes) (i : Z) :
  0 <= i -> i + len pat <= len mid ->
  (occurs_at (pre ++ mid ++ post) pat (len pre + i) <-> occurs_at mid pat i).
Proof.
  intros Hi Hin. unfold occurs_at.
  pose proof (len_nonneg pat) as Lpat. pose proof (len_nonneg pre) as Lpre.
  pose proof (len_nonneg post) as Lpost.
  rewrite read_at_inside by lia. rewrite !len_app.
  split; intros [H1 [H2 H3]]; repeat split; auto; lia.
Qed.

Lemma StronglySorted_app (l1 l2 : list Z) :
  StronglySorted Z.le l1 -> StronglySorted Z.le l2 ->
  (forall x y, In x l1 -> In y l2 -> x <= y) ->
  StronglySorted Z.le (l1 ++ l2).
Proof.
  induction l1 as [|a l1 IH]; intros H1 H2 Hle; simpl; [exact H2|].
  apply StronglySorted_inv in H1. destruct H1 as [H1 Ha].
  constructor.
  - apply IH; auto. intros x y Hx Hy. apply Hle; simpl; auto.
  - apply Forall_app. split; [exact Ha|].
    apply Forall_forall. intros y Hy. apply Hle; simpl; auto.
Qed.

Lemma StronglySorted_lt_le (l : list Z) :
  StronglySorted Z.lt l -> StronglySorted Z.le l.
Proof.
  induction 1 as [|a l Hs IH Ha]; constructor; [exact IH|].
  eapply Forall_impl; [|exact Ha]. intros; lia.
Qed.

Lemma take_nil_inv {A : Type} (n : Z) (l : list A) :
  0 < n -> take n l = [] -> l = [].
Proof.
  intros Hn H. destruct l as [|x l]; [reflexivity|].
  rewrite take_cons_pos in H by lia. discriminate.
Qed.

Lemma sorted_lt_NoDup (l : list Z) : StronglySorted Z.lt l -> NoDup l.
Proof.
  induction 1 as [|a l Hs IH Ha]; constructor; [|exact IH].
  intro Hin. rewrite Forall_forall in Ha. specialize (Ha a Hin). lia.
Qed.

Section Scanner.

Variable chunk_size : Z.
Variable pattern : bytes.
Hypothesis chunk_size_pos : 0 < chunk_size.
Hypothesis pattern_nonempty : pattern <> [].

Local Abbreviation overlap := (len pattern).

Lemma overlap_pos : 0 < overlap.
Proof.
  unfold len. destruct pattern; [contradiction|]. simpl. lia.
Qed.

(** What is kept of a chunk for the next round is its end. *)
Lemma prev_tail_drop (chunk : bytes) :
  (if overlap <=? len chunk then last_bytes overlap chunk else chunk)
  = drop (Z.max 0 (len chunk - overlap)) chunk.
Proof.
  pose proof overlap_pos. unfold last_bytes.
  destruct (Z.leb_spec overlap (len chunk)).
  - destruct (Z.eqb_spec overlap 0); [lia|]. f_equal. lia.
  - now rewrite drop_0 by lia.
Qed.

(** The state of the outer loop: [d0 ++ prev_tail] has been read,
    [rest] has not.  The remaining rounds report only occurrences,
    none before [prev_tail], in ascending order; and when the pattern
    fits a window they report every occurrence that reaches into
    [rest]. *)
Lemma scan_chunks_spec (fuel : nat) :
  forall d0 prev_tail rest,
    (List.length rest < fuel)%nat ->
    (forall x,
        In x (scan_chunks chunk_size fuel pattern rest
                          (len d0 + len prev_tail) prev_tail) ->
        occurs_at (d0 ++ prev_tail ++ rest) pattern x /\ len d0 <= x)
    /\ StronglySorted Z.le
         (scan_chunks chunk_size fuel pattern rest
                      (len d0 + len prev_tail) prev_tail)
    /\ (overlap <= chunk_size ->
        (rest <> [] ->
         (d0 = [] /\ prev_tail = []) \/ len prev_tail = overlap) ->
        forall o,
          occurs_at (d0 ++ prev_tail ++ rest) pattern o ->
          len d0 + len prev_tail < o + overlap ->
          In o (scan_chunks chunk_size fuel pattern rest
                            (len d0 + len prev_tail) prev_tail)).
Proof.
  pose proof overlap_pos as Hov.
  induction fuel as [|fuel IH]; intros d0 prev_tail rest Hfuel; [lia|].
  cbn [scan_chunks].
  destruct (take chunk_size rest) as [|b c] eqn:Echunk.
  - apply take_nil_inv in Echunk; [|exact chunk_size_pos]. subst rest.
    split; [intros x []|]. split; [constructor|].
    intros _ _ o [_ [Hb _]] Ho.
    rewrite !len_app in Hb. change (len (@nil byte)) with 0 in Hb. lia.
  - set (chunk := b :: c) in *.
    assert (Hrest : rest = chunk ++ drop chunk_size rest)
      by (rewrite <- Echunk; symmetry; apply take_drop).
    set (rest' := drop chunk_size rest) in *.
    assert (Hclen : 0 < len chunk)
      by (unfold chunk; rewrite len_cons; pose proof (len_nonneg c); lia).
    rewrite prev_tail_drop.
    set (k := Z.max 0 (len chunk - overlap)).
    assert (Hk : 0 <= k <= len chunk) by lia.
    assert (Hsplit : chunk = take k chunk ++ drop k chunk)
      by (symmetry; apply take_drop).
    assert (Hlk : len (take k chunk) = k) by (rewrite len_take; lia).
    assert (Hlt : len (drop k chunk) = len chunk - k)
      by (rewrite len_drop; lia).
    replace (len d0 + len prev_tail - len prev_tail) with (len d0) by lia.
    replace (len d0 + len prev_tail + len chunk)
      with (len (d0 ++ prev_tail ++ take k chunk) + len (drop k chunk))
      by (rewrite !len_app; lia).
    assert (Hfile : d0 ++ prev_tail ++ rest
                    = (d0 ++ prev_tail ++ take k chunk)
                        ++ drop k chunk ++ rest').
    { rewrite Hrest at 1. rewrite Hsplit at 1.
      now rewrite <- !app_assoc. }
    assert (Hfile2 : d0 ++ prev_tail ++ rest
                     = d0 ++ (prev_tail ++ chunk) ++ rest').
    { rewrite Hrest at 1. now rewrite <- !app_assoc. }
    assert (Hfuel' : (List.length rest' < fuel)%nat).
    { assert (E : len rest = len chunk + len rest')
        by (rewrite Hrest at 1; apply len_app).
      unfold len in E, Hclen. lia. }
    destruct (IH (d0 ++ prev_tail ++ take k chunk) (drop k chunk) rest'
                 Hfuel') as [IHsound [IHsorted IHcomplete]].
    rewrite <- Hfile in IHsound, IHcomplete.
    set (sd := prev_tail ++ chunk) in *.
    destruct (find_hits_spec sd pattern (len d0)
                (S (S (List.length sd))) 0) as [Hin Hsorted];
      [lia | unfold len; lia |].
    assert (Hfound : forall x,
               In x (find_hits (S (S (List.length sd))) sd pattern
                               (len d0) 0) ->
               occurs_at (d0 ++ prev_tail ++ rest) pattern x /\
               len d0 <= x /\ x + overlap <= len d0 + len sd).
    { intros x Hx. apply Hin in Hx. destruct Hx as [o [-> [Ho Hoc]]].
      assert (Hb : o + overlap <= len sd) by (destruct Hoc; tauto).
      split; [|lia]. rewrite Hfile2.
      now apply occurs_at_inside. }
    assert (Hsd : len sd = len prev_tail + len chunk)
      by (unfold sd; apply len_app).
    split; [|split].
    + intros x Hx. apply in_app_or in Hx. destruct Hx as [Hx|Hx].
      * apply Hfound in Hx. tauto.
      * apply IHsound in Hx. destruct Hx as [Hoc Hge].
        split; [exact Hoc|]. rewrite len_app in Hge.
        pose proof (len_nonneg (prev_tail ++ take k chunk)). lia.
    + apply StronglySorted_app.
      * now apply StronglySorted_lt_le.
      * exact IHsorted.
      * intros x y Hx Hy. apply Hfound in Hx. apply IHsound in Hy.
        destruct Hx as [_ [_ Hx]]. destruct Hy as [_ Hy].
        rewrite !len_app in Hy. lia.
    + intros Hfit Hinv o Hoc Ho. apply in_or_app.
      destruct (Z.le_gt_cases (o + overlap) (len d0 + len sd))
        as [Hhere|Hlater].
      * left. apply Hin. exists (o - len d0).
        assert (Hge : len d0 <= o).
        { destruct Hinv as [[-> _]|Hpt].
          - rewrite Hrest. unfold chunk. discriminate.
          - change (len (@nil byte)) with 0. destruct Hoc; lia.
          - lia. }
        split; [lia|]. split; [lia|].
        rewrite Hfile2 in Hoc.
        replace o with (len d0 + (o - len d0)) in Hoc by lia.
        apply occurs_at_inside in Hoc; [exact Hoc|lia|lia].
      * right. apply IHcomplete.
        -- exact Hfit.
        -- intro Hne. right. rewrite Hlt.
           assert (Hfull : len chunk = chunk_size).
           { assert (E : len chunk = Z.max 0 (Z.min chunk_size (len rest)))
               by (rewrite <- Echunk; apply len_take).
             assert (E2 : len rest' = Z.max 0 (len rest - Z.max 0 chunk_size))
               by apply len_drop.
             assert (0 < len rest').
             { unfold len. destruct rest'; [contradiction|]. simpl. lia. }
             lia. }
           lia.
        -- exact Hoc.
        -- rewrite !len_app. lia.
Qed.

(** The scanner as a whole, for any window size. *)
Lemma find_pattern_chunked_spec (file : bytes) :
  (forall x, In x (find_pattern_chunked chunk_size file pattern) ->
             occurs_at file pattern x)
  /\ StronglySorted Z.le (find_pattern_chunked chunk_size file pattern)
  /\ (overlap <= chunk_size ->
      forall o, occurs_at file pattern o ->
                In o (find_pattern_chunked chunk_size file pattern)).
Proof.
  unfold find_pattern_chunked.
  destruct (scan_chunks_spec (S (List.length file)) [] [] file)
    as [Hsound [Hsorted Hcomplete]]; [lia|].
  change (len (@nil byte) + len (@nil byte)) with 0 in *.
  simpl app in *.
  split; [|split].
  - intros x Hx. now apply Hsound.
  - exact Hsorted.
  - intros Hfit o Hoc. apply Hcomplete; auto.
    destruct Hoc. pose proof overlap_pos. lia.
Qed.

(** How often the remaining rounds of the outer loop report an offset.
    [d0 ++ prev_tail] has been read and [rest] has not.  An occurrence
    that reaches into [rest] is reported once, or twice when it ends
    where a window ends and more data follows; the occurrence that is
    the kept tail itself is reported once more; nothing else is
    reported. *)
Lemma scan_chunks_count (fuel : nat) :
  overlap <= chunk_size ->
  forall d0 prev_tail rest,
    (List.length rest < fuel)%nat ->
    (rest <> [] -> (d0 = [] /\ prev_tail = []) \/ len prev_tail = overlap) ->
    forall o,
      occurs_at (d0 ++ prev_tail ++ rest) pattern o ->
      (len d0 + len prev_tail < o + overlap ->
       count_occ Z.eq_dec
         (scan_chunks chunk_size fuel pattern rest
                      (len d0 + len prev_tail) prev_tail) o
       = if ((o + overlap - (len d0 + len prev_tail)) mod chunk_size =? 0)
            && (o + overlap <? len (d0 ++ prev_tail ++ rest))
         then 2%nat else 1%nat)
      /\ (o + overlap = len d0 + len prev_tail -> len d0 <= o ->
          rest <> [] ->
          count_occ Z.eq_dec
            (scan_chunks chunk_size fuel pattern rest
                         (len d0 + len prev_tail) prev_tail) o
          = 1%nat).
Proof.
  intro pattern_fits. pose proof overlap_pos as Hov.
  induction fuel as [|fuel IH]; intros d0 prev_tail rest Hfuel Hinv o Hoc;
    [lia|].
  cbn [scan_chunks].
  destruct (take chunk_size rest) as [|b c] eqn:Echunk.
  { apply take_nil_inv in Echunk; [|exact chunk_size_pos]. subst rest.
    split.
    - intro Ho. destruct Hoc as [_ [Hb _]].
      rewrite !len_app in Hb. change (len (@nil byte)) with 0 in Hb. lia.
    - intros _ _ Hne. now contradiction Hne. }
  set (chunk := b :: c) in *.
  assert (Hrest : rest = chunk ++ drop chunk_size rest)
    by (rewrite <- Echunk; symmetry; apply take_drop).
  set (rest' := drop chunk_size rest) in *.
  assert (Hclen : 0 < len chunk)
    by (unfold chunk; rewrite len_cons; pose proof (len_nonneg c); lia).
  assert (Hcmax : len chunk <= chunk_size).
  { assert (E : len chunk = Z.max 0 (Z.min chunk_size (len rest)))
      by (rewrite <- Echunk; apply len_take).
    lia. }
  assert (Hfull : rest' <> [] -> len chunk = chunk_size).
  { intro Hne.
    assert (E : len chunk = Z.max 0 (Z.min chunk_size (len rest)))
      by (rewrite <- Echunk; apply len_take).
    assert (E2 : len rest' = Z.max 0 (len rest - Z.max 0 chunk_size))
      by apply len_drop.
    assert (0 < len rest').
    { unfold len. destruct rest'; [contradiction|]. simpl. lia. }
    lia. }
  assert (Hrne : rest <> []) by (rewrite Hrest; unfold chunk; discriminate).
  specialize (Hinv Hrne).
  rewrite prev_tail_drop.
  set (k := Z.max 0 (len chunk - overlap)).
  assert (Hk : 0 <= k <= len chunk) by lia.
  assert (Hsplit : chunk = take k chunk ++ drop k chunk)
    by (symmetry; apply take_drop).
  assert (Hlk : len (take k chunk) = k) by (rewrite len_take; lia).
  assert (Hlt : len (drop k chunk) = len chunk - k)
    by (rewrite len_drop; lia).
  replace (len d0 + len prev_tail - len prev_tail) with (len d0) by lia.
  set (d0' := d0 ++ prev_tail ++ take k chunk).
  assert (Hd0' : len d0' = len d0 + len prev_tail + k)
    by (unfold d0'; rewrite !len_app; lia).
  replace (len d0 + len prev_tail + len chunk)
    with (len d0' + len (drop k chunk)) by lia.
  assert (Hfile : d0 ++ prev_tail ++ rest
                  = d0' ++ drop k chunk ++ rest').
  { unfold d0'. rewrite Hrest at 1. rewrite Hsplit at 1.
    now rewrite <- !app_assoc. }
  assert (Hfile2 : d0 ++ prev_tail ++ rest
                   = d0 ++ (prev_tail ++ chunk) ++ rest').
  { rewrite Hrest at 1. now rewrite <- !app_assoc. }
  assert (Hflen : len (d0 ++ prev_tail ++ rest)
                  = len d0 + len prev_tail + len chunk + len rest').
  { rewrite Hfile2, !len_app. lia. }
  assert (Hfuel' : (List.length rest' < fuel)%nat).
  { assert (E : len rest = len chunk + len rest')
      by (rewrite Hrest at 1; apply len_app).
    unfold len in E, Hclen. lia. }
  assert (Hinv' : rest' <> [] ->
                  (d0' = [] /\ drop k chunk = [])
                  \/ len (drop k chunk) = overlap).
  { intro Hne. right. rewrite Hlt. specialize (Hfull Hne). lia. }
  pose proof (IH d0' (drop k chunk) rest' Hfuel' Hinv' o) as IHo.
  rewrite <- Hfile in IHo. specialize (IHo Hoc).
  destruct IHo as [IH1 IH2].
  destruct (scan_chunks_spec fuel d0' (drop k chunk) rest' Hfuel')
    as [IHsound _].
  rewrite <- Hfile in IHsound.
  set (recur := scan_chunks chunk_size fuel pattern rest'
                            (len d0' + len (drop k chunk)) (drop k chunk))
    in *.
  set (sd := prev_tail ++ chunk) in *.
  assert (Hsd : len sd = len prev_tail + len chunk)
    by (unfold sd; apply len_app).
  destruct (find_hits_spec sd pattern (len d0)
              (S (S (List.length sd))) 0) as [Hin Hsorted];
    [lia | unfold len; lia |].
  set (found := find_hits (S (S (List.length sd))) sd pattern (len d0) 0)
    in *.
  assert (Hnd : NoDup found) by now apply sorted_lt_NoDup.
  assert (Hfound : In o found <->
                   len d0 <= o /\ o + overlap <= len d0 + len sd).
  { rewrite Hin. split.
    - intros [o' [-> [Ho' Hoc']]]. destruct Hoc' as [_ [Hb _]]. lia.
    - intros [Hge Hle]. exists (o - len d0). split; [lia|]. split; [lia|].
      pose proof Hoc as Hoc2. rewrite Hfile2 in Hoc2.
      replace o with (len d0 + (o - len d0)) in Hoc2 by lia.
      apply occurs_at_inside in Hoc2; [exact Hoc2|lia|lia]. }
  assert (Hone : In o found -> count_occ Z.eq_dec found o = 1%nat)
    by (apply NoDup_count_occ'; exact Hnd).
  assert (Hzero : ~ In o found -> count_occ Z.eq_dec found o = 0%nat)
    by (apply count_occ_not_In).
  assert (Hrzero : ~ (len d0' <= o) -> count_occ Z.eq_dec recur o = 0%nat).
  { intro Hlt'. apply count_occ_not_In. intro Hx. apply IHsound in Hx.
    tauto. }
  rewrite count_occ_app.
  assert (Hge : len d0 + len prev_tail < o + overlap \/
                (o + overlap = len d0 + len prev_tail /\ len d0 <= o) ->
                len d0 <= o).
  { intros [Ho|[_ Ho]]; [|exact Ho].
    destruct Hinv as [[-> _]|Hpt].
    - change (len (@nil byte)) with 0. destruct Hoc; lia.
    - lia. }
  split.
  - intro Ho.
    destruct (Z.le_gt_cases (o + overlap) (len d0 + len sd)) as [Hhere|Hlater].
    + (* reported by this round *)
      rewrite Hone by (apply Hfound; split; [apply Hge; now left|lia]).
      destruct (Z.eq_dec (o + overlap) (len d0 + len sd)) as [Hend|Hnend].
      * (* it ends where the chunk ends *)
        destruct rest' as [|r rs] eqn:Er.
        -- (* no more data: the next round reads nothing *)
           assert (Hr0 : count_occ Z.eq_dec recur o = 0%nat).
           { unfold recur. destruct fuel as [|fuel']; [reflexivity|].
             reflexivity. }
           rewrite Hr0. change (len (@nil byte)) with 0 in Hflen.
           replace (o + overlap <? len (d0 ++ prev_tail ++ rest))
             with false by (symmetry; apply Z.ltb_ge; lia).
           now rewrite andb_false_r.
        -- assert (Hne : rest' <> []) by (rewrite Er; discriminate).
           rewrite <- Er in *. specialize (Hfull Hne).
           rewrite IH2; [| lia | lia | exact Hne].
           replace (o + overlap - (len d0 + len prev_tail))
             with chunk_size by lia.
           rewrite Z_mod_same_full. cbn [Z.eqb andb].
           assert (0 < len rest').
           { unfold len. destruct rest'; [contradiction|]. simpl. lia. }
           replace (o + overlap <? len (d0 ++ prev_tail ++ rest))
             with true by (symmetry; apply Z.ltb_lt; lia).
           reflexivity.
      * (* it ends before the chunk does *)
        assert (Hr0 : count_occ Z.eq_dec recur o = 0%nat).
        { apply count_occ_not_In. intro Hx. apply IHsound in Hx.
          destruct Hx as [_ Hx]. lia. }
        rewrite Hr0.
        assert (Hmod : (o + overlap - (len d0 + len prev_tail))
                         mod chunk_size <> 0).
        { rewrite Z.mod_small by lia. lia. }
        apply Z.eqb_neq in Hmod. rewrite Hmod. reflexivity.
    + (* reported by a later round *)
      rewrite Hzero by (rewrite Hfound; lia).
      assert (Hne : rest' <> []).
      { intro E. rewrite E in Hflen. change (len (@nil byte)) with 0 in Hflen.
        destruct Hoc as [_ [Hb _]]. lia. }
      specialize (Hfull Hne).
      rewrite IH1 by lia. cbn [Nat.add].
      replace (o + overlap - (len d0' + len (drop k chunk)))
        with (o + overlap - (len d0 + len prev_tail) - 1 * chunk_size)
        by lia.
      unfold Z.sub at 1. rewrite <- Z.mul_opp_l, Z.mod_add by lia.
      reflexivity.
  - intros Ho Hd0 _.
    rewrite Hone by (apply Hfound; lia).
    assert (Hr0 : count_occ Z.eq_dec recur o = 0%nat).
    { apply Hrzero. lia. }
    now rewrite Hr0.
Qed.

(** How often the scanner as a whole reports an offset. *)
Lemma find_pattern_chunked_count (file : bytes) :
  overlap <= chunk_size ->
  (forall o, ~ occurs_at file pattern o ->
             count_occ Z.eq_dec
               (find_pattern_chunked chunk_size file pattern) o = 0%nat)
  /\ (forall o, occurs_at file pattern o ->
                count_occ Z.eq_dec
                  (find_pattern_chunked chunk_size file pattern) o
                = if ((o + overlap) mod chunk_size =? 0)
                     && (o + overlap <? len file)
                  then 2%nat else 1%nat).
Proof.
  intro Hfit. split; intros o Ho.
  - apply count_occ_not_In. intro Hin. apply Ho.
    now apply find_pattern_chunked_spec.
  - unfold find_pattern_chunked.
    destruct (scan_chunks_count (S (List.length file)) Hfit [] [] file)
      with (o := o) as [Hcount _]; [lia|now left|exact Ho|].
    change (len (@nil byte) + len (@nil byte)) with 0 in Hcount.
    cbn [app] in Hcount. rewrite Z.sub_0_r in Hcount.
    apply Hcount. destruct Ho. pose proof overlap_pos. lia.
Qed.

End Scanner.

(** Any fuel above the number of unread bytes gives the same scan: the
    outer loop always reaches its [break]. *)
Lemma scan_chunks_fuel (chunk_size : Z) (pattern : bytes) :
  0 < chunk_size ->
  forall fuel1 fuel2 rest file_pos prev_tail,
    (List.length rest < fuel1)%nat -> (List.length rest < fuel2)%nat ->
    scan_chunks chunk_size fuel1 pattern rest file_pos prev_tail
    = scan_chunks chunk_size fuel2 pattern rest file_pos prev_tail.
Proof.
  intros Hc. induction fuel1 as [|fuel1 IH];
    intros fuel2 rest file_pos prev_tail H1 H2; [lia|].
  destruct fuel2 as [|fuel2]; [lia|]. cbn [scan_chunks].
  destruct (take chunk_size rest) as [|b c] eqn:E; [reflexivity|].
  f_equal.
  assert (Hlen : len rest = len (b :: c) + len (drop chunk_size rest)).
  { rewrite <- E, <- len_app. now rewrite take_drop. }
  rewrite len_cons in Hlen. unfold len in Hlen.
  apply IH; lia.
Qed.

Lemma scan_chunks_unfold (chunk_size : Z) (pattern rest : bytes)
                         (fuel : nat) (file_pos : Z) (prev_tail : bytes) :
  0 < chunk_size -> (List.length rest < fuel)%nat ->
  scan_chunks chunk_size fuel pattern rest file_pos prev_tail
  = match take chunk_size rest with
    | [] => []
    | _ :: _ =>
        let chunk := take chunk_size rest in
        let search_data := prev_tail ++ chunk in
        find_hits (S (S (List.length search_data))) search_data pattern
                  (file_pos - len prev_tail) 0
        ++ scan_chunks chunk_size
             (List.length (drop chunk_size rest) + 1) pattern
             (drop chunk_size rest) (file_pos + len chunk)
             (if len pattern <=? len chunk
              then last_bytes (len pattern) chunk else chunk)
    end.
Proof.
  intros Hc Hfuel. destruct fuel as [|fuel]; [lia|]. cbn [scan_chunks].
  destruct (take chunk_size rest) as [|b c] eqn:E; [reflexivity|].
  cbv zeta. f_equal.
  assert (Hlen : len rest = len (b :: c) + len (drop chunk_size rest)).
  { rewrite <- E, <- len_app. now rewrite take_drop. }
  rewrite len_cons in Hlen. unfold len in Hlen.
  apply scan_chunks_fuel; lia.
Qed.

Lemma sorted_singleton (l : list Z) (a : Z) :
  StronglySorted Z.lt l -> (forall x, In x l <-> x = a) -> l = [a].
Proof.
  intros Hs Hin. destruct l as [|x l].
  - exfalso. apply (Hin a). reflexivity.
  - assert (x = a) by (apply Hin; now left). subst x.
    destruct l as [|y l]; [reflexivity|].
    apply StronglySorted_inv in Hs. destruct Hs as [_ Hall].
    inversion Hall as [|? ? Hlt _]; subst.
    assert (y = a) by (apply Hin; right; now left). lia.
Qed.

(** A window that ends with the pattern, followed by one more byte:
    the occurrence at the end of the first window is reported by the
    first round and again, from the kept tail, by the second. *)
Lemma boundary_occurrence_twice (chunk_size : Z) :
  0 < chunk_size ->
  find_pattern_chunked chunk_size
    (repeat x00 (Z.to_nat (chunk_size - 1)) ++ [x01; x00]) [x01]
  = [chunk_size - 1; chunk_size - 1].
Proof.
  intro Hc. unfold find_pattern_chunked.
  set (zeros := repeat x00 (Z.to_nat (chunk_size - 1))).
  assert (Hz : len zeros = chunk_size - 1).
  { unfold len, zeros. rewrite repeat_length. lia. }
  replace (zeros ++ [x01; x00]) with ((zeros ++ [x01]) ++ [x00])
    by now rewrite <- app_assoc.
  assert (Hw : len (zeros ++ [x01]) = chunk_size).
  { rewrite len_app, Hz. change (len [x01]) with 1. lia. }
  assert (Htake : take chunk_size ((zeros ++ [x01]) ++ [x00])
                  = zeros ++ [x01]).
  { rewrite <- Hw at 1. apply take_app_exact. }
  assert (Hdrop : drop chunk_size ((zeros ++ [x01]) ++ [x00]) = [x00]).
  { rewrite <- Hw at 1. apply drop_app_exact. }
  rewrite scan_chunks_unfold by (auto; lia).
  rewrite Htake, Hdrop.
  destruct (zeros ++ [x01]) as [|b c] eqn:Ew.
  { destruct zeros; discriminate. }
  rewrite <- Ew in *. cbv zeta. clear b c Ew.
  change (len [x01]) with 1. rewrite Hw.
  destruct (Z.leb_spec 1 chunk_size); [|lia].
  assert (Htail : last_bytes 1 (zeros ++ [x01]) = [x01]).
  { unfold last_bytes. change (1 =? 0) with false. cbv iota.
    rewrite Hw. replace (chunk_size - 1) with (len zeros) by lia.
    apply drop_app_exact. }
  rewrite Htail.
  rewrite scan_chunks_unfold by (auto; simpl; lia).
  assert (Hsmall : take chunk_size [x00] = [x00])
    by (apply take_all; change (len [x00]) with 1; lia).
  assert (Hend : drop chunk_size [x00] = [])
    by (apply drop_all; change (len [x00]) with 1; lia).
  rewrite Hsmall, Hend. cbv zeta.
  rewrite scan_chunks_unfold by (auto; simpl; lia).
  assert (Hnil : take chunk_size (@nil byte) = []) by reflexivity.
  rewrite Hnil. rewrite app_nil_r. cbn [app].
  change (len (@nil byte)) with 0. change (len [x01]) with 1.
  replace (0 - 0) with 0 by lia.
  replace (0 + chunk_size - 1) with (chunk_size - 1) by lia.
  (* the second round, on the two bytes 01 00 *)
  assert (H2 : find_hits (S (S (List.length [x01; x00]))) [x01; x00] [x01]
                         (chunk_size - 1) 0 = [chunk_size - 1 + 0])
    by reflexivity.
  rewrite H2. replace (chunk_size - 1 + 0) with (chunk_size - 1) by lia.
  (* the first round, on the whole first window *)
  destruct (find_hits_spec (zeros ++ [x01]) [x01] 0
              (S (S (List.length (zeros ++ [x01])))) 0) as [Hin Hsorted];
    [lia | unfold len; lia |].
  rewrite (sorted_singleton _ (chunk_size - 1) Hsorted); [reflexivity|].
  intro x. rewrite Hin. split.
  - intros [o [-> [Ho [H0 [Hb Hr]]]]]. change (len [x01]) with 1 in *.
    rewrite Hw in Hb.
    destruct (Z.eq_dec o (chunk_size - 1)) as [->|Hne]; [lia|].
    exfalso.
    (* below the last byte of the window everything is zero *)
    assert (Hsplit : zeros = repeat x00 (Z.to_nat o)
                             ++ [x00]
                             ++ repeat x00 (Z.to_nat (chunk_size - 2 - o))).
    { unfold zeros. change [x00] with (repeat x00 1).
      rewrite <- !repeat_app. f_equal. lia. }
    assert (Hlo : len (repeat x00 (Z.to_nat o)) = o)
      by (unfold len; rewrite repeat_length; lia).
    assert (Hr' : read_at (repeat x00 (Z.to_nat o) ++ [x00]
                             ++ (repeat x00 (Z.to_nat (chunk_size - 2 - o))
                                   ++ [x01]))
                          (len (repeat x00 (Z.to_nat o)) + 0) 1
                  = read_at [x00] 0 1)
      by (apply read_at_inside; change (len [x00]) with 1; lia).
    rewrite Hlo, Z.add_0_r in Hr'.
    rewrite Hsplit, <- !app_assoc in Hr. rewrite Hr' in Hr.
    discriminate.
  - intros ->. exists (chunk_size - 1). split; [lia|]. split; [lia|].
    replace (chunk_size - 1) with (len zeros + 0) at 1 by lia.
    rewrite <- (app_nil_r (zeros ++ [x01])), <- app_assoc.
    apply occurs_at_inside; change (len [x01]) with 1; try lia.
    repeat split; lia.
Qed.

Lemma chunk_size_pos : 0 < _CHUNK_SIZE.
Proof. reflexivity. Qed.

(** The scanner of the program: sound, in ascending order, and complete
    for a pattern that fits a window.  Shared by the locators below. *)
Lemma find_pattern_spec (file pattern : bytes) :
  pattern <> [] ->
  (forall x, In x (_find_pattern file pattern) -> occurs_at file pattern x)
  /\ StronglySorted Z.le (_find_pattern file pattern)
  /\ (len pattern <= _CHUNK_SIZE ->
      forall o, occurs_at file pattern o -> In o (_find_pattern file pattern)).
Proof.
  intro Hne. unfold _find_pattern.
  apply find_pattern_chunked_spec; [exact chunk_size_pos | exact Hne].
Qed.

(** How often the scanner of the program reports an offset. *)
Lemma find_pattern_count (file pattern : bytes) :
  pattern <> [] -> len pattern <= _CHUNK_SIZE ->
  (forall o, ~ occurs_at file pattern o ->
             count_occ Z.eq_dec (_find_pattern file pattern) o = 0%nat)
  /\ (forall o, occurs_at file pattern o ->
                count_occ Z.eq_dec (_find_pattern file pattern) o
                = if ((o + len pattern) mod _CHUNK_SIZE =? 0)
                     && (o + len pattern <? len file)
                  then 2%nat else 1%nat).
Proof.
  intros Hne Hfit. unfold _find_pattern.
  apply find_pattern_chunked_count;
    [exact chunk_size_pos | exact Hne | exact Hfit].
Qed.

(** C2, as amended.  For a non-empty pattern of at most one window
    (64 MiB), [_find_pattern] returns the offsets of the occurrences
    and nothing else, in ascending order, and each occurrence exactly
    once, one that spans two windows included; but for an occurrence
    that ends exactly where a window ends, with more data after it:
    that one is returned exactly twice. *)
Theorem find_pattern_counts_occurrences (file pattern : bytes) :
  pattern <> [] -> len pattern <= _CHUNK_SIZE ->
  StronglySorted Z.le (_find_pattern file pattern)
  /\ (forall o, In o (_find_pattern file pattern) <-> occurs_at file pattern o)
  /\ (forall o, occurs_at file pattern o ->
        count_occ Z.eq_dec (_find_pattern file pattern) o
        = if ((o + len pattern) mod _CHUNK_SIZE =? 0)
             && (o + len pattern <? len file)
          then 2%nat else 1%nat).
Proof.
  intros Hne Hfit.
  destruct (find_pattern_spec file pattern Hne) as [Hs [Hsorted Hc]].
  split; [exact Hsorted|]. split.
  - intro o. split; [apply Hs | apply Hc; exact Hfit].
  - apply find_pattern_count; assumption.
Qed.

Lemma find_pattern_counts_occurrences_witness :
  StronglySorted Z.le
    (_find_pattern [x61; x62; x61; x62; x61] [x61; x62; x61])
  /\ (forall o, In o (_find_pattern [x61; x62; x61; x62; x61]
                                    [x61; x62; x61])
                <-> occurs_at [x61; x62; x61; x62; x61] [x61; x62; x61] o)
  /\ (forall o,
        occurs_at [x61; x62; x61; x62; x61] [x61; x62; x61] o ->
        count_occ Z.eq_dec
          (_find_pattern [x61; x62; x61; x62; x61] [x61; x62; x61]) o
        = if ((o + len [x61; x62; x61]) mod _CHUNK_SIZE =? 0)
             && (o + len [x61; x62; x61] <? len [x61; x62; x61; x62; x61])
          then 2%nat else 1%nat).
Proof.
  apply (find_pattern_counts_occurrences
           [x61; x62; x61; x62; x61] [x61; x62; x61]).
  - discriminate.
  - vm_compute. discriminate.
Defined.

(** C2, the counterexample.  A file of 64 MiB + 1 bytes: zeros, except
    for the byte 01 that ends the first window.  The pattern 01 occurs
    once, at offset 67108863, and [_find_pattern] reports it twice: the
    first round finds it in the first window, the second round finds it
    again in the tail kept from that window. *)
Lemma find_pattern_reports_twice :
  _find_pattern (repeat x00 (Z.to_nat (_CHUNK_SIZE - 1)) ++ [x01; x00]) [x01]
  = [67108863; 67108863]
  /\ ~ NoDup (_find_pattern
                (repeat x00 (Z.to_nat (_CHUNK_SIZE - 1)) ++ [x01; x00])
                [x01]).
Proof.
  assert (E : _find_pattern
                (repeat x00 (Z.to_nat (_CHUNK_SIZE - 1)) ++ [x01; x00]) [x01]
              = [67108863; 67108863])
    by exact (boundary_occurrence_twice _CHUNK_SIZE chunk_size_pos).
  split; [exact E|]. rewrite E. intro H.
  inversion H as [|? ? Hnotin _]; subst. apply Hnotin. now left.
Qed.

(** A pattern longer than the window can be missed: with a window of
    two bytes, the four bytes at offset 1 span three windows, and no
    search buffer ever holds them all. *)
Example pattern_longer_than_window_missed :
  find_pattern_chunked 2 (list_byte_of_string "xabcdx")
                       (list_byte_of_string "abcd") = []
  /\ occurs_at (list_byte_of_string "xabcdx") (list_byte_of_string "abcd") 1.
Proof. split; [reflexivity|]. repeat split; discriminate. Qed.

(** An occurrence that spans two windows is found, once: with a window
    of four bytes, the pattern at offset 3 has one byte in each. *)
Example pattern_across_windows_found_once :
  find_pattern_chunked 4 (list_byte_of_string "xxxabxxx")
                       (list_byte_of_string "ab") = [3].
Proof. reflexivity. Qed.

(** The scan of the counterexample with a window of four bytes, by
    evaluation. *)
Example find_pattern_window_4 :
  find_pattern_chunked 4 [x00; x00; x00; x01; x00] [x01] = [3; 3].
Proof. reflexivity. Qed.

(** ** Loops that collect patches *)

Lemma for_each_In {A : Type} (body : A -> result (list patch))
      (items : list A) :
  forall ps p, for_each items body = Ok ps -> In p ps ->
    exists x qs, In x items /\ body x = Ok qs /\ In p qs.
Proof.
  induction items as [|x items IH]; simpl; intros ps p H Hp.
  - inversion H; subst. contradiction.
  - apply bind_Ok in H. destruct H as [qs [Hx H]].
    apply bind_Ok in H. destruct H as [rs [Hrest H]].
    inversion H; subst. apply in_app_or in Hp. destruct Hp as [Hp|Hp].
    + exists x, qs. auto.
    + destruct (IH rs p Hrest Hp) as [y [qs' [Hy [Hb Hq]]]].
      exists y, qs'. auto.
Qed.

Lemma for_each_nil {A : Type} (body : A -> result (list patch))
      (items : list A) :
  (forall x, In x items -> body x = Ok []) -> for_each items body = Ok [].
Proof.
  induction items as [|x items IH]; simpl; intro H; [reflexivity|].
  rewrite H by auto. simpl. rewrite IH by auto. reflexivity.
Qed.

(** A body that raises on one item makes the whole loop raise: with the
    exception of the first item on which the body raises. *)
Lemma for_each_raises {A : Type} (body : A -> result (list patch))
      (P : exn -> Prop) (items : list A) :
  (forall x e, In x items -> body x = Raise e -> P e) ->
  forall x e, In x items -> body x = Raise e ->
    exists e', for_each items body = Raise e' /\ P e'.
Proof.
  induction items as [|y items IH]; intros HP x e Hx Hb; [contradiction|].
  simpl. destruct (body y) as [qs|e1] eqn:Ey.
  - simpl. destruct Hx as [->|Hx]; [congruence|].
    destruct (IH (fun z e0 Hz => HP z e0 (or_intror Hz)) x e Hx Hb)
      as [e' [He' Pe']].
    exists e'. rewrite He'. auto.
  - exists e1. split; [reflexivity|]. apply (HP y); simpl; auto.
Qed.

Lemma dedup_In (patches : list patch) :
  forall seen p, In p (dedup seen patches) -> In p patches.
Proof.
  induction patches as [|q patches IH]; simpl; intros seen p H; [exact H|].
  destruct (existsb _ seen).
  - right. eapply IH; eauto.
  - destruct H as [->|H]; [now left|]. right. eapply IH; eauto.
Qed.

(** ** The plan of [patch_file], stage by stage *)

Lemma plan_patches_inv (file : bytes) (wrong_str correct_str : string)
      (patches : list patch) :
  plan_patches file wrong_str correct_str = Ok (Patches patches) ->
  exists wrong_ts correct_ts wrong_dt correct_dt atoms
         wrong_varint correct_varint gps wrong_ascii correct_ascii,
    py_int wrong_str = Ok wrong_ts /\
    py_int correct_str = Ok correct_ts /\
    _parse_ts wrong_str = Ok wrong_dt /\
    _parse_ts correct_str = Ok correct_dt /\
    mp4_patches file (epoch_seconds correct_dt - epoch_seconds wrong_dt)
    = Ok atoms /\
    _encode_varint wrong_ts = Ok wrong_varint /\
    _encode_varint correct_ts = Ok correct_varint /\
    len wrong_varint = len correct_varint /\
    gps_patches file (epoch_seconds wrong_dt * 1000)
                ((epoch_seconds correct_dt - epoch_seconds wrong_dt) * 1000)
    = Ok gps /\
    encode_ascii (str_slice 0 8 wrong_str ++ "_" ++ str_from 8 wrong_str)
    = Ok wrong_ascii /\
    encode_ascii (str_slice 0 8 correct_str ++ "_" ++ str_from 8 correct_str)
    = Ok correct_ascii /\
    patches
    = dedup []
        (atoms
         ++ protobuf_patches file wrong_varint correct_varint
         ++ gps
         ++ ascii_patches file wrong_ascii correct_ascii
         ++ utf16_patches file
              (encode_utf16le (str_slice 0 8 wrong_str))
              (encode_utf16le (str_slice 0 8 correct_str))
              (str_from 8 wrong_str) (str_from 8 correct_str)).
Proof.
  unfold plan_patches. intro H.
  apply bind_Ok in H. destruct H as [wrong_ts [E1 H]].
  apply bind_Ok in H. destruct H as [correct_ts [E2 H]].
  apply bind_Ok in H. destruct H as [wrong_dt [E3 H]].
  apply bind_Ok in H. destruct H as [correct_dt [E4 H]].
  apply bind_Ok in H. destruct H as [atoms [E5 H]].
  apply bind_Ok in H. destruct H as [wrong_varint [E6 H]].
  apply bind_Ok in H. destruct H as [correct_varint [E7 H]].
  destruct (Z.eqb_spec (len wrong_varint) (len correct_varint)) as [E8|];
    [|discriminate].
  simpl negb in H. cbv iota in H.
  apply bind_Ok in H. destruct H as [gps [E9 H]].
  apply bind_Ok in H. destruct H as [wrong_ascii [E10 H]].
  apply bind_Ok in H. destruct H as [correct_ascii [E11 H]].
  inversion H.
  exists wrong_ts, correct_ts, wrong_dt, correct_dt, atoms,
    wrong_varint, correct_varint, gps, wrong_ascii, correct_ascii.
  repeat split; auto.
Qed.

Lemma mp4_hit_types (file box_type : bytes) (delta_sec offset : Z)
      (ps : list patch) (p : patch) :
  mp4_hit file box_type delta_sec offset = Ok ps -> In p ps ->
  p_type p = (string_of_list_byte box_type ++ ".creation")%string \/
  p_type p = (string_of_list_byte box_type ++ ".modification")%string.
Proof.
  unfold mp4_hit. intros H Hp.
  apply bind_Ok in H. destruct H as [version [_ H]].
  destruct (negb (byte_val version =? 0)).
  { inversion H; subst. contradiction. }
  apply bind_Ok in H. destruct H as [ct [_ H]].
  destruct (negb _).
  { inversion H; subst. contradiction. }
  destruct (for_each_In _ _ _ _ H Hp) as [[field_off name] [qs [Hf [Hb Hq]]]].
  unfold mp4_field in Hb.
  apply bind_Ok in Hb. destruct Hb as [val [_ Hb]].
  apply bind_Ok in Hb. destruct Hb as [old [_ Hb]].
  apply bind_Ok in Hb. destruct Hb as [new [_ Hb]].
  inversion Hb; subst. destruct Hq as [<-|[]]. simpl p_type.
  destruct Hf as [Hf|[Hf|[]]]; inversion Hf; subst; auto.
Qed.

Lemma mp4_patches_types (file : bytes) (delta_sec : Z)
      (atoms : list patch) (p : patch) :
  mp4_patches file delta_sec = Ok atoms -> In p atoms ->
  In (p_type p) atom_types.
Proof.
  unfold mp4_patches. intros H Hp.
  destruct (for_each_In _ _ _ _ H Hp) as [box [qs [Hbox [Hb Hq]]]].
  destruct (for_each_In _ _ _ _ Hb Hq) as [offset [rs [_ [Hhit Hr]]]].
  apply (mp4_hit_types _ _ _ _ _ _ Hhit) in Hr.
  unfold box_types in Hbox. unfold atom_types.
  destruct Hbox as [<-|[<-|[<-|[]]]]; destruct Hr as [-> | ->];
    simpl; tauto.
Qed.

Lemma protobuf_patches_types (file wv cv : bytes) (p : patch) :
  In p (protobuf_patches file wv cv) ->
  p_type p = "protobuf creation_time"%string.
Proof.
  unfold protobuf_patches. intro H. apply in_map_iff in H.
  destruct H as [o [<- _]]. reflexivity.
Qed.

Lemma ascii_patches_types (file wa ca : bytes) (p : patch) :
  In p (ascii_patches file wa ca) ->
  p_type p = "ASCII filename date"%string.
Proof.
  unfold ascii_patches. intro H. apply in_map_iff in H.
  destruct H as [o [<- _]]. reflexivity.
Qed.

(** A patch of the GPS stage: where it is and what was decoded there. *)
Lemma gps_patches_In (file : bytes) (wrong_epoch_ms delta_ms : Z)
      (gps : list patch) (p : patch) :
  gps_patches file wrong_epoch_ms delta_ms = Ok gps -> In p gps ->
  p_type p = "first_gps_timestamp"%string /\
  In (p_offset p - 2) (_find_pattern file [xa0; x02]) /\
  exists val vend,
    _decode_varint (read_at file (p_offset p) 10) 0 = Ok (val, vend) /\
    1577836800000 <= val <= 1893456000000 /\
    Z.abs (val - wrong_epoch_ms) < 86400000 /\
    p_old p = firstn vend (read_at file (p_offset p) 10) /\
    _encode_varint (val + delta_ms) = Ok (p_new p) /\
    len (p_old p) = len (p_new p).
Proof.
  unfold gps_patches. intros H Hp.
  destruct (for_each_In _ _ _ _ H Hp) as [offset [qs [Hhit [Hb Hq]]]].
  unfold gps_hit in Hb.
  destruct (_decode_varint (read_at file (offset + 2) 10) 0)
    as [[val vend]|] eqn:Edec.
  2: { inversion Hb; subst. contradiction. }
  destruct (negb _) eqn:Erange.
  { inversion Hb; subst. contradiction. }
  destruct (86400000 <=? Z.abs (val - wrong_epoch_ms)) eqn:Enear.
  { inversion Hb; subst. contradiction. }
  apply bind_Ok in Hb. destruct Hb as [new_v [Enew Hb]].
  destruct (Z.eqb_spec (len (firstn vend (read_at file (offset + 2) 10)))
                       (len new_v)) as [Elen|].
  2: { inversion Hb; subst. contradiction. }
  inversion Hb; subst. destruct Hq as [<-|[]]. simpl.
  split; [reflexivity|]. split.
  { replace (offset + 2 - 2) with offset by lia. exact Hhit. }
  exists val, vend. repeat split; auto; lia.
Qed.

(** A patch of the UTF-16LE stage. *)
Lemma utf16_patches_In (file wrong_utf16 correct_utf16 : bytes)
      (wrong_time correct_time : string) (p : patch) :
  In p (utf16_patches file wrong_utf16 correct_utf16 wrong_time correct_time) ->
  exists offset,
    In offset (_find_pattern file wrong_utf16) /\
    negb (bytes_in marker_VID (read_at file (Z.max 0 (offset - 20)) 60))
    && negb (bytes_in marker_LRV (read_at file (Z.max 0 (offset - 20)) 60))
    = false /\
    ((p_type p = "UTF-16LE filename date"%string /\ p_offset p = offset) \/
     (p_type p = "UTF-16LE filename time"%string /\ p_offset p = offset + 18)).
Proof.
  unfold utf16_patches. intro H. apply in_flat_map in H.
  destruct H as [offset [Hhit Hp]]. exists offset. split; [exact Hhit|].
  unfold utf16_hit in Hp.
  destruct (negb _ && negb _); [contradiction|].
  split; [reflexivity|].
  destruct Hp as [<-|Hp]; [left; split; reflexivity|].
  destruct (bytes_eqb _ _); [|contradiction].
  destruct Hp as [<-|[]]. right. split; reflexivity.
Qed.

Lemma bytes_in_occurs (sub data : bytes) :
  bytes_in sub data = true <-> exists i, occurs_at data sub i.
Proof.
  unfold bytes_in.
  destruct (bytes_find_spec data sub 0) as [[Hr Hnone]|[Hr [Hocc _]]]; [lia| |].
  - rewrite Hr. simpl. split; [discriminate|].
    intros [i Hi]. exfalso. apply (Hnone i); [destruct Hi; lia|exact Hi].
  - destruct (Z.eqb_spec (bytes_find data sub 0) (-1)) as [E|_]; [lia|].
    simpl. split; [|reflexivity]. intros _. eauto.
Qed.

(** C6. A [first_gps_timestamp] candidate of the plan sits two bytes
    after a hit of the tag [a0 02], and the varint decoded there lies
    in [1577836800000, 1893456000000] and differs from the epoch
    milliseconds of the wrong timestamp by less than 24 hours.  So a
    decoded value outside the window, or 24 hours or more away, never
    becomes a candidate. *)
Theorem gps_candidate_is_plausible
        (file : bytes) (wrong_str correct_str : string)
        (patches : list patch) (p : patch) :
  plan_patches file wrong_str correct_str = Ok (Patches patches) ->
  In p patches ->
  p_type p = "first_gps_timestamp"%string ->
  exists wrong_dt val vend,
    _parse_ts wrong_str = Ok wrong_dt /\
    In (p_offset p - 2) (_find_pattern file [xa0; x02]) /\
    _decode_varint (read_at file (p_offset p) 10) 0 = Ok (val, vend) /\
    1577836800000 <= val <= 1893456000000 /\
    Z.abs (val - epoch_seconds wrong_dt * 1000) < 86400000.
Proof.
  intros Hplan Hp Htype.
  destruct (plan_patches_inv _ _ _ _ Hplan)
    as (wrong_ts & correct_ts & wrong_dt & correct_dt & atoms & wv & cv
        & gps & wa & ca & _ & _ & Ewd & _ & Eatoms & _ & _ & _ & Egps
        & _ & _ & ->).
  apply dedup_In in Hp.
  repeat (apply in_app_or in Hp; destruct Hp as [Hp|Hp]).
  - apply (mp4_patches_types _ _ _ _ Eatoms) in Hp. not_this_stage.
  - apply protobuf_patches_types in Hp. not_this_stage.
  - destruct (gps_patches_In _ _ _ _ _ Egps Hp)
      as (_ & Hhit & val & vend & Hdec & Hrange & Hnear & _).
    exists wrong_dt, val, vend. auto.
  - apply ascii_patches_types in Hp. not_this_stage.
  - apply utf16_patches_In in Hp.
    destruct Hp as (offset & _ & _ & [[Ht _]|[Ht _]]); not_this_stage.
Qed.

Lemma gps_candidate_is_plausible_witness :
  exists wrong_dt val vend,
    _parse_ts "20260103194656" = Ok wrong_dt /\
    In (2 - 2) (_find_pattern gps_example_file [xa0; x02]) /\
    _decode_varint (read_at gps_example_file 2 10) 0 = Ok (val, vend) /\
    1577836800000 <= val <= 1893456000000 /\
    Z.abs (val - epoch_seconds wrong_dt * 1000) < 86400000.
Proof.
  apply (gps_candidate_is_plausible
           gps_example_file "20260103194656" "20260215143800"
           [mkPatch "first_gps_timestamp" 2
                    [x80; x97; x98; xab; xb8; x33]
                    [xc0; xd2; xf2; x8d; xc6; x33]]
           (mkPatch "first_gps_timestamp" 2
                    [x80; x97; x98; xab; xb8; x33]
                    [xc0; xd2; xf2; x8d; xc6; x33])).
  - vm_compute. reflexivity.
  - left. reflexivity.
  - reflexivity.
Defined.

(** C7, as amended.  A UTF-16LE date candidate of the plan sits on a
    hit of the wrong date in UTF-16LE, and the marker VID or LRV in
    UTF-16LE occurs in the 60 bytes read from 20 bytes before the hit
    (from the start of the file when the hit is nearer to it): the
    context before the hit, the hit, and the bytes after it up to the
    sixtieth. *)
Theorem utf16_candidate_has_marker_in_context
        (file : bytes) (wrong_str correct_str : string)
        (patches : list patch) (p : patch) :
  plan_patches file wrong_str correct_str = Ok (Patches patches) ->
  In p patches ->
  p_type p = "UTF-16LE filename date"%string ->
  In (p_offset p)
     (_find_pattern file (encode_utf16le (str_slice 0 8 wrong_str))) /\
  exists i,
    occurs_at (read_at file (Z.max 0 (p_offset p - 20)) 60) marker_VID i \/
    occurs_at (read_at file (Z.max 0 (p_offset p - 20)) 60) marker_LRV i.
Proof.
  intros Hplan Hp Htype.
  destruct (plan_patches_inv _ _ _ _ Hplan)
    as (wrong_ts & correct_ts & wrong_dt & correct_dt & atoms & wv & cv
        & gps & wa & ca & _ & _ & _ & _ & Eatoms & _ & _ & _ & Egps
        & _ & _ & ->).
  apply dedup_In in Hp.
  repeat (apply in_app_or in Hp; destruct Hp as [Hp|Hp]).
  - apply (mp4_patches_types _ _ _ _ Eatoms) in Hp. not_this_stage.
  - apply protobuf_patches_types in Hp. not_this_stage.
  - destruct (gps_patches_In _ _ _ _ _ Egps Hp) as (Ht & _). not_this_stage.
  - apply ascii_patches_types in Hp. not_this_stage.
  - apply utf16_patches_In in Hp.
    destruct Hp as (offset & Hhit & Hguard & [[_ Ho]|[Ht _]]);
      [|not_this_stage].
    rewrite Ho. split; [exact Hhit|].
    apply andb_false_iff in Hguard.
    destruct Hguard as [Hg|Hg]; apply negb_false_iff in Hg;
      apply bytes_in_occurs in Hg; destruct Hg as [i Hi]; exists i; auto.
Qed.

Lemma utf16_candidate_has_marker_in_context_witness :
  In 0 (_find_pattern marker_after_file
          (encode_utf16le (str_slice 0 8 "20260103194656"))) /\
  exists i,
    occurs_at (read_at marker_after_file (Z.max 0 (0 - 20)) 60) marker_VID i \/
    occurs_at (read_at marker_after_file (Z.max 0 (0 - 20)) 60) marker_LRV i.
Proof.
  apply (utf16_candidate_has_marker_in_context
           marker_after_file "20260103194656" "20260215143800"
           [mkPatch "UTF-16LE filename date" 0
                    (encode_utf16le "20260103") (encode_utf16le "20260215")]
           (mkPatch "UTF-16LE filename date" 0
                    (encode_utf16le "20260103") (encode_utf16le "20260215"))).
  - vm_compute. reflexivity.
  - left. reflexivity.
  - reflexivity.
Defined.

(** C7, the counterexample.  The file is the date 20260103 in UTF-16LE
    followed by the marker VID.  The date is hit at offset 0; nothing
    precedes it and the 16 bytes of the hit hold no marker; the marker
    that follows the hit is within the 60 bytes read, and the candidate
    is emitted. *)
Lemma utf16_candidate_with_marker_after_hit :
  plan_patches marker_after_file "20260103194656" "20260215143800"
  = Ok (Patches [mkPatch "UTF-16LE filename date" 0
                         (encode_utf16le "20260103")
                         (encode_utf16le "20260215")])
  /\ bytes_in marker_VID (read_at marker_after_file 0 16) = false
  /\ bytes_in marker_LRV (read_at marker_after_file 0 16) = false
  /\ bytes_in marker_VID (read_at marker_after_file 16 6) = true.
Proof. vm_compute. repeat split. Qed.

(** ** The verified writer *)

Lemma patch_write_match (file : bytes) (offset : Z) (old new : bytes) :
  read_at file offset (len old) = old ->
  _patch_write file offset old new = (true, write_at file offset new, []).
Proof.
  intro H. unfold _patch_write.
  assert (E : bytes_eqb (read_at file offset (len old)) old = true)
    by now apply bytes_eqb_eq.
  now rewrite E.
Qed.

Lemma patch_write_mismatch (file : bytes) (offset : Z) (old new : bytes) :
  read_at file offset (len old) <> old ->
  _patch_write file offset old new
  = (false, file, [MsgUnexpectedBytes offset]).
Proof.
  intro H. unfold _patch_write.
  destruct (bytes_eqb (read_at file offset (len old)) old) eqn:E;
    [|reflexivity].
  apply bytes_eqb_eq in E. contradiction.
Qed.

Lemma bytes_eq_dec (a b : bytes) : {a = b} + {a <> b}.
Proof.
  destruct (bytes_eqb a b) eqn:E.
  - left. now apply bytes_eqb_eq.
  - right. intro H. apply bytes_eqb_eq in H. congruence.
Qed.

(** The write loop goes through every candidate, whatever happened to
    the ones before, and its flag is the conjunction of the outcomes. *)
Lemma write_patches_spec (patches : list patch) :
  forall file ok,
  exists outcomes file' out,
    write_patches file patches ok
    = (ok && forallb (fun b => b) outcomes, file', out) /\
    writes file patches outcomes file' /\
    List.length outcomes = List.length patches.
Proof.
  induction patches as [|p rest IH]; intros file ok.
  - exists [], file, []. simpl. rewrite andb_true_r.
    repeat split. constructor.
  - cbn [write_patches].
    destruct (bytes_eq_dec (read_at file (p_offset p) (len (p_old p)))
                           (p_old p)) as [Hm|Hm].
    + rewrite (patch_write_match _ _ _ _ Hm). cbn [negb].
      destruct (IH (write_at file (p_offset p) (p_new p)) ok)
        as (outcomes & file' & out & E & Hw & Hl).
      rewrite E. exists (true :: outcomes), file', ([] ++ out).
      repeat split.
      * now constructor.
      * simpl. now rewrite Hl.
    + rewrite (patch_write_mismatch _ _ _ _ Hm). cbn [negb].
      destruct (IH file false) as (outcomes & file' & out & E & Hw & Hl).
      rewrite E.
      exists (false :: outcomes), file',
        ([MsgUnexpectedBytes (p_offset p)] ++ out).
      repeat split.
      * simpl. now rewrite andb_false_r.
      * now constructor.
      * simpl. now rewrite Hl.
Qed.

(** A first candidate whose old bytes are not there fails; the second
    is written all the same, and the flag is false. *)
Example write_continues_after_mismatch :
  write_patches (list_byte_of_string "abcd")
                [mkPatch "first" 0 (list_byte_of_string "x")
                         (list_byte_of_string "y");
                 mkPatch "second" 1 (list_byte_of_string "b")
                         (list_byte_of_string "z")]
                true
  = (false, list_byte_of_string "azcd", [MsgUnexpectedBytes 0]).
Proof. reflexivity. Qed.

(** Two overlapping candidates: the first write changes the bytes the
    second expects, so the second fails and the run is reported
    failed, with the first patch applied. *)
Example overlapping_candidates_fail :
  patch_file overlap_example_file "20120115201201" "20260215143800" false
  = Ok (false, list_byte_of_string "20260215_14380015_201201",
        [MsgCandidate "ASCII filename date" 0;
         MsgCandidate "ASCII filename date" 9;
         MsgUnexpectedBytes 9]).
Proof. vm_compute. reflexivity. Qed.

(** ** The per-file loop *)

Lemma fs_store_same (fs : filesystem) (path : string) (content : bytes) :
  fs_lookup fs path = Some content -> fs_store fs path content = fs.
Proof.
  induction fs as [|[p c] fs IH]; simpl; intro H; [reflexivity|].
  destruct (String.eqb p path).
  - now inversion H.
  - now rewrite IH.
Qed.

(** C5, as amended.  When the deduplicated candidate set is empty,
    [patch_file] raises nothing and leaves the file untouched, prints
    that no patchable timestamps were found and returns [False], the
    flag it also returns for a failure; the loop of [main] reports the
    file as FAILED and goes on with the remaining files. *)
Theorem empty_plan_returns_false
        (file : bytes) (wrong_str correct_str : string) (dry_run : bool) :
  plan_patches file wrong_str correct_str = Ok (Patches []) ->
  patch_file file wrong_str correct_str dry_run
  = Ok (false, file, [MsgNoPatchable])
  /\ forall fs filepath files,
       fs_lookup fs filepath = Some file ->
       main_loop fs (filepath :: files) wrong_str correct_str dry_run
       = ('(fs', out) <- main_loop fs files wrong_str correct_str dry_run ;;
          Ok (fs', MsgFile filepath :: MsgNoPatchable :: MsgFailed :: out)).
Proof.
  intro Hplan.
  assert (E : patch_file file wrong_str correct_str dry_run
              = Ok (false, file, [MsgNoPatchable])).
  { unfold patch_file. now rewrite Hplan. }
  split; [exact E|].
  intros fs filepath files Hl. cbn [main_loop]. rewrite Hl, E.
  simpl bind. rewrite (fs_store_same _ _ _ Hl). reflexivity.
Qed.

Lemma empty_plan_returns_false_witness :
  patch_file [] "20260103194656" "20260215143800" false
  = Ok (false, [], [MsgNoPatchable])
  /\ forall fs filepath files,
       fs_lookup fs filepath = Some [] ->
       main_loop fs (filepath :: files)
                 "20260103194656" "20260215143800" false
       = ('(fs', out) <-
            main_loop fs files "20260103194656" "20260215143800" false ;;
          Ok (fs', MsgFile filepath :: MsgNoPatchable :: MsgFailed :: out)).
Proof.
  apply (empty_plan_returns_false [] "20260103194656" "20260215143800" false).
  vm_compute. reflexivity.
Defined.

(** C5, the counterexample.  An empty file has no candidate.  The flag
    [patch_file] returns for it is [False], the flag of a failed run
    (here: the run on the overlapping candidates above), and the loop
    of [main] prints FAILED for it. *)
Lemma empty_plan_is_reported_failed :
  plan_patches [] "20260103194656" "20260215143800" = Ok (Patches [])
  /\ patch_file [] "20260103194656" "20260215143800" false
     = Ok (false, [], [MsgNoPatchable])
  /\ main_loop [("a.mp4"%string, [])] ["a.mp4"%string]
               "20260103194656" "20260215143800" false
     = Ok ([("a.mp4"%string, [])],
           [MsgFile "a.mp4"; MsgNoPatchable; MsgFailed]).
Proof. vm_compute. repeat split. Qed.

(** ** The varint length check *)

(** C4, as amended.  When the varints of the wrong and the correct
    timestamp differ in length, [patch_file] writes nothing: whenever
    it returns, it returns [False] with the file as it was and the
    length-mismatch message; and it does return so once both timestamps
    parse and the MP4 atom stage, which runs before the check, has
    completed. *)
Theorem varint_length_mismatch_writes_nothing
        (file : bytes) (wrong_str correct_str : string) (dry_run : bool)
        (wrong_ts correct_ts : Z) (wrong_varint correct_varint : bytes) :
  py_int wrong_str = Ok wrong_ts ->
  py_int correct_str = Ok correct_ts ->
  _encode_varint wrong_ts = Ok wrong_varint ->
  _encode_varint correct_ts = Ok correct_varint ->
  len wrong_varint <> len correct_varint ->
  (forall ok file' out,
      patch_file file wrong_str correct_str dry_run = Ok (ok, file', out) ->
      ok = false /\ file' = file /\
      out = [MsgVarintMismatch (len wrong_varint) (len correct_varint)])
  /\ (forall wrong_dt correct_dt atoms,
         _parse_ts wrong_str = Ok wrong_dt ->
         _parse_ts correct_str = Ok correct_dt ->
         mp4_patches file (epoch_seconds correct_dt - epoch_seconds wrong_dt)
         = Ok atoms ->
         patch_file file wrong_str correct_str dry_run
         = Ok (false, file,
               [MsgVarintMismatch (len wrong_varint) (len correct_varint)])).
Proof.
  intros Ew Ec Ewv Ecv Hne.
  assert (Hplan : forall wrong_dt correct_dt atoms,
             _parse_ts wrong_str = Ok wrong_dt ->
             _parse_ts correct_str = Ok correct_dt ->
             mp4_patches file
               (epoch_seconds correct_dt - epoch_seconds wrong_dt) = Ok atoms ->
             plan_patches file wrong_str correct_str
             = Ok (VarintMismatch (len wrong_varint) (len correct_varint))).
  { intros wd cd atoms Ewd Ecd Eat. unfold plan_patches.
    rewrite Ew, Ec. simpl bind. rewrite Ewd, Ecd. simpl bind.
    rewrite Eat. simpl bind. rewrite Ewv, Ecv. simpl bind.
    destruct (Z.eqb_spec (len wrong_varint) (len correct_varint));
      [contradiction|reflexivity]. }
  split.
  - intros ok file' out H. unfold patch_file in H.
    apply bind_Ok in H. destruct H as [pl [Hpl H]].
    assert (Hpl' := Hpl). unfold plan_patches in Hpl'.
    rewrite Ew, Ec in Hpl'. simpl bind in Hpl'.
    apply bind_Ok in Hpl'. destruct Hpl' as [wd [Ewd Hpl']].
    apply bind_Ok in Hpl'. destruct Hpl' as [cd [Ecd Hpl']].
    apply bind_Ok in Hpl'. destruct Hpl' as [atoms [Eat _]].
    rewrite (Hplan wd cd atoms Ewd Ecd Eat) in Hpl.
    inversion Hpl; subst pl. inversion H. auto.
  - intros wd cd atoms Ewd Ecd Eat. unfold patch_file.
    now rewrite (Hplan wd cd atoms Ewd Ecd Eat).
Qed.

Lemma varint_length_mismatch_writes_nothing_witness :
  (forall ok file' out,
      patch_file ascii_example_file "00010101000000" "20260101000000" false
      = Ok (ok, file', out) ->
      ok = false /\ file' = ascii_example_file /\
      out = [MsgVarintMismatch (len [xc0; x8e; xc4; xd0; x25])
                               (len [xc0; x96; xfe; xe0; xd2; xcd; x04])])
  /\ (forall wrong_dt correct_dt atoms,
         _parse_ts "00010101000000" = Ok wrong_dt ->
         _parse_ts "20260101000000" = Ok correct_dt ->
         mp4_patches ascii_example_file
                     (epoch_seconds correct_dt - epoch_seconds wrong_dt)
         = Ok atoms ->
         patch_file ascii_example_file "00010101000000" "20260101000000" false
         = Ok (false, ascii_example_file,
               [MsgVarintMismatch (len [xc0; x8e; xc4; xd0; x25])
                                  (len [xc0; x96; xfe; xe0; xd2; xcd; x04])])).
Proof.
  apply (varint_length_mismatch_writes_nothing
           ascii_example_file "00010101000000" "20260101000000" false
           10101000000 20260101000000).
  - reflexivity.
  - reflexivity.
  - vm_compute. reflexivity.
  - vm_compute. reflexivity.
  - vm_compute. discriminate.
Defined.

(** C4, the counterexample.  The varints of 00010101000000 (five bytes)
    and 20260101000000 (seven bytes) differ in length.  On a file with
    an [mvhd] atom the atom stage comes first and shifts the fields by
    the 2025 years between the two timestamps, out of 32 bits: the
    packing raises, and [patch_file] raises instead of returning its
    failure flag. *)
Lemma varint_mismatch_preempted_by_atom_stage :
  (exists wrong_varint correct_varint,
      _encode_varint 10101000000 = Ok wrong_varint /\
      _encode_varint 20260101000000 = Ok correct_varint /\
      len wrong_varint = 5 /\ len correct_varint = 7)
  /\ py_int "00010101000000" = Ok 10101000000
  /\ py_int "20260101000000" = Ok 20260101000000
  /\ patch_file mvhd_example_file "00010101000000" "20260101000000" false
     = Raise StructError.
Proof.
  split.
  - exists [xc0; x8e; xc4; xd0; x25], [xc0; x96; xfe; xe0; xd2; xcd; x04].
    vm_compute. repeat split.
  - vm_compute. repeat split.
Qed.

(** ** The MP4 atom stage *)

Lemma unpack_u32_range (buf : bytes) (off v : Z) :
  unpack_u32 buf off = Ok v -> 0 <= v <= 4294967295.
Proof.
  unfold unpack_u32. destruct (len buf - off <? 4); [discriminate|].
  intro H. inversion H. clear H. rewrite take_firstn.
  change (Z.to_nat 4) with 4%nat. unfold be_value.
  destruct (drop off buf) as [|a [|b [|c [|d l]]]]; simpl;
    repeat match goal with
           | |- context [byte_val ?x] =>
               let R := fresh "R" in
               pose proof (byte_val_range x) as R;
               generalize dependent (byte_val x); intros
           end; lia.
Qed.

Lemma pack_u32_ok (v : Z) :
  0 <= v <= 4294967295 -> exists bs, pack_u32 v = Ok bs.
Proof.
  intro Hv. unfold pack_u32.
  destruct (Z.leb_spec 0 v); [|lia].
  destruct (Z.leb_spec v 4294967295); [|lia]. simpl andb. cbv iota.
  destruct (byte_of_Z_ok (v / 16777216)) as [b3 [E3 _]].
  { split; [apply Z.div_pos; lia|apply Z.div_lt_upper_bound; lia]. }
  destruct (byte_of_Z_ok ((v / 65536) mod 256)) as [b2 [E2 _]].
  { apply Z.mod_pos_bound. lia. }
  destruct (byte_of_Z_ok ((v / 256) mod 256)) as [b1 [E1 _]].
  { apply Z.mod_pos_bound. lia. }
  destruct (byte_of_Z_ok (v mod 256)) as [b0 [E0 _]].
  { apply Z.mod_pos_bound. lia. }
  exists [b3; b2; b1; b0]. simpl. now rewrite E3, E2, E1, E0.
Qed.

Lemma pack_u32_out_of_range (v : Z) :
  ~ (0 <= v <= 4294967295) -> pack_u32 v = Raise StructError.
Proof.
  intro Hv. unfold pack_u32.
  destruct (Z.leb_spec 0 v), (Z.leb_spec v 4294967295);
    simpl; try reflexivity. lia.
Qed.

Lemma pack_u32_raises (v : Z) (e : exn) :
  pack_u32 v = Raise e -> e = StructError.
Proof.
  intro H.
  destruct (Z_le_dec 0 v) as [H0|H0];
    [destruct (Z_le_dec v 4294967295) as [H1|H1]|].
  - destruct (pack_u32_ok v) as [bs E]; [lia|]. congruence.
  - rewrite pack_u32_out_of_range in H by lia. congruence.
  - rewrite pack_u32_out_of_range in H by lia. congruence.
Qed.

Lemma mp4_field_raises (box_type buf : bytes) (offset delta_sec : Z)
      (field : Z * string) (e : exn) :
  mp4_field box_type buf offset delta_sec field = Raise e -> e = StructError.
Proof.
  unfold mp4_field. destruct field as [field_off name].
  unfold unpack_u32. destruct (len buf - field_off <? 4); simpl.
  { congruence. }
  destruct (pack_u32 (be_value (take 4 (drop field_off buf)))) eqn:E1; simpl.
  2: { apply pack_u32_raises in E1. congruence. }
  destruct (pack_u32 (_ + delta_sec)) eqn:E2; simpl.
  { discriminate. }
  apply pack_u32_raises in E2. congruence.
Qed.

Lemma for_each_raise_inv {A : Type} (body : A -> result (list patch))
      (items : list A) (e : exn) :
  for_each items body = Raise e ->
  exists x, In x items /\ body x = Raise e.
Proof.
  induction items as [|x items IH]; simpl; [discriminate|].
  destruct (body x) as [qs|e1] eqn:Ex; simpl.
  - destruct (for_each items body) as [rs|e2]; simpl; [discriminate|].
    intro H. inversion H; subst.
    destruct IH as [y [Hy Hb]]; [reflexivity|]. exists y. auto.
  - intro H. inversion H; subst. exists x. auto.
Qed.

Lemma bind_Raise {A B : Type} (r : result A) (k : A -> result B) (e : exn) :
  bind r k = Raise e ->
  r = Raise e \/ exists a, r = Ok a /\ k a = Raise e.
Proof.
  destruct r as [a|e1]; simpl; intro H; [right; eauto|left; congruence].
Qed.

Lemma mp4_hit_raises (file box_type : bytes) (delta_sec offset : Z) (e : exn) :
  mp4_hit file box_type delta_sec offset = Raise e -> atom_exn e.
Proof.
  unfold mp4_hit, atom_exn. intro H.
  apply bind_Raise in H. destruct H as [H|[version [_ H]]].
  { right. unfold first_byte in H.
    destruct (read_at file (offset + 4) 20); congruence. }
  destruct (negb (byte_val version =? 0)); [discriminate|].
  apply bind_Raise in H. destruct H as [H|[ct [_ H]]].
  { left. unfold unpack_u32 in H. destruct (_ <? 4); congruence. }
  destruct (negb _); [discriminate|].
  apply for_each_raise_inv in H. destruct H as [field [_ H]].
  left. eapply mp4_field_raises; eauto.
Qed.

(** An atom whose shifted time field does not fit 32 bits makes its
    loop body raise [struct.error]. *)
Lemma mp4_hit_out_of_range (file box_type : bytes) (delta_sec offset : Z)
      (version : byte) (ct : Z) :
  first_byte (read_at file (offset + 4) 20) = Ok version ->
  byte_val version = 0 ->
  unpack_u32 (read_at file (offset + 4) 20) 4 = Ok ct ->
  2000 <= fromtimestamp_year (ct - _MP4_EPOCH_OFFSET) <= 2099 ->
  (~ (0 <= ct + delta_sec <= 4294967295) \/
   exists mt, unpack_u32 (read_at file (offset + 4) 20) 8 = Ok mt /\
              ~ (0 <= mt + delta_sec <= 4294967295)) ->
  mp4_hit file box_type delta_sec offset = Raise StructError.
Proof.
  intros Ev Hv Ect Hyear Hout. unfold mp4_hit.
  rewrite Ev. cbn [bind]. rewrite Hv. cbn [Z.eqb negb].
  rewrite Ect. cbn [bind].
  destruct (Z.leb_spec 2000 (fromtimestamp_year (ct - _MP4_EPOCH_OFFSET)));
    [|lia].
  destruct (Z.leb_spec (fromtimestamp_year (ct - _MP4_EPOCH_OFFSET)) 2099);
    [|lia].
  cbn [andb negb for_each mp4_field]. rewrite Ect. cbn [bind].
  destruct (pack_u32_ok ct) as [old Eold];
    [eapply unpack_u32_range; eauto|].
  rewrite Eold. cbn [bind].
  destruct (pack_u32 (ct + delta_sec)) as [new|e] eqn:Enew.
  2: { apply pack_u32_raises in Enew. subst. reflexivity. }
  cbn [bind].
  destruct Hout as [Hout|[mt [Emt Hout]]].
  { rewrite (pack_u32_out_of_range _ Hout) in Enew. discriminate. }
  rewrite Emt. cbn [bind].
  destruct (pack_u32_ok mt) as [old' Eold'];
    [eapply unpack_u32_range; eauto|].
  rewrite Eold'. cbn [bind].
  rewrite (pack_u32_out_of_range _ Hout). reflexivity.
Qed.

(** C9. An atom found by the scan, of version 0 and with a creation
    year from 2000 to 2099, one of whose two time fields leaves
    [0, 2^32 - 1] when the delta is added: building its replacement
    bytes raises [struct.error]; nothing catches it, so [patch_file]
    raises (that exception, or the one of an atom met before it) and
    the loop of [main] ends there, the remaining files unprocessed. *)
Theorem atom_shift_out_of_range_aborts
        (file : bytes) (wrong_str correct_str : string) (dry_run : bool)
        (wrong_ts correct_ts : Z) (wrong_dt correct_dt : datetime)
        (box_type : bytes) (offset : Z) (version : byte) (ct : Z) :
  py_int wrong_str = Ok wrong_ts ->
  py_int correct_str = Ok correct_ts ->
  _parse_ts wrong_str = Ok wrong_dt ->
  _parse_ts correct_str = Ok correct_dt ->
  In box_type box_types ->
  In offset (_find_pattern file box_type) ->
  first_byte (read_at file (offset + 4) 20) = Ok version ->
  byte_val version = 0 ->
  unpack_u32 (read_at file (offset + 4) 20) 4 = Ok ct ->
  2000 <= fromtimestamp_year (ct - _MP4_EPOCH_OFFSET) <= 2099 ->
  (~ (0 <= ct + (epoch_seconds correct_dt - epoch_seconds wrong_dt)
      <= 4294967295) \/
   exists mt,
     unpack_u32 (read_at file (offset + 4) 20) 8 = Ok mt /\
     ~ (0 <= mt + (epoch_seconds correct_dt - epoch_seconds wrong_dt)
        <= 4294967295)) ->
  mp4_hit file box_type
          (epoch_seconds correct_dt - epoch_seconds wrong_dt) offset
  = Raise StructError
  /\ exists e,
       (e = StructError \/ e = IndexError) /\
       patch_file file wrong_str correct_str dry_run = Raise e /\
       forall fs filepath files,
         fs_lookup fs filepath = Some file ->
         main_loop fs (filepath :: files) wrong_str correct_str dry_run
         = Raise e.
Proof.
  intros Ew Ec Ewd Ecd Hbox Hhit Ev Hv Ect Hyear Hout.
  set (delta_sec := epoch_seconds correct_dt - epoch_seconds wrong_dt) in *.
  assert (Hraise : mp4_hit file box_type delta_sec offset = Raise StructError)
    by (eapply mp4_hit_out_of_range; eauto).
  split; [exact Hraise|].
  destruct (for_each_raises (mp4_hit file box_type delta_sec) atom_exn
              (_find_pattern file box_type)
              (fun x e _ H => mp4_hit_raises _ _ _ _ _ H)
              offset StructError Hhit Hraise) as [e1 [He1 _]].
  destruct (for_each_raises
              (fun bt => for_each (_find_pattern file bt)
                                  (mp4_hit file bt delta_sec))
              atom_exn box_types) with (x := box_type) (e := e1)
    as [e [He Pe]]; auto.
  { intros bt e0 _ H. apply for_each_raise_inv in H.
    destruct H as [o [_ H]]. eapply mp4_hit_raises; eauto. }
  exists e. split; [exact Pe|].
  assert (Epf : patch_file file wrong_str correct_str dry_run = Raise e).
  { unfold patch_file, plan_patches. rewrite Ew, Ec. simpl bind.
    rewrite Ewd, Ecd. simpl bind. fold delta_sec.
    unfold mp4_patches. rewrite He. reflexivity. }
  split; [exact Epf|].
  intros fs filepath files Hl. cbn [main_loop]. rewrite Hl, Epf. reflexivity.
Qed.

Lemma atom_shift_out_of_range_aborts_witness :
  mp4_hit mvhd_example_file (list_byte_of_string "mvhd")
          (epoch_seconds (mkDatetime 2099 12 31 23 59 59)
           - epoch_seconds (mkDatetime 2026 1 3 19 46 56)) 0
  = Raise StructError
  /\ exists e,
       (e = StructError \/ e = IndexError) /\
       patch_file mvhd_example_file "20260103194656" "20991231235959" false
       = Raise e /\
       forall fs filepath files,
         fs_lookup fs filepath = Some mvhd_example_file ->
         main_loop fs (filepath :: files)
                   "20260103194656" "20991231235959" false
         = Raise e.
Proof.
  apply (atom_shift_out_of_range_aborts
           mvhd_example_file "20260103194656" "20991231235959" false
           20260103194656 20991231235959
           (mkDatetime 2026 1 3 19 46 56) (mkDatetime 2099 12 31 23 59 59)
           (list_byte_of_string "mvhd") 0 x00 3850385920).
  - reflexivity.
  - reflexivity.
  - reflexivity.
  - reflexivity.
  - left. reflexivity.
  - vm_compute. left. reflexivity.
  - reflexivity.
  - reflexivity.
  - reflexivity.
  - vm_compute. split; discriminate.
  - left. vm_compute. intros [_ H]. apply H. reflexivity.
Defined.

(** The modification field is shifted as it is found: with a creation
    field that stays in range and a modification field of ffffffff, a
    delta of some 42 days raises as well. *)
Example modification_field_out_of_range :
  patch_file mvhd_odd_modification_file
             "20260103194656" "20260215143800" false
  = Raise StructError.
Proof. vm_compute. reflexivity. Qed.

(** The same run by evaluation: the exception is [struct.error]. *)
Example atom_shift_out_of_range_example :
  patch_file mvhd_example_file "20260103194656" "20991231235959" false
  = Raise StructError.
Proof. vm_compute. reflexivity. Qed.

(** ** The patterns of a plan *)

Lemma encode_ascii_chars_length (cs : list ascii) :
  forall bs, encode_ascii_chars cs = Ok bs -> List.length bs = List.length cs.
Proof.
  induction cs as [|c cs IH]; simpl; intros bs H.
  - now inversion H.
  - destruct (code c <? 128); [|discriminate].
    apply bind_Ok in H. destruct H as [bs' [E H]]. inversion H. simpl.
    now rewrite (IH bs').
Qed.

Lemma list_ascii_of_string_app (s t : string) :
  list_ascii_of_string (s ++ t)
  = list_ascii_of_string s ++ list_ascii_of_string t.
Proof. induction s as [|c s IH]; simpl; [reflexivity|now rewrite IH]. Qed.

Lemma encode_ascii_joined_nonempty (date time : string) (bs : bytes) :
  encode_ascii (date ++ "_" ++ time) = Ok bs -> bs <> [].
Proof.
  unfold encode_ascii. intros H ->.
  apply encode_ascii_chars_length in H.
  rewrite !list_ascii_of_string_app, !length_app in H. simpl in H. lia.
Qed.

Lemma parsed_date_nonempty (ts_str : string) (dt : datetime) :
  _parse_ts ts_str = Ok dt -> encode_utf16le (str_slice 0 8 ts_str) <> [].
Proof.
  unfold _parse_ts. intro H. apply bind_Ok in H. destruct H as [y [Ey _]].
  unfold encode_utf16le, str_slice in *.
  rewrite list_ascii_of_string_of_list_ascii.
  destruct (list_ascii_of_string ts_str) as [|c cs]; [discriminate|].
  simpl. discriminate.
Qed.

(** ** A second run on a file with an atom *)

(** C1, the counterexample.  A file with an [mvhd] atom.  The first run
    shifts its two time fields by the delta; the second run, with the
    same pair, finds the atom again, its creation year still 2026, and
    shifts the two fields once more: two candidates, not zero, and the
    file changes again. *)
Lemma second_run_patches_atoms_again :
  patch_file mvhd_example_file "20260103194656" "20260215143800" false
  = Ok (true, mvhd_example_once,
        [MsgCandidate "mvhd.creation" 8;
         MsgCandidate "mvhd.modification" 12; MsgApplied 2])
  /\ plan_patches mvhd_example_once "20260103194656" "20260215143800"
     = Ok (Patches
             [mkPatch "mvhd.creation" 8
                      [xe5; xb8; xa2; x18] [xe5; xf1; x0a; x30];
              mkPatch "mvhd.modification" 12
                      [xe5; xb8; xa2; x18] [xe5; xf1; x0a; x30]])
  /\ patch_file mvhd_example_once "20260103194656" "20260215143800" false
     = Ok (true, mvhd_example_twice,
           [MsgCandidate "mvhd.creation" 8;
            MsgCandidate "mvhd.modification" 12; MsgApplied 2]).
Proof. vm_compute. repeat split. Qed.

(** * Further properties *)

(** ** More on the varint codec *)

(** X1. The decoder stops at the end of a varint: whatever bytes follow
    the encoding of a non-negative integer, decoding from position 0
    returns the integer and the length of the encoding. *)
Theorem decode_ignores_trailing_bytes (v : Z) (tail : bytes) :
  0 <= v ->
  exists bs, _encode_varint v = Ok bs /\
             _decode_varint (bs ++ tail) 0 = Ok (v, List.length bs).
Proof.
  intro Hv. destruct (encode_varint_decodes v Hv) as (bs & E & _ & Hdec).
  exists bs. split; [exact E|apply Hdec].
Qed.

Lemma decode_ignores_trailing_bytes_witness :
  exists bs, _encode_varint 300 = Ok bs /\
             _decode_varint (bs ++ [xff; x00]) 0 = Ok (300, List.length bs).
Proof. apply (decode_ignores_trailing_bytes 300 [xff; x00]). lia. Defined.

Lemma decode_loop_result (rest : bytes) :
  forall res shift pos,
    0 <= res -> 0 <= shift ->
    match decode_loop rest res shift pos with
    | Ok (v, n) =>
        0 <= v /\ (pos < n <= pos + List.length rest)%nat /\
        forallb continues (firstn (n - pos - 1) rest) = true /\
        exists b, nth_error rest (n - pos - 1) = Some b /\ continues b = false
    | Raise e => e = IndexError /\ forallb continues rest = true
    end.
Proof.
  induction rest as [|b rest IH]; intros res shift pos Hres Hshift.
  - simpl. auto.
  - cbn [decode_loop].
    assert (Hacc : 0 <= Z.lor res (Z.shiftl (Z.land (byte_val b) 127) shift)).
    { apply Z.lor_nonneg. split; [exact Hres|].
      apply Z.shiftl_nonneg. apply Z.land_nonneg. right. lia. }
    assert (Hc : continues b = negb (Z.land (byte_val b) 128 =? 0))
      by reflexivity.
    destruct (Z.land (byte_val b) 128 =? 0) eqn:E; simpl negb in Hc.
    + split; [exact Hacc|]. split; [simpl; lia|].
      replace (S pos - pos - 1)%nat with O by lia. simpl.
      split; [reflexivity|]. exists b. auto.
    + specialize (IH _ (shift + 7) (S pos) Hacc ltac:(lia)).
      destruct (decode_loop rest _ (shift + 7) (S pos)) as [[v n]|e].
      * destruct IH as (Hv & Hn & Hall & b' & Hb' & Hc').
        split; [exact Hv|]. split; [simpl; lia|].
        replace (n - pos - 1)%nat with (S (n - S pos - 1)) by lia.
        cbn [firstn forallb nth_error]. rewrite Hc.
        split; [exact Hall|]. exists b'. auto.
      * destruct IH as [-> Hall]. split; [reflexivity|].
        cbn [forallb]. now rewrite Hc.
Qed.

Lemma decode_varint_bounds (data : bytes) (pos : nat) (v : Z) (n : nat) :
  _decode_varint data pos = Ok (v, n) ->
  0 <= v /\ (pos < n <= List.length data)%nat.
Proof.
  unfold _decode_varint. intro E.
  pose proof (decode_loop_result (skipn pos data) 0 0 pos) as H.
  specialize (H ltac:(lia) ltac:(lia)). rewrite E in H.
  destruct H as (Hv & Hn & _). rewrite length_skipn in Hn.
  split; [exact Hv|lia].
Qed.

(** X2. [_decode_varint] fails exactly when it runs out of bytes: it
    raises [IndexError], and nothing else, if and only if every byte
    from [pos] on (none, at the end of the data) has the continuation
    bit set. *)
Theorem decode_varint_fails_iff_unterminated (data : bytes) (pos : nat) :
  (forall e, _decode_varint data pos = Raise e -> e = IndexError) /\
  (_decode_varint data pos = Raise IndexError
   <-> forallb continues (skipn pos data) = true).
Proof.
  unfold _decode_varint.
  pose proof (decode_loop_result (skipn pos data) 0 0 pos) as H.
  specialize (H ltac:(lia) ltac:(lia)).
  destruct (decode_loop (skipn pos data) 0 0 pos) as [[v n]|e].
  - split; [discriminate|]. split; [discriminate|].
    destruct H as (_ & _ & _ & b & Hb & Hc). intro Hall.
    rewrite forallb_forall in Hall. apply nth_error_In in Hb.
    rewrite (Hall b Hb) in Hc. discriminate.
  - destruct H as [-> Hall]. split; [intros e H; congruence|]. tauto.
Qed.

(** X3. What a successful decode returns: a non-negative value and a
    new position after [pos] and within the data, reached at the first
    byte from [pos] on without the continuation bit. *)
Theorem decode_varint_stops_at_first_terminator
        (data : bytes) (pos : nat) (v : Z) (n : nat) :
  _decode_varint data pos = Ok (v, n) ->
  0 <= v /\ (pos < n <= List.length data)%nat /\
  forallb continues (firstn (n - pos - 1) (skipn pos data)) = true /\
  exists b, nth_error data (n - 1) = Some b /\ continues b = false.
Proof.
  unfold _decode_varint. intro E.
  pose proof (decode_loop_result (skipn pos data) 0 0 pos) as H.
  specialize (H ltac:(lia) ltac:(lia)). rewrite E in H.
  destruct H as (Hv & Hn & Hall & b & Hb & Hc).
  rewrite length_skipn in Hn.
  split; [exact Hv|]. split; [lia|]. split; [exact Hall|].
  exists b. split; [|exact Hc].
  rewrite nth_error_skipn in Hb.
  replace (pos + (n - pos - 1))%nat with (n - 1)%nat in Hb by lia. exact Hb.
Qed.

Lemma decode_varint_stops_at_first_terminator_witness :
  0 <= 300 /\ (0 < 2 <= List.length [xac; x02; xff])%nat /\
  forallb continues (firstn (2 - 0 - 1) (skipn 0 [xac; x02; xff])) = true /\
  exists b, nth_error [xac; x02; xff] (2 - 1) = Some b /\ continues b = false.
Proof.
  apply (decode_varint_stops_at_first_terminator [xac; x02; xff] 0 300 2).
  reflexivity.
Defined.

Lemma encode_varint_of_negative (v : Z) :
  v < 0 -> _encode_varint v = Raise ValueError.
Proof.
  intro Hv. unfold _encode_varint, encode_fuel.
  replace (Z.log2 v) with 0 by (symmetry; apply Z.log2_nonpos; lia).
  simpl. unfold byte_of_Z.
  destruct (Z.leb_spec 0 v); [lia|reflexivity].
Qed.

Lemma encode_varint_ok_nonneg (v : Z) (bs : bytes) :
  _encode_varint v = Ok bs -> 0 <= v.
Proof.
  intro E. destruct (Z_lt_le_dec v 0) as [Hlt|Hle]; [|exact Hle].
  rewrite (encode_varint_of_negative v Hlt) in E. discriminate.
Qed.

(** X4. [_encode_varint] succeeds exactly on the non-negative integers;
    on a negative one the conversion to [bytes] raises [ValueError]. *)
Theorem encode_varint_negative (v : Z) :
  ((exists bs, _encode_varint v = Ok bs) <-> 0 <= v) /\
  (v < 0 -> _encode_varint v = Raise ValueError).
Proof.
  split; [|apply encode_varint_of_negative]. split.
  - intros [bs E]. eapply encode_varint_ok_nonneg; eauto.
  - intro Hv. destruct (encode_varint_decodes v Hv) as [bs [E _]]. eauto.
Qed.

(** X5. The length of a varint: a value of [k] full groups of seven
    bits and part of another, [2^(7k) <= v < 2^(7(k+1))], is encoded in
    [k + 1] bytes; so is zero, in one byte. *)
Theorem encode_varint_length (v : Z) (k : nat) :
  0 <= v < 2 ^ (7 * (Z.of_nat k + 1)) ->
  (k = O \/ 2 ^ (7 * Z.of_nat k) <= v) ->
  exists bs, _encode_varint v = Ok bs /\ List.length bs = S k.
Proof.
  intros [Hlo Hhi] Hk.
  destruct (encode_varint_decodes v Hlo) as [bs [Henc _]].
  exists bs. split; [exact Henc|].
  unfold _encode_varint in Henc. apply py_bytes_length in Henc.
  rewrite Henc.
  destruct Hk as [->|Hk].
  - change (2 ^ (7 * (Z.of_nat 0 + 1))) with 128 in Hhi.
    destruct (encode_fuel v); simpl; [reflexivity|].
    destruct (Z.gtb_spec v 127); [lia|reflexivity].
  - assert (Hfuel : (k <= encode_fuel v)%nat).
    { unfold encode_fuel.
      assert (0 < v) by (pose proof (Z.pow_pos_nonneg 2 (7 * Z.of_nat k)); lia).
      assert (7 * Z.of_nat k <= Z.log2 v) by (apply Z.log2_le_pow2; lia).
      lia. }
    replace (encode_fuel v) with (k + (encode_fuel v - k))%nat by lia.
    rewrite encode_loop_fuel by lia.
    rewrite encode_loop_length by exact Hk. simpl. lia.
Qed.

Lemma encode_varint_length_witness :
  exists bs, _encode_varint 1767469616000 = Ok bs /\ List.length bs = 6%nat.
Proof.
  apply (encode_varint_length 1767469616000 5).
  - split; [lia|]. vm_compute. reflexivity.
  - right. vm_compute. discriminate.
Defined.

(** ** The fixed-width fields *)

Lemma byte_of_Z_val (b : byte) : byte_of_Z (byte_val b) = Ok b.
Proof.
  unfold byte_of_Z. pose proof (byte_val_range b) as R.
  destruct (Z.leb_spec 0 (byte_val b)); [|lia].
  destruct (Z.ltb_spec (byte_val b) 256); [|lia]. simpl.
  unfold byte_val. rewrite N2Z.id, Byte.of_to_N. reflexivity.
Qed.

Lemma byte_of_Z_inv (v : Z) (b : byte) :
  byte_of_Z v = Ok b -> byte_val b = v /\ 0 <= v < 256.
Proof.
  unfold byte_of_Z.
  destruct (Z.leb_spec 0 v) as [Hlo|]; [|discriminate].
  destruct (Z.ltb_spec v 256) as [Hhi|]; [|discriminate]. simpl.
  destruct (Byte.of_N (Z.to_N v)) eqn:E; [|discriminate].
  intro Hb. inversion Hb. subst. apply Byte.to_of_N in E.
  unfold byte_val. rewrite E. lia.
Qed.

Lemma pack_u32_unpack (v : Z) (bs : bytes) :
  pack_u32 v = Ok bs -> len bs = 4 /\ unpack_u32 bs 0 = Ok v.
Proof.
  intro H. unfold pack_u32 in H.
  destruct (Z.leb_spec 0 v) as [Rlo|]; [|discriminate].
  destruct (Z.leb_spec v 4294967295) as [Rhi|]; [|discriminate].
  simpl andb in H. cbv iota in H. cbn [py_bytes] in H.
  apply bind_Ok in H. destruct H as [b3 [E3 H]].
  apply bind_Ok in H. destruct H as [r3 [P3 H]].
  apply bind_Ok in P3. destruct P3 as [b2 [E2 P3]].
  apply bind_Ok in P3. destruct P3 as [r2 [P2 P3]].
  apply bind_Ok in P2. destruct P2 as [b1 [E1 P2]].
  apply bind_Ok in P2. destruct P2 as [r1 [P1 P2]].
  apply bind_Ok in P1. destruct P1 as [b0 [E0 P1]].
  cbn [bind] in P1. inversion P1; subst. inversion P2; subst.
  inversion P3; subst. inversion H; subst.
  apply byte_of_Z_inv in E3, E2, E1, E0.
  destruct E3 as [V3 _], E2 as [V2 _], E1 as [V1 _], E0 as [V0 _].
  split; [reflexivity|]. unfold unpack_u32.
  change (len [b3; b2; b1; b0] - 0 <? 4) with false. cbv iota.
  f_equal. unfold be_value.
  change (take 4 (drop 0 [b3; b2; b1; b0])) with [b3; b2; b1; b0].
  cbn [fold_left]. rewrite V3, V2, V1, V0.
  Z.div_mod_to_equations. lia.
Qed.

Lemma unpack_u32_pack (buf : bytes) (off v : Z) :
  0 <= off -> unpack_u32 buf off = Ok v ->
  pack_u32 v = Ok (read_at buf off 4).
Proof.
  intros Hoff H. unfold unpack_u32 in H.
  destruct (Z.ltb_spec (len buf - off) 4) as [|Hlen]; [discriminate|].
  inversion H. clear H. unfold read_at.
  assert (Hl : len (take 4 (drop off buf)) = 4)
    by (rewrite len_take, len_drop; lia).
  destruct (take 4 (drop off buf)) as [|a [|b [|c [|d [|x l]]]]];
    try (unfold len in Hl; simpl in Hl; lia).
  unfold be_value, pack_u32. cbn [fold_left].
  pose proof (byte_val_range a). pose proof (byte_val_range b).
  pose proof (byte_val_range c). pose proof (byte_val_range d).
  match goal with
  | |- context [?x / 16777216] => set (w := x) in *
  end.
  destruct (Z.leb_spec 0 w); [|lia].
  destruct (Z.leb_spec w 4294967295); [|lia].
  simpl andb. cbv iota.
  replace (w / 16777216) with (byte_val a)
    by (unfold w; Z.div_mod_to_equations; lia).
  replace ((w / 65536) mod 256) with (byte_val b)
    by (unfold w; Z.div_mod_to_equations; lia).
  replace ((w / 256) mod 256) with (byte_val c)
    by (unfold w; Z.div_mod_to_equations; lia).
  replace (w mod 256) with (byte_val d)
    by (unfold w; Z.div_mod_to_equations; lia).
  cbn [py_bytes]. rewrite !byte_of_Z_val. reflexivity.
Qed.

(** X6. [struct.pack(">I", v)] and [struct.unpack_from(">I", ...)] are
    inverse to each other: the four bytes packed from a value unpack to
    it, and the value unpacked from a buffer packs to the four bytes
    that were read. *)
Theorem pack_unpack_u32_roundtrip :
  (forall v bs, pack_u32 v = Ok bs ->
                len bs = 4 /\ unpack_u32 bs 0 = Ok v) /\
  (forall buf off v, 0 <= off -> unpack_u32 buf off = Ok v ->
                     pack_u32 v = Ok (read_at buf off 4)).
Proof.
  split.
  - intros v bs H. now apply pack_u32_unpack.
  - intros buf off v Hoff H. now apply unpack_u32_pack.
Qed.

(** ** The scanner on a file of one window *)

(** X7. On a file of at most one window (64 MiB) the scan is exact:
    for a non-empty pattern of any length, [_find_pattern] returns the
    offsets of the occurrences, all of them, in strictly ascending
    order, so each one once. *)
Theorem find_pattern_single_window (file pattern : bytes) :
  pattern <> [] -> len file <= _CHUNK_SIZE ->
  (forall o, In o (_find_pattern file pattern) <-> occurs_at file pattern o)
  /\ StronglySorted Z.lt (_find_pattern file pattern)
  /\ NoDup (_find_pattern file pattern).
Proof.
  intros Hne Hfit. unfold _find_pattern, find_pattern_chunked.
  rewrite scan_chunks_unfold by (auto using chunk_size_pos; lia).
  rewrite (take_all _CHUNK_SIZE file Hfit), (drop_all _CHUNK_SIZE file Hfit).
  destruct file as [|b file].
  { split; [|split; constructor]. intro o. split; [contradiction|].
    intros [H0 [Hb _]]. change (len (@nil byte)) with 0 in Hb.
    assert (0 < len pattern).
    { unfold len. destruct pattern; [contradiction|]. simpl. lia. }
    lia. }
  cbv zeta. cbn [List.length Nat.add scan_chunks take app].
  rewrite app_nil_r. change (len (@nil byte)) with 0.
  destruct (find_hits_spec (b :: file) pattern (0 - 0)
              (S (S (List.length (b :: file)))) 0) as [Hin Hsorted];
    [lia | unfold len; lia |].
  split; [|split].
  - intro o. rewrite Hin. split.
    + intros [o' [-> [_ Ho]]]. exact Ho.
    + intro Ho. exists o. split; [lia|]. split; [destruct Ho; lia|exact Ho].
  - exact Hsorted.
  - now apply sorted_lt_NoDup.
Qed.

Lemma find_pattern_single_window_witness :
  (forall o, In o (_find_pattern [x61; x61; x61] [x61; x61])
             <-> occurs_at [x61; x61; x61] [x61; x61] o)
  /\ StronglySorted Z.lt (_find_pattern [x61; x61; x61] [x61; x61])
  /\ NoDup (_find_pattern [x61; x61; x61] [x61; x61]).
Proof.
  apply (find_pattern_single_window [x61; x61; x61] [x61; x61]).
  - discriminate.
  - vm_compute. discriminate.
Defined.

(** ** Deduplication *)

Lemma key_eqb_eq (k1 k2 : Z * string) : key_eqb k1 k2 = true <-> k1 = k2.
Proof.
  destruct k1 as [o1 t1], k2 as [o2 t2]. unfold key_eqb. simpl.
  rewrite andb_true_iff, Z.eqb_eq, String.eqb_eq. split.
  - intros [-> ->]. reflexivity.
  - intro H. inversion H. auto.
Qed.

Lemma existsb_key (k : Z * string) (seen : list (Z * string)) :
  existsb (key_eqb k) seen = true <-> In k seen.
Proof.
  rewrite existsb_exists. split.
  - intros [x [Hx E]]. apply key_eqb_eq in E. now subst.
  - intro H. exists k. split; [exact H|]. now apply key_eqb_eq.
Qed.

Lemma dedup_keys (patches : list patch) :
  forall seen,
    NoDup (map patch_key (dedup seen patches)) /\
    (forall p, In p (dedup seen patches) -> ~ In (patch_key p) seen) /\
    (forall p, In p patches ->
               In (patch_key p) seen \/
               exists q, In q (dedup seen patches) /\
                         patch_key q = patch_key p).
Proof.
  induction patches as [|p patches IH]; intro seen.
  - simpl. split; [constructor|]. split; intros p [].
  - cbn [dedup]. fold (patch_key p).
    destruct (existsb (key_eqb (patch_key p)) seen) eqn:E.
    + apply existsb_key in E.
      destruct (IH seen) as (Hnd & Hnot & Hcov).
      split; [exact Hnd|]. split; [exact Hnot|].
      intros q [<-|Hq]; [now left|now apply Hcov].
    + assert (Hp : ~ In (patch_key p) seen).
      { intro H. apply existsb_key in H. congruence. }
      destruct (IH (patch_key p :: seen)) as (Hnd & Hnot & Hcov).
      split; [|split].
      * simpl. constructor; [|exact Hnd].
        intro H. apply in_map_iff in H. destruct H as [q [Hk Hq]].
        apply (Hnot q Hq). left. now symmetry.
      * intros q [<-|Hq]; [exact Hp|].
        intro H. apply (Hnot q Hq). now right.
      * intros q [<-|Hq].
        -- right. exists p. split; [now left|reflexivity].
        -- destruct (Hcov q Hq) as [[Hk|Hs]|[r [Hr Hk]]].
           ++ right. exists p. split; [now left|exact Hk].
           ++ now left.
           ++ right. exists r. split; [now right|exact Hk].
Qed.

(** X8. The deduplication of [patch_file] leaves exactly one patch for
    each [(offset, type)]: the kept patches have pairwise different
    keys, each of them is one of the candidates, and every candidate
    has a kept patch with its key. *)
Theorem dedup_unique_keys (patches : list patch) :
  NoDup (map patch_key (dedup [] patches)) /\
  (forall p, In p (dedup [] patches) -> In p patches) /\
  (forall p, In p patches ->
             exists q, In q (dedup [] patches) /\ patch_key q = patch_key p).
Proof.
  destruct (dedup_keys patches []) as (Hnd & _ & Hcov).
  split; [exact Hnd|]. split; [intros p; apply dedup_In|].
  intros p Hp. destruct (Hcov p Hp) as [[]|H]. exact H.
Qed.

(** ** Dry runs *)

Lemma dry_run_keeps_file (file : bytes) (wrong_str correct_str : string)
      (ok : bool) (file' : bytes) (out : list msg) :
  patch_file file wrong_str correct_str true = Ok (ok, file', out) ->
  file' = file /\
  (ok = true <-> exists p ps,
      plan_patches file wrong_str correct_str = Ok (Patches (p :: ps))).
Proof.
  unfold patch_file. intro H. apply bind_Ok in H.
  destruct H as [pl [Hpl H]]. rewrite Hpl.
  destruct pl as [wl cl|[|p ps]]; inversion H; subst;
    (split; [reflexivity|]).
  - split; [discriminate|]. intros (p & ps & E). discriminate.
  - split; [discriminate|]. intros (p & ps & E). discriminate.
  - split; [|reflexivity]. intros _. eauto.
Qed.

(** The loop of [main] in a dry run leaves every file as it was. *)
Lemma main_loop_dry_run (files : list string) :
  forall fs wrong_str correct_str fs' out,
    main_loop fs files wrong_str correct_str true = Ok (fs', out) ->
    fs' = fs.
Proof.
  induction files as [|filepath files IH];
    intros fs wrong_str correct_str fs' out H.
  - simpl in H. now inversion H.
  - cbn [main_loop] in H.
    destruct (fs_lookup fs filepath) as [content|] eqn:El.
    + apply bind_Ok in H. destruct H as [[[success content'] out1] [Ep H]].
      apply dry_run_keeps_file in Ep. destruct Ep as [-> _].
      rewrite (fs_store_same _ _ _ El) in H.
      apply bind_Ok in H. destruct H as [[fs2 out2] [Er H]].
      inversion H; subst. eapply IH; eauto.
    + apply bind_Ok in H. destruct H as [[fs2 out2] [Er H]].
      inversion H; subst. eapply IH; eauto.
Qed.

(** X9. A dry run writes nothing: [patch_file] with [dry_run] returns
    the file as it was, with the flag true exactly when the plan has a
    candidate; and the loop of [main] over any list of files leaves
    every file of the file system as it was. *)
Theorem dry_run_writes_nothing :
  (forall file wrong_str correct_str ok file' out,
      patch_file file wrong_str correct_str true = Ok (ok, file', out) ->
      file' = file /\
      (ok = true <-> exists p ps,
          plan_patches file wrong_str correct_str = Ok (Patches (p :: ps))))
  /\ (forall files fs wrong_str correct_str fs' out,
         main_loop fs files wrong_str correct_str true = Ok (fs', out) ->
         fs' = fs).
Proof.
  split; [intros; eapply dry_run_keeps_file; eauto|].
  intros files fs wrong_str correct_str fs' out H.
  eapply main_loop_dry_run; eauto.
Qed.

(** ** What the candidates of a plan are *)

Lemma read_at_read_at (file : bytes) (a n b m : Z) :
  0 <= a -> 0 <= b -> b + m <= n ->
  read_at (read_at file a n) b m = read_at file (a + b) m.
Proof.
  intros Ha Hb Hbm. unfold read_at.
  rewrite <- (drop_drop b a file) by lia.
  rewrite !take_firstn, !drop_skipn.
  rewrite skipn_firstn_comm, firstn_firstn. f_equal. lia.
Qed.

Lemma read_at_split (file a b : bytes) (o : Z) :
  0 <= o -> read_at file o (len (a ++ b)) = a ++ b ->
  read_at file o (len a) = a /\ read_at file (o + len a) (len b) = b.
Proof.
  intros Ho H. unfold read_at in *.
  pose proof (take_drop (len (a ++ b)) (drop o file)) as Hsplit.
  rewrite H, <- app_assoc in Hsplit.
  pose proof (len_nonneg a). split.
  - rewrite <- Hsplit. apply take_app_exact.
  - rewrite <- (drop_drop (len a) o file) by lia.
    rewrite <- Hsplit. rewrite drop_app_exact. apply take_app_exact.
Qed.

Lemma hit_nonneg (file pattern : bytes) (o : Z) :
  pattern <> [] -> In o (_find_pattern file pattern) ->
  0 <= o /\ read_at file o (len pattern) = pattern.
Proof.
  intros Hne Hin.
  destruct (find_pattern_spec file pattern Hne) as [Hsound _].
  destruct (Hsound o Hin) as (H0 & _ & Hr). auto.
Qed.

(** A patch of the MP4 atom stage. *)
Lemma mp4_patches_In (file : bytes) (delta_sec : Z)
      (atoms : list patch) (p : patch) :
  mp4_patches file delta_sec = Ok atoms -> In p atoms ->
  exists box_type offset field_off val,
    In box_type box_types /\
    In offset (_find_pattern file box_type) /\
    (field_off = 4 \/ field_off = 8) /\
    p_offset p = offset + 4 + field_off /\
    unpack_u32 (read_at file (offset + 4) 20) field_off = Ok val /\
    pack_u32 val = Ok (p_old p) /\
    pack_u32 (val + delta_sec) = Ok (p_new p).
Proof.
  unfold mp4_patches. intros H Hp.
  destruct (for_each_In _ _ _ _ H Hp) as [box [qs [Hbox [Hb Hq]]]].
  destruct (for_each_In _ _ _ _ Hb Hq) as [offset [rs [Hhit [Hh Hr]]]].
  exists box, offset. unfold mp4_hit in Hh.
  apply bind_Ok in Hh. destruct Hh as [version [_ Hh]].
  destruct (negb (byte_val version =? 0)).
  { inversion Hh; subst. contradiction. }
  apply bind_Ok in Hh. destruct Hh as [ct [_ Hh]].
  destruct (negb _).
  { inversion Hh; subst. contradiction. }
  destruct (for_each_In _ _ _ _ Hh Hr) as [[field_off name] [ps [Hf [Hm Hps]]]].
  unfold mp4_field in Hm.
  apply bind_Ok in Hm. destruct Hm as [val [Eval Hm]].
  apply bind_Ok in Hm. destruct Hm as [old [Eold Hm]].
  apply bind_Ok in Hm. destruct Hm as [new [Enew Hm]].
  inversion Hm; subst. destruct Hps as [<-|[]].
  exists field_off, val. simpl.
  repeat split; auto.
  destruct Hf as [Hf|[Hf|[]]]; inversion Hf; auto.
Qed.

Lemma box_type_nonempty (box_type : bytes) :
  In box_type box_types -> box_type <> [].
Proof.
  unfold box_types. intros [<-|[<-|[<-|[]]]]; discriminate.
Qed.

Lemma atom_verifies (file : bytes) (delta_sec : Z)
      (atoms : list patch) (p : patch) :
  mp4_patches file delta_sec = Ok atoms -> In p atoms ->
  verifies file p /\ len (p_old p) = 4 /\ len (p_new p) = 4.
Proof.
  intros H Hp.
  destruct (mp4_patches_In _ _ _ _ H Hp)
    as (box & offset & field_off & val & Hbox & Hhit & Hf & Ho & Eval
        & Eold & Enew).
  destruct (hit_nonneg _ _ _ (box_type_nonempty _ Hbox) Hhit) as [Hoff _].
  destruct (pack_u32_unpack _ _ Eold) as [Lold _].
  destruct (pack_u32_unpack _ _ Enew) as [Lnew _].
  assert (Hfo : 0 <= field_off) by (destruct Hf; lia).
  pose proof (unpack_u32_pack _ _ _ Hfo Eval) as Eread.
  rewrite Eold in Eread. inversion Eread as [Eq].
  assert (Hlen : field_off + 4 <= 20) by (destruct Hf; lia).
  rewrite read_at_read_at in Eq by lia.
  split; [|auto]. unfold verifies. rewrite Ho, Lold.
  split; [lia|]. split.
  - intro E. rewrite E in Lold. discriminate.
  - etransitivity; [|symmetry; exact Eq]. f_equal; lia.
Qed.

Lemma protobuf_verifies (file wv cv : bytes) (p : patch) :
  In p (protobuf_patches file wv cv) -> wv <> [] ->
  verifies file p /\ p_old p = wv /\ p_new p = cv.
Proof.
  unfold protobuf_patches. intros H Hne. apply in_map_iff in H.
  destruct H as [o [<- Hhit]]. simpl.
  destruct (hit_nonneg file (x38 :: wv) o) as [Ho Hr];
    [discriminate|exact Hhit|].
  split; [|auto]. unfold verifies. simpl.
  split; [lia|]. split; [exact Hne|].
  change (x38 :: wv) with ([x38] ++ wv) in Hr.
  apply read_at_split in Hr; [|exact Ho]. destruct Hr as [_ Hr]. exact Hr.
Qed.

Lemma ascii_verifies (file wa ca : bytes) (p : patch) :
  In p (ascii_patches file wa ca) -> wa <> [] ->
  verifies file p /\ p_old p = wa /\ p_new p = ca.
Proof.
  unfold ascii_patches. intros H Hne. apply in_map_iff in H.
  destruct H as [o [<- Hhit]]. simpl.
  destruct (hit_nonneg file wa o Hne Hhit) as [Ho Hr].
  split; [|auto]. unfold verifies. simpl. auto.
Qed.

Lemma utf16_verifies (file wrong_utf16 correct_utf16 : bytes)
      (wrong_time correct_time : string) (p : patch) :
  In p (utf16_patches file wrong_utf16 correct_utf16
                      wrong_time correct_time) ->
  wrong_utf16 <> [] ->
  (0 <= p_offset p /\
   read_at file (p_offset p) (len (p_old p)) = p_old p) /\
  ((p_old p = wrong_utf16 /\ p_new p = correct_utf16) \/
   (p_old p = encode_utf16le wrong_time /\
    p_new p = encode_utf16le correct_time)).
Proof.
  unfold utf16_patches. intros H Hne. apply in_flat_map in H.
  destruct H as [o [Hhit Hp]].
  destruct (hit_nonneg file wrong_utf16 o Hne Hhit) as [Ho Hr].
  unfold utf16_hit in Hp.
  destruct (negb _ && negb _); [contradiction|].
  destruct Hp as [<-|Hp]; simpl; [auto|].
  destruct (bytes_eqb _ _) eqn:E; [|contradiction].
  destruct Hp as [<-|[]]. simpl. apply bytes_eqb_eq in E.
  split; [split; [lia|exact E]|auto].
Qed.

Lemma gps_verifies (file : bytes) (wrong_epoch_ms delta_ms : Z)
      (gps : list patch) (p : patch) :
  gps_patches file wrong_epoch_ms delta_ms = Ok gps -> In p gps ->
  verifies file p /\ len (p_old p) = len (p_new p).
Proof.
  intros H Hp.
  destruct (gps_patches_In _ _ _ _ _ H Hp)
    as (_ & Hhit & val & vend & Hdec & _ & _ & Hold & _ & Hlen).
  split; [|exact Hlen].
  destruct (hit_nonneg file [xa0; x02] _ ltac:(discriminate) Hhit)
    as [Ho _].
  destruct (decode_varint_bounds _ _ _ _ Hdec) as (_ & Hn).
  set (buf := read_at file (p_offset p) 10) in *.
  assert (Lold : List.length (p_old p) = vend)
    by (rewrite Hold, length_firstn; lia).
  unfold verifies. split; [lia|]. split.
  - intro E. rewrite E in Lold. simpl in Lold. lia.
  - unfold len. rewrite Lold, Hold. unfold buf, read_at.
    rewrite !take_firstn, Nat2Z.id, firstn_firstn.
    f_equal. unfold buf, read_at in Hn.
    rewrite take_firstn, length_firstn in Hn.
    change (Z.to_nat 10) with 10%nat in *. lia.
Qed.

Lemma encode_varint_nonempty (v : Z) (bs : bytes) :
  _encode_varint v = Ok bs -> bs <> [].
Proof.
  intros H ->. pose proof (encode_varint_ok_nonneg _ _ H) as Hv.
  destruct (encode_decode_loop (encode_fuel v) v) as [bs [Hbs [Hne _]]].
  { split; [exact Hv|]. now apply encode_fuel_enough. }
  unfold _encode_varint in H. congruence.
Qed.

Lemma candidate_verifies
      (file : bytes) (wrong_str correct_str : string)
      (patches : list patch) (p : patch) :
  plan_patches file wrong_str correct_str = Ok (Patches patches) ->
  In p patches ->
  verifies file p.
Proof.
  intros Hplan Hp.
  destruct (plan_patches_inv _ _ _ _ Hplan)
    as (wrong_ts & correct_ts & wrong_dt & correct_dt & atoms & wv & cv
        & gps & wa & ca & _ & _ & Ewd & _ & Eatoms & Ewv & _ & _ & Egps
        & Ewa & _ & ->).
  apply dedup_In in Hp.
  repeat (apply in_app_or in Hp; destruct Hp as [Hp|Hp]).
  - now apply (atom_verifies _ _ _ _ Eatoms).
  - apply protobuf_verifies in Hp; [tauto|].
    eapply encode_varint_nonempty; eauto.
  - now apply (gps_verifies _ _ _ _ _ Egps).
  - apply ascii_verifies in Hp; [tauto|].
    eapply encode_ascii_joined_nonempty; eauto.
  - pose proof (parsed_date_nonempty _ _ Ewd) as Hne.
    assert (Htime : _parse_ts wrong_str = Ok wrong_dt) by exact Ewd.
    apply utf16_verifies in Hp; [|exact Hne].
    destruct Hp as [[Ho Hr] Hold]. unfold verifies.
    split; [exact Ho|]. split; [|exact Hr].
    destruct Hold as [[-> _]|[-> _]]; [exact Hne|].
    (* the time part is not empty: the seconds were parsed from it *)
    unfold _parse_ts in Htime.
    repeat (apply bind_Ok in Htime; destruct Htime as [? [? Htime]]).
    match goal with
    | E : py_int (str_slice 12 14 wrong_str) = Ok _ |- _ => rename E into Es
    end.
    unfold encode_utf16le, str_from, str_slice in *.
    rewrite list_ascii_of_string_of_list_ascii in *.
    destruct (skipn 12 (list_ascii_of_string wrong_str)) as [|c cs] eqn:E12.
    { discriminate. }
    assert (E8 : skipn 4 (skipn 8 (list_ascii_of_string wrong_str))
                 = c :: cs) by (rewrite skipn_skipn; exact E12).
    destruct (skipn 8 (list_ascii_of_string wrong_str)) as [|d ds].
    { rewrite skipn_nil in E8. discriminate. }
    simpl. discriminate.
Qed.

(** X10. Every candidate of a plan is taken from the file: its offset
    is not negative, its expected old bytes are not empty, and they are
    the bytes of the file at that offset, so its verification succeeds
    as long as no earlier write has changed them. *)
Theorem plan_candidates_verify
        (file : bytes) (wrong_str correct_str : string)
        (patches : list patch) :
  plan_patches file wrong_str correct_str = Ok (Patches patches) ->
  Forall (verifies file) patches.
Proof.
  intro Hplan. apply Forall_forall. intros p Hp.
  eapply candidate_verifies; eauto.
Qed.

Lemma plan_candidates_verify_witness :
  Forall (verifies gps_example_file)
         [mkPatch "first_gps_timestamp" 2
                  [x80; x97; x98; xab; xb8; x33]
                  [xc0; xd2; xf2; x8d; xc6; x33]].
Proof.
  apply (plan_candidates_verify
           gps_example_file "20260103194656" "20260215143800").
  vm_compute. reflexivity.
Defined.

(** ** Lengths *)

Lemma length_list_ascii_of_string (s : string) :
  List.length (list_ascii_of_string s) = String.length s.
Proof. induction s as [|c s IH]; simpl; [reflexivity|now rewrite IH]. Qed.

Lemma encode_utf16le_chars_length (cs : list ascii) :
  List.length (encode_utf16le_chars cs) = (2 * List.length cs)%nat.
Proof. induction cs as [|c cs IH]; simpl; [reflexivity|rewrite IH; lia]. Qed.

Lemma joined_ascii_length (ts_str : string) (bs : bytes) :
  encode_ascii (str_slice 0 8 ts_str ++ "_" ++ str_from 8 ts_str) = Ok bs ->
  List.length bs = S (String.length ts_str).
Proof.
  unfold encode_ascii. intro H. apply encode_ascii_chars_length in H.
  rewrite H. unfold str_slice, str_from.
  rewrite !list_ascii_of_string_app, !list_ascii_of_string_of_list_ascii.
  rewrite <- (length_list_ascii_of_string ts_str).
  change (8 - 0)%nat with 8%nat. change (skipn 0 ?l) with l.
  rewrite !length_app, length_firstn, length_skipn.
  change (List.length (list_ascii_of_string "_")) with 1%nat. lia.
Qed.

Lemma candidate_keeps_length
      (file : bytes) (wrong_str correct_str : string)
      (patches : list patch) (p : patch) :
  plan_patches file wrong_str correct_str = Ok (Patches patches) ->
  String.length wrong_str = String.length correct_str ->
  In p patches ->
  len (p_old p) = len (p_new p).
Proof.
  intros Hplan Hlen Hp.
  destruct (plan_patches_inv _ _ _ _ Hplan)
    as (wrong_ts & correct_ts & wrong_dt & correct_dt & atoms & wv & cv
        & gps & wa & ca & _ & _ & Ewd & _ & Eatoms & Ewv & _ & Evlen & Egps
        & Ewa & Eca & ->).
  assert (Hl : List.length (list_ascii_of_string wrong_str)
               = List.length (list_ascii_of_string correct_str))
    by now rewrite !length_list_ascii_of_string.
  apply dedup_In in Hp.
  repeat (apply in_app_or in Hp; destruct Hp as [Hp|Hp]).
  - destruct (atom_verifies _ _ _ _ Eatoms Hp) as (_ & -> & ->).
    reflexivity.
  - apply protobuf_verifies in Hp;
      [|eapply encode_varint_nonempty; eauto].
    destruct Hp as (_ & -> & ->). exact Evlen.
  - now apply (gps_verifies _ _ _ _ _ Egps).
  - apply ascii_verifies in Hp;
      [|eapply encode_ascii_joined_nonempty; eauto].
    destruct Hp as (_ & -> & ->).
    apply joined_ascii_length in Ewa, Eca. unfold len. lia.
  - apply utf16_verifies in Hp; [|eapply parsed_date_nonempty; eauto].
    destruct Hp as [_ [[-> ->]|[-> ->]]];
      unfold len, encode_utf16le, str_slice, str_from;
      rewrite !encode_utf16le_chars_length,
        !list_ascii_of_string_of_list_ascii;
      rewrite ?length_firstn, ?length_skipn; lia.
Qed.

(** X11. In-place patching: when the wrong and the correct timestamp
    string have the same length (as two validated timestamps have),
    every candidate of a plan replaces its old bytes by as many new
    bytes. *)
Theorem candidates_keep_length
        (file : bytes) (wrong_str correct_str : string)
        (patches : list patch) :
  plan_patches file wrong_str correct_str = Ok (Patches patches) ->
  String.length wrong_str = String.length correct_str ->
  Forall (fun p => len (p_old p) = len (p_new p)) patches.
Proof.
  intros Hplan Hlen. apply Forall_forall. intros p Hp.
  eapply candidate_keeps_length; eauto.
Qed.

Lemma candidates_keep_length_witness :
  Forall (fun p => len (p_old p) = len (p_new p))
         [mkPatch "first_gps_timestamp" 2
                  [x80; x97; x98; xab; xb8; x33]
                  [xc0; xd2; xf2; x8d; xc6; x33]].
Proof.
  apply (candidates_keep_length
           gps_example_file "20260103194656" "20260215143800").
  - vm_compute. reflexivity.
  - reflexivity.
Defined.

(** ** Writes *)

Lemma read_at_len (file : bytes) (off n : Z) :
  0 <= off -> 0 <= n ->
  len (read_at file off n) = Z.max 0 (Z.min n (len file - off)).
Proof.
  intros Ho Hn. unfold read_at. rewrite len_take, len_drop. lia.
Qed.

Lemma read_at_prefix (pre post : bytes) (a n : Z) :
  0 <= a -> 0 <= n -> a + n <= len pre ->
  read_at (pre ++ post) a n = read_at pre a n.
Proof.
  intros Ha Hn0 Hn. unfold read_at.
  rewrite drop_app_le by lia.
  apply take_app_le. rewrite len_drop. lia.
Qed.

Lemma read_at_suffix (pre post : bytes) (a n : Z) :
  len pre <= a ->
  read_at (pre ++ post) a n = read_at post (a - len pre) n.
Proof.
  intros Ha. unfold read_at. f_equal.
  replace a with (len pre + (a - len pre)) at 1 by lia.
  apply drop_app_ge. lia.
Qed.

(** A write inside the file, as parts of the file. *)
Lemma write_at_inside (file : bytes) (off : Z) (data : bytes) :
  0 <= off -> off + len data <= len file ->
  write_at file off data
  = take off file ++ data ++ drop (off + len data) file
  /\ file = take off file ++ read_at file off (len data)
            ++ drop (off + len data) file
  /\ len (take off file) = off
  /\ len (read_at file off (len data)) = len data
  /\ len (write_at file off data) = len file.
Proof.
  intros Ho Hin. pose proof (len_nonneg data) as Hd.
  assert (E : write_at file off data
              = take off file ++ data ++ drop (off + len data) file).
  { unfold write_at. replace (Z.to_nat (off - len file)) with O by lia.
    reflexivity. }
  assert (Lt : len (take off file) = off) by (rewrite len_take; lia).
  split; [exact E|]. split; [|split; [exact Lt|split]].
  - unfold read_at. rewrite <- (drop_drop (len data) off file) by lia.
    rewrite take_drop. symmetry. apply take_drop.
  - rewrite read_at_len by lia. lia.
  - rewrite E, !len_app, Lt, len_drop. lia.
Qed.

Lemma write_then_read (file : bytes) (off : Z) (data : bytes) :
  0 <= off -> off + len data <= len file ->
  read_at (write_at file off data) off (len data) = data.
Proof.
  intros Ho Hin. pose proof (len_nonneg data) as Hd.
  destruct (write_at_inside file off data Ho Hin) as (-> & _ & Lt & _).
  rewrite read_at_suffix by lia. rewrite Lt, Z.sub_diag.
  rewrite read_at_prefix by lia.
  unfold read_at. rewrite drop_0 by lia. apply take_all. lia.
Qed.

Lemma write_read_elsewhere (file : bytes) (off : Z) (data : bytes) (a n : Z) :
  0 <= off -> off + len data <= len file ->
  0 <= a -> 0 <= n ->
  a + n <= off \/ off + len data <= a ->
  read_at (write_at file off data) a n = read_at file a n.
Proof.
  intros Ho Hin Ha Hn Hout. pose proof (len_nonneg data) as Hd.
  destruct (write_at_inside file off data Ho Hin)
    as (E & Hfile & Lt & Lr & _).
  rewrite E.
  transitivity (read_at (take off file ++ read_at file off (len data)
                           ++ drop (off + len data) file) a n);
    [|now rewrite <- Hfile].
  destruct Hout as [Hbefore|Hafter].
  - rewrite !read_at_prefix by lia. reflexivity.
  - rewrite !(read_at_suffix (take off file)) by lia.
    rewrite !read_at_suffix by lia. now rewrite Lr.
Qed.

Lemma verified_in_range (file : bytes) (p : patch) :
  in_place p ->
  read_at file (p_offset p) (len (p_old p)) = p_old p ->
  p_offset p + len (p_new p) <= len file.
Proof.
  intros (Ho & Hne & Hl) Hr.
  assert (E : len (read_at file (p_offset p) (len (p_old p)))
              = len (p_old p)) by now rewrite Hr.
  pose proof (len_nonneg (p_old p)).
  rewrite read_at_len in E by lia.
  assert (0 < len (p_old p)).
  { unfold len. destruct (p_old p); [contradiction|]. simpl. lia. }
  lia.
Qed.

(** The write loop on in-place candidates keeps the length of the file
    and every byte outside the ranges of the candidates. *)
Lemma writes_in_place (file : bytes) (patches : list patch)
      (outcomes : list bool) (file' : bytes) :
  writes file patches outcomes file' ->
  Forall in_place patches ->
  len file' = len file /\
  forall a n, 0 <= a -> 0 <= n ->
    Forall (fun p => a + n <= p_offset p \/
                     p_offset p + len (p_new p) <= a) patches ->
    read_at file' a n = read_at file a n.
Proof.
  induction 1 as [file|file p rest outcomes file' Hr Hw IH
                 |file p rest outcomes file' Hr Hw IH]; intro Hall.
  - auto.
  - apply Forall_cons_iff in Hall. destruct Hall as [Hp Hrest].
    pose proof (verified_in_range file p Hp Hr) as Hin.
    destruct Hp as (Ho & _ & _).
    destruct (IH Hrest) as [Hlen Hout].
    destruct (write_at_inside file (p_offset p) (p_new p) Ho Hin)
      as (_ & _ & _ & _ & Lw).
    split; [lia|].
    intros a n Ha Hn Hfar. apply Forall_cons_iff in Hfar.
    destruct Hfar as [Hfp Hfrest].
    rewrite Hout by auto. now apply write_read_elsewhere.
  - apply Forall_cons_iff in Hall. destruct Hall as [_ Hrest].
    destruct (IH Hrest) as [Hlen Hout]. split; [exact Hlen|].
    intros a n Ha Hn Hfar. apply Forall_cons_iff in Hfar.
    apply Hout; tauto.
Qed.

Lemma plan_in_place (file : bytes) (wrong_str correct_str : string)
      (patches : list patch) :
  plan_patches file wrong_str correct_str = Ok (Patches patches) ->
  String.length wrong_str = String.length correct_str ->
  Forall in_place patches /\ Forall (verifies file) patches.
Proof.
  intros Hplan Hlen. split; apply Forall_forall; intros p Hp.
  - destruct (candidate_verifies _ _ _ _ _ Hplan Hp) as (Ho & Hne & _).
    pose proof (candidate_keeps_length _ _ _ _ _ Hplan Hlen Hp).
    unfold in_place. auto.
  - eapply candidate_verifies; eauto.
Qed.

(** [patch_file] returns a file of the length it was given. *)
Lemma patch_file_same_length
      (file : bytes) (wrong_str correct_str : string) (dry_run ok : bool)
      (file' : bytes) (out : list msg) :
  String.length wrong_str = String.length correct_str ->
  patch_file file wrong_str correct_str dry_run = Ok (ok, file', out) ->
  len file' = len file.
Proof.
  intros Hlen H. unfold patch_file in H.
  apply bind_Ok in H. destruct H as [pl [Hpl H]].
  destruct pl as [wl cl|patches].
  { inversion H; subst. auto. }
  destruct patches as [|p rest].
  { inversion H; subst. auto. }
  destruct dry_run.
  { inversion H; subst. auto. }
  destruct (write_patches_spec (p :: rest) file true)
    as (outcomes & f1 & out1 & E & Hw & _).
  rewrite E in H. inversion H; subst.
  destruct (plan_in_place _ _ _ _ Hpl Hlen) as [Hin _].
  now destruct (writes_in_place _ _ _ _ Hw Hin) as [Hl _].
Qed.

(** X12. [patch_file] never changes the size of a file, and never a
    byte outside the ranges of its candidates: with timestamp strings
    of equal length, whatever it returns, the file afterwards has the
    length it had, and any stretch of bytes that meets no candidate's
    range reads as before. *)
Theorem patch_file_keeps_length_and_other_bytes
        (file : bytes) (wrong_str correct_str : string) (dry_run ok : bool)
        (file' : bytes) (out : list msg) :
  String.length wrong_str = String.length correct_str ->
  patch_file file wrong_str correct_str dry_run = Ok (ok, file', out) ->
  len file' = len file /\
  forall patches,
    plan_patches file wrong_str correct_str = Ok (Patches patches) ->
    forall a n, 0 <= a -> 0 <= n ->
      Forall (fun p => a + n <= p_offset p \/
                       p_offset p + len (p_new p) <= a) patches ->
      read_at file' a n = read_at file a n.
Proof.
  intros Hlen H. unfold patch_file in H.
  apply bind_Ok in H. destruct H as [pl [Hpl H]].
  destruct pl as [wl cl|patches].
  { inversion H; subst. auto. }
  destruct patches as [|p rest].
  { inversion H; subst. auto. }
  destruct dry_run.
  { inversion H; subst. auto. }
  destruct (write_patches_spec (p :: rest) file true)
    as (outcomes & f1 & out1 & E & Hw & _).
  rewrite E in H. inversion H; subst.
  destruct (plan_in_place _ _ _ _ Hpl Hlen) as [Hin _].
  destruct (writes_in_place _ _ _ _ Hw Hin) as [Hl Hout].
  split; [exact Hl|].
  intros patches Hplan. rewrite Hpl in Hplan. inversion Hplan; subst.
  exact Hout.
Qed.

Lemma patch_file_keeps_length_and_other_bytes_witness :
  len mvhd_example_once = len mvhd_example_file /\
  forall patches,
    plan_patches mvhd_example_file "20260103194656" "20260215143800"
    = Ok (Patches patches) ->
    forall a n, 0 <= a -> 0 <= n ->
      Forall (fun p => a + n <= p_offset p \/
                       p_offset p + len (p_new p) <= a) patches ->
      read_at mvhd_example_once a n = read_at mvhd_example_file a n.
Proof.
  apply (patch_file_keeps_length_and_other_bytes
           mvhd_example_file "20260103194656" "20260215143800" false true
           mvhd_example_once
           [MsgCandidate "mvhd.creation" 8;
            MsgCandidate "mvhd.modification" 12; MsgApplied 2]).
  - reflexivity.
  - vm_compute. reflexivity.
Defined.

Lemma forallb_all_true (outcomes : list bool) :
  Forall (fun b => b = true) outcomes ->
  forallb (fun b => b) outcomes = true.
Proof.
  intro H. apply forallb_forall. rewrite Forall_forall in H. exact H.
Qed.

(** The write loop on candidates that verify and lie apart: every one
    is written. *)
Lemma writes_apart (patches : list patch) :
  forall file outcomes file',
    writes file patches outcomes file' ->
    Forall in_place patches ->
    Forall (verifies file) patches ->
    ForallOrdPairs apart patches ->
    Forall (fun b => b = true) outcomes /\
    Forall (fun p => read_at file' (p_offset p) (len (p_new p)) = p_new p)
           patches.
Proof.
  induction patches as [|p rest IH];
    intros file outcomes file' Hw Hin Hver Hap.
  - inversion Hw; subst. auto.
  - apply Forall_cons_iff in Hin. destruct Hin as [Hp Hrest].
    apply Forall_cons_iff in Hver. destruct Hver as [Hvp Hvrest].
    inversion Hap as [|? ? Hfar Hap']; subst.
    destruct Hvp as (Ho & Hne & Hr).
    inversion Hw as [|? ? ? outs ? _ Hw'|? ? ? outs ? Hbad _]; subst;
      [|contradiction].
    pose proof (verified_in_range file p Hp Hr) as Hrange.
    assert (Hver' : Forall (verifies (write_at file (p_offset p) (p_new p)))
                           rest).
    { apply Forall_forall. intros q Hq.
      rewrite Forall_forall in Hvrest, Hrest, Hfar.
      destruct (Hvrest q Hq) as (Hqo & Hqne & Hqr).
      destruct (Hrest q Hq) as (_ & _ & Hql).
      split; [exact Hqo|]. split; [exact Hqne|].
      rewrite write_read_elsewhere; auto.
      - apply len_nonneg.
      - destruct (Hfar q Hq) as [H1|H1]; [right; lia|left; lia]. }
    destruct (IH _ _ _ Hw' Hrest Hver' Hap') as [Hall Hnew].
    split; [constructor; [reflexivity|exact Hall]|].
    constructor; [|exact Hnew].
    destruct (writes_in_place _ _ _ _ Hw' Hrest) as [_ Hout].
    rewrite Hout.
    + apply write_then_read; auto.
    + exact Ho.
    + apply len_nonneg.
    + apply Forall_forall. intros q Hq. rewrite Forall_forall in Hfar.
      destruct (Hfar q Hq) as [H1|H1]; [left; lia|right; lia].
Qed.

(** X13. Candidates that lie apart are all applied: with timestamp
    strings of equal length and a plan, not empty, whose candidates
    have pairwise disjoint byte ranges, [patch_file] returns true,
    reports every candidate and the number applied, and afterwards the
    file holds every candidate's new bytes at its offset. *)
Theorem disjoint_candidates_all_applied
        (file : bytes) (wrong_str correct_str : string)
        (patches : list patch) :
  plan_patches file wrong_str correct_str = Ok (Patches patches) ->
  String.length wrong_str = String.length correct_str ->
  patches <> [] ->
  ForallOrdPairs apart patches ->
  exists file',
    patch_file file wrong_str correct_str false
    = Ok (true, file',
          map (fun p => MsgCandidate (p_type p) (p_offset p)) patches
          ++ [MsgApplied (len patches)])
    /\ Forall (fun p => read_at file' (p_offset p) (len (p_new p)) = p_new p)
              patches.
Proof.
  intros Hplan Hlen Hne Hap.
  destruct (plan_in_place _ _ _ _ Hplan Hlen) as [Hin Hver].
  assert (Hwrite : forall ps f ok,
             Forall (verifies f) ps -> Forall in_place ps ->
             ForallOrdPairs apart ps ->
             exists f', write_patches f ps ok = (ok, f', [])).
  { induction ps as [|p rest IH]; intros f ok Hv Hi Ha.
    - exists f. reflexivity.
    - apply Forall_cons_iff in Hv. destruct Hv as [Hvp Hvrest].
      apply Forall_cons_iff in Hi. destruct Hi as [Hp Hrest].
      inversion Ha as [|? ? Hfar Ha']; subst.
      destruct Hvp as (Ho & Hpne & Hr).
      cbn [write_patches]. rewrite (patch_write_match _ _ _ _ Hr).
      cbn [negb].
      pose proof (verified_in_range f p Hp Hr) as Hrange.
      destruct (IH (write_at f (p_offset p) (p_new p)) ok) as [f' E];
        auto.
      + apply Forall_forall. intros q Hq.
        rewrite Forall_forall in Hvrest, Hrest, Hfar.
        destruct (Hvrest q Hq) as (Hqo & Hqne & Hqr).
        destruct (Hrest q Hq) as (_ & _ & Hql).
        split; [exact Hqo|]. split; [exact Hqne|].
        rewrite write_read_elsewhere; auto.
        * apply len_nonneg.
        * destruct (Hfar q Hq) as [H1|H1]; [right; lia|left; lia].
      + exists f'. rewrite E. reflexivity. }
  destruct (Hwrite patches file true Hver Hin Hap) as [file' E].
  exists file'. split.
  - unfold patch_file. rewrite Hplan. cbn [bind].
    destruct patches as [|p rest]; [contradiction|].
    rewrite E. rewrite app_nil_l. reflexivity.
  - destruct (write_patches_spec patches file true)
      as (outcomes & f1 & out1 & E1 & Hw & _).
    rewrite E in E1. inversion E1; subst.
    now destruct (writes_apart _ _ _ _ Hw Hin Hver Hap).
Qed.

Lemma disjoint_candidates_all_applied_witness :
  exists file',
    patch_file mvhd_example_file "20260103194656" "20260215143800" false
    = Ok (true, file',
          map (fun p => MsgCandidate (p_type p) (p_offset p))
              [mkPatch "mvhd.creation" 8
                       [xe5; x80; x3a; x00] [xe5; xb8; xa2; x18];
               mkPatch "mvhd.modification" 12
                       [xe5; x80; x3a; x00] [xe5; xb8; xa2; x18]]
          ++ [MsgApplied 2])
    /\ Forall (fun p => read_at file' (p_offset p) (len (p_new p)) = p_new p)
              [mkPatch "mvhd.creation" 8
                       [xe5; x80; x3a; x00] [xe5; xb8; xa2; x18];
               mkPatch "mvhd.modification" 12
                       [xe5; x80; x3a; x00] [xe5; xb8; xa2; x18]].
Proof.
  apply (disjoint_candidates_all_applied
           mvhd_example_file "20260103194656" "20260215143800").
  - vm_compute. reflexivity.
  - reflexivity.
  - discriminate.
  - constructor.
    + constructor; [|constructor]. left. vm_compute. discriminate.
    + constructor; constructor.
Defined.

(** ** What the candidates replace *)

Lemma byte_val_zero (b : byte) : byte_val b = 0 -> b = x00.
Proof.
  unfold byte_val. intro H.
  assert (E : Byte.to_N b = Byte.to_N x00) by (simpl; lia).
  apply (f_equal Byte.of_N) in E. rewrite !Byte.of_to_N in E.
  now inversion E.
Qed.

Lemma first_byte_zero (file : bytes) (a n : Z) (version : byte) :
  0 <= a -> 1 <= n ->
  first_byte (read_at file a n) = Ok version -> byte_val version = 0 ->
  read_at file a 1 = [x00].
Proof.
  intros Ha Hn Ev Hv. apply byte_val_zero in Hv. subst version.
  rewrite <- (Z.add_0_r a).
  rewrite <- (read_at_read_at file a n 0 1) by lia.
  destruct (read_at file a n) as [|b buf]; [discriminate|].
  inversion Ev; subst. unfold read_at.
  rewrite drop_0, take_cons_pos by lia. destruct buf; reflexivity.
Qed.

(** A patch of the MP4 atom stage, with the tests its atom passed. *)
Lemma mp4_patches_origin (file : bytes) (delta_sec : Z)
      (atoms : list patch) (p : patch) :
  mp4_patches file delta_sec = Ok atoms -> In p atoms ->
  exists box_type offset field_off val ct,
    In box_type box_types /\
    In offset (_find_pattern file box_type) /\
    (field_off = 4 \/ field_off = 8) /\
    p_offset p = offset + 4 + field_off /\
    read_at file (offset + 4) 1 = [x00] /\
    unpack_u32 (read_at file (offset + 4) 20) 4 = Ok ct /\
    2000 <= fromtimestamp_year (ct - _MP4_EPOCH_OFFSET) <= 2099 /\
    unpack_u32 (read_at file (offset + 4) 20) field_off = Ok val /\
    pack_u32 val = Ok (p_old p) /\
    pack_u32 (val + delta_sec) = Ok (p_new p).
Proof.
  unfold mp4_patches. intros H Hp.
  destruct (for_each_In _ _ _ _ H Hp) as [box [qs [Hbox [Hb Hq]]]].
  destruct (for_each_In _ _ _ _ Hb Hq) as [offset [rs [Hhit [Hh Hr]]]].
  exists box, offset. unfold mp4_hit in Hh.
  apply bind_Ok in Hh. destruct Hh as [version [Ev Hh]].
  destruct (Z.eqb_spec (byte_val version) 0) as [Hv|]; simpl negb in Hh.
  2: { inversion Hh; subst. contradiction. }
  cbv iota in Hh.
  apply bind_Ok in Hh. destruct Hh as [ct [Ect Hh]].
  destruct ((2000 <=? fromtimestamp_year (ct - _MP4_EPOCH_OFFSET))
            && (fromtimestamp_year (ct - _MP4_EPOCH_OFFSET) <=? 2099))
    eqn:Eyear; simpl negb in Hh.
  2: { inversion Hh; subst. contradiction. }
  cbv iota in Hh.
  destruct (for_each_In _ _ _ _ Hh Hr) as [[field_off name] [ps [Hf [Hm Hps]]]].
  unfold mp4_field in Hm.
  apply bind_Ok in Hm. destruct Hm as [val [Eval Hm]].
  apply bind_Ok in Hm. destruct Hm as [old [Eold Hm]].
  apply bind_Ok in Hm. destruct Hm as [new [Enew Hm]].
  inversion Hm; subst. destruct Hps as [<-|[]].
  exists field_off, val, ct. simpl.
  assert (Hversion : read_at file (offset + 4) 1 = [x00]).
  { destruct (hit_nonneg _ _ _ (box_type_nonempty _ Hbox) Hhit) as [Ho _].
    apply (first_byte_zero file (offset + 4) 20 version); auto; lia. }
  repeat split; auto; try lia.
  destruct Hf as [Hf|[Hf|[]]]; inversion Hf; auto.
Qed.

(** X14. What an atom candidate replaces: it sits 8 or 12 bytes after a
    hit of one of the tags mvhd, tkhd, mdhd, in an atom of version 0
    whose creation field is a date of the years 2000 to 2099; its old
    bytes are a big-endian 32-bit value, and its new bytes are that
    value plus the number of seconds from the wrong to the correct
    timestamp. *)
Theorem atom_candidate_shifts_by_delta
        (file : bytes) (wrong_str correct_str : string)
        (patches : list patch) (p : patch) :
  plan_patches file wrong_str correct_str = Ok (Patches patches) ->
  In p patches ->
  In (p_type p) atom_types ->
  exists wrong_dt correct_dt box_type offset val ct,
    _parse_ts wrong_str = Ok wrong_dt /\
    _parse_ts correct_str = Ok correct_dt /\
    In box_type box_types /\
    In offset (_find_pattern file box_type) /\
    (p_offset p = offset + 8 \/ p_offset p = offset + 12) /\
    read_at file (offset + 4) 1 = [x00] /\
    unpack_u32 (read_at file (offset + 4) 20) 4 = Ok ct /\
    2000 <= fromtimestamp_year (ct - _MP4_EPOCH_OFFSET) <= 2099 /\
    unpack_u32 (p_old p) 0 = Ok val /\
    unpack_u32 (p_new p) 0
    = Ok (val + (epoch_seconds correct_dt - epoch_seconds wrong_dt)).
Proof.
  intros Hplan Hp Htype.
  destruct (plan_patches_inv _ _ _ _ Hplan)
    as (wrong_ts & correct_ts & wrong_dt & correct_dt & atoms & wv & cv
        & gps & wa & ca & _ & _ & Ewd & Ecd & Eatoms & _ & _ & _ & Egps
        & _ & _ & ->).
  apply dedup_In in Hp.
  repeat (apply in_app_or in Hp; destruct Hp as [Hp|Hp]).
  - destruct (mp4_patches_origin _ _ _ _ Eatoms Hp)
      as (box & offset & field_off & val & ct & Hbox & Hhit & Hf & Ho
          & Hver & Ect & Hyear & _ & Eold & Enew).
    exists wrong_dt, correct_dt, box, offset, val, ct.
    split; [exact Ewd|]. split; [exact Ecd|]. split; [exact Hbox|].
    split; [exact Hhit|].
    split; [destruct Hf as [-> | ->]; [left|right]; lia|].
    split; [exact Hver|]. split; [exact Ect|]. split; [exact Hyear|].
    split; now apply pack_u32_unpack.
  - apply protobuf_patches_types in Hp. not_this_stage.
  - destruct (gps_patches_In _ _ _ _ _ Egps Hp) as (Ht & _). not_this_stage.
  - apply ascii_patches_types in Hp. not_this_stage.
  - apply utf16_patches_In in Hp.
    destruct Hp as (offset & _ & _ & [[Ht _]|[Ht _]]); not_this_stage.
Qed.

Lemma atom_candidate_shifts_by_delta_witness :
  exists wrong_dt correct_dt box_type offset val ct,
    _parse_ts "20260103194656" = Ok wrong_dt /\
    _parse_ts "20260215143800" = Ok correct_dt /\
    In box_type box_types /\
    In offset (_find_pattern mvhd_example_file box_type) /\
    (8 = offset + 8 \/ 8 = offset + 12) /\
    read_at mvhd_example_file (offset + 4) 1 = [x00] /\
    unpack_u32 (read_at mvhd_example_file (offset + 4) 20) 4 = Ok ct /\
    2000 <= fromtimestamp_year (ct - _MP4_EPOCH_OFFSET) <= 2099 /\
    unpack_u32 [xe5; x80; x3a; x00] 0 = Ok val /\
    unpack_u32 [xe5; xb8; xa2; x18] 0
    = Ok (val + (epoch_seconds correct_dt - epoch_seconds wrong_dt)).
Proof.
  apply (atom_candidate_shifts_by_delta
           mvhd_example_file "20260103194656" "20260215143800"
           [mkPatch "mvhd.creation" 8
                    [xe5; x80; x3a; x00] [xe5; xb8; xa2; x18];
            mkPatch "mvhd.modification" 12
                    [xe5; x80; x3a; x00] [xe5; xb8; xa2; x18]]
           (mkPatch "mvhd.creation" 8
                    [xe5; x80; x3a; x00] [xe5; xb8; xa2; x18])).
  - vm_compute. reflexivity.
  - left. reflexivity.
  - left. reflexivity.
Defined.

Lemma decode_loop_prefix (rest : bytes) :
  forall res shift pos v n,
    decode_loop rest res shift pos = Ok (v, n) ->
    decode_loop (firstn (n - pos) rest) res shift pos = Ok (v, n).
Proof.
  induction rest as [|b rest IH]; intros res shift pos v n H.
  - discriminate.
  - cbn [decode_loop] in H.
    assert (Hn : (pos < n)%nat).
    { pose proof (decode_loop_result (b :: rest) 0 0 pos) as R.
      destruct (Z.land (byte_val b) 128 =? 0).
      - inversion H. lia.
      - pose proof (decode_loop_result rest 0 0 (S pos)
                      ltac:(lia) ltac:(lia)) as R'.
        clear R R'.
        assert (G : forall l r s q v' n',
                   decode_loop l r s q = Ok (v', n') -> (q < n')%nat).
        { induction l as [|x l IHl]; intros r s q v' n' G; [discriminate|].
          cbn [decode_loop] in G.
          destruct (Z.land (byte_val x) 128 =? 0).
          - inversion G. lia.
          - apply IHl in G. lia. }
        apply G in H. lia. }
    replace (n - pos)%nat with (S (n - S pos)) by lia.
    cbn [firstn decode_loop].
    destruct (Z.land (byte_val b) 128 =? 0); [exact H|].
    now apply IH.
Qed.

(** X15. What a GPS candidate replaces: its old bytes are a varint (the
    whole of them), and its new bytes are the varint of the same value
    plus the milliseconds from the wrong to the correct timestamp,
    1000 times the difference in seconds. *)
Theorem gps_candidate_shifts_by_delta
        (file : bytes) (wrong_str correct_str : string)
        (patches : list patch) (p : patch) :
  plan_patches file wrong_str correct_str = Ok (Patches patches) ->
  In p patches ->
  p_type p = "first_gps_timestamp"%string ->
  exists wrong_dt correct_dt val,
    _parse_ts wrong_str = Ok wrong_dt /\
    _parse_ts correct_str = Ok correct_dt /\
    _decode_varint (p_old p) 0 = Ok (val, List.length (p_old p)) /\
    _decode_varint (p_new p) 0
    = Ok (val + (epoch_seconds correct_dt - epoch_seconds wrong_dt) * 1000,
          List.length (p_new p)).
Proof.
  intros Hplan Hp Htype.
  destruct (plan_patches_inv _ _ _ _ Hplan)
    as (wrong_ts & correct_ts & wrong_dt & correct_dt & atoms & wv & cv
        & gps & wa & ca & _ & _ & Ewd & Ecd & Eatoms & _ & _ & _ & Egps
        & _ & _ & ->).
  apply dedup_In in Hp.
  repeat (apply in_app_or in Hp; destruct Hp as [Hp|Hp]).
  - apply (mp4_patches_types _ _ _ _ Eatoms) in Hp. not_this_stage.
  - apply protobuf_patches_types in Hp. not_this_stage.
  - destruct (gps_patches_In _ _ _ _ _ Egps Hp)
      as (_ & _ & val & vend & Hdec & _ & _ & Hold & Enew & _).
    exists wrong_dt, correct_dt, val. split; [exact Ewd|].
    split; [exact Ecd|]. split.
    + destruct (decode_varint_bounds _ _ _ _ Hdec) as (_ & Hn).
      unfold _decode_varint in *. simpl skipn in *.
      apply decode_loop_prefix in Hdec. rewrite Nat.sub_0_r in Hdec.
      rewrite Hold, Hdec, length_firstn. do 2 f_equal. lia.
    + destruct (encode_varint_decodes _ (encode_varint_ok_nonneg _ _ Enew))
        as (bs & Ebs & _ & Hrt).
      rewrite Enew in Ebs. inversion Ebs; subst.
      specialize (Hrt []). now rewrite app_nil_r in Hrt.
  - apply ascii_patches_types in Hp. not_this_stage.
  - apply utf16_patches_In in Hp.
    destruct Hp as (offset & _ & _ & [[Ht _]|[Ht _]]); not_this_stage.
Qed.

Lemma gps_candidate_shifts_by_delta_witness :
  exists wrong_dt correct_dt val,
    _parse_ts "20260103194656" = Ok wrong_dt /\
    _parse_ts "20260215143800" = Ok correct_dt /\
    _decode_varint [x80; x97; x98; xab; xb8; x33] 0 = Ok (val, 6%nat) /\
    _decode_varint [xc0; xd2; xf2; x8d; xc6; x33] 0
    = Ok (val + (epoch_seconds correct_dt - epoch_seconds wrong_dt) * 1000,
          6%nat).
Proof.
  apply (gps_candidate_shifts_by_delta
           gps_example_file "20260103194656" "20260215143800"
           [mkPatch "first_gps_timestamp" 2
                    [x80; x97; x98; xab; xb8; x33]
                    [xc0; xd2; xf2; x8d; xc6; x33]]
           (mkPatch "first_gps_timestamp" 2
                    [x80; x97; x98; xab; xb8; x33]
                    [xc0; xd2; xf2; x8d; xc6; x33])).
  - vm_compute. reflexivity.
  - left. reflexivity.
  - reflexivity.
Defined.

(** X16. What a creation_time candidate replaces: it sits right after a
    byte 38 of the file; its old bytes are the varint of the integer of
    the wrong timestamp string and its new bytes the varint of the
    integer of the correct one. *)
Theorem protobuf_candidate_replaces_wrong_by_correct
        (file : bytes) (wrong_str correct_str : string)
        (patches : list patch) (p : patch) :
  plan_patches file wrong_str correct_str = Ok (Patches patches) ->
  In p patches ->
  p_type p = "protobuf creation_time"%string ->
  exists wrong_ts correct_ts,
    py_int wrong_str = Ok wrong_ts /\
    py_int correct_str = Ok correct_ts /\
    read_at file (p_offset p - 1) 1 = [x38] /\
    _encode_varint wrong_ts = Ok (p_old p) /\
    _encode_varint correct_ts = Ok (p_new p) /\
    _decode_varint (p_old p) 0 = Ok (wrong_ts, List.length (p_old p)) /\
    _decode_varint (p_new p) 0 = Ok (correct_ts, List.length (p_new p)).
Proof.
  intros Hplan Hp Htype.
  destruct (plan_patches_inv _ _ _ _ Hplan)
    as (wrong_ts & correct_ts & wrong_dt & correct_dt & atoms & wv & cv
        & gps & wa & ca & Ew & Ec & _ & _ & Eatoms & Ewv & Ecv & _ & Egps
        & _ & _ & ->).
  apply dedup_In in Hp.
  repeat (apply in_app_or in Hp; destruct Hp as [Hp|Hp]).
  - apply (mp4_patches_types _ _ _ _ Eatoms) in Hp. not_this_stage.
  - unfold protobuf_patches in Hp. apply in_map_iff in Hp.
    destruct Hp as [o [<- Hhit]]. simpl.
    destruct (hit_nonneg file (x38 :: wv) o ltac:(discriminate) Hhit)
      as [Ho Hr].
    change (x38 :: wv) with ([x38] ++ wv) in Hr.
    apply read_at_split in Hr; [|exact Ho]. destruct Hr as [Htag _].
    exists wrong_ts, correct_ts.
    replace (o + 1 - 1) with o by lia.
    destruct (encode_varint_decodes _ (encode_varint_ok_nonneg _ _ Ewv))
      as (b1 & E1 & _ & R1).
    destruct (encode_varint_decodes _ (encode_varint_ok_nonneg _ _ Ecv))
      as (b2 & E2 & _ & R2).
    rewrite Ewv in E1. rewrite Ecv in E2.
    inversion E1; subst. inversion E2; subst.
    specialize (R1 []). specialize (R2 []). rewrite app_nil_r in R1, R2.
    repeat split; auto.
  - destruct (gps_patches_In _ _ _ _ _ Egps Hp) as (Ht & _). not_this_stage.
  - apply ascii_patches_types in Hp. not_this_stage.
  - apply utf16_patches_In in Hp.
    destruct Hp as (offset & _ & _ & [[Ht _]|[Ht _]]); not_this_stage.
Qed.

Lemma protobuf_candidate_replaces_wrong_by_correct_witness :
  exists wrong_ts correct_ts,
    py_int "20260103194656" = Ok wrong_ts /\
    py_int "20260215143800" = Ok correct_ts /\
    read_at protobuf_example_file (1 - 1) 1 = [x38] /\
    _encode_varint wrong_ts = Ok [xa0; x90; x84; xe2; xd2; xcd; x04] /\
    _encode_varint correct_ts = Ok [xf8; xfa; xb4; x97; xd3; xcd; x04] /\
    _decode_varint [xa0; x90; x84; xe2; xd2; xcd; x04] 0
    = Ok (wrong_ts, 7%nat) /\
    _decode_varint [xf8; xfa; xb4; x97; xd3; xcd; x04] 0
    = Ok (correct_ts, 7%nat).
Proof.
  apply (protobuf_candidate_replaces_wrong_by_correct
           protobuf_example_file "20260103194656" "20260215143800"
           [mkPatch "protobuf creation_time" 1
                    [xa0; x90; x84; xe2; xd2; xcd; x04]
                    [xf8; xfa; xb4; x97; xd3; xcd; x04]]
           (mkPatch "protobuf creation_time" 1
                    [xa0; x90; x84; xe2; xd2; xcd; x04]
                    [xf8; xfa; xb4; x97; xd3; xcd; x04])).
  - vm_compute. reflexivity.
  - left. reflexivity.
  - reflexivity.
Defined.

(** ** Reading the current Shooting Time *)

Example read_shooting_time_example :
  read_shooting_time reader_example_file = Ok "20260103194656"%string.
Proof. vm_compute. reflexivity. Qed.

Example fmt_ts_example :
  _fmt_ts "20260103194656" = "2026-01-03 19:46:56"%string.
Proof. reflexivity. Qed.

Example py_str_examples :
  py_str 0 = "0"%string /\ py_str 907 = "907"%string
  /\ py_str (-15) = "-15"%string
  /\ py_str 20260103194656 = "20260103194656"%string.
Proof. vm_compute. repeat split. Qed.

Lemma code_digit_char (d : Z) : 0 <= d <= 9 -> code (digit_char d) = 48 + d.
Proof.
  intro H. unfold code, digit_char.
  rewrite nat_ascii_embedding by lia. lia.
Qed.

Lemma digit_char_code (c : ascii) :
  is_decimal c = true -> digit_char (code c - 48) = c.
Proof.
  intro H. apply is_decimal_range in H. unfold digit_char, code in *.
  replace (Z.to_nat (48 + (Z.of_nat (nat_of_ascii c) - 48)))
    with (nat_of_ascii c) by lia.
  apply ascii_nat_embedding.
Qed.

Lemma dec_value_app (l1 l2 : list ascii) (a : Z) :
  dec_value (l1 ++ l2) a = dec_value l2 (dec_value l1 a).
Proof. unfold dec_value. apply fold_left_app. Qed.

(** The digits [str()] produces: decimal, at least one, and of the
    value they were taken from. *)
Lemma str_digits_spec (fuel : nat) :
  forall v acc, 0 <= v < 10 ^ Z.of_nat (S fuel) ->
    exists ds, str_digits (S fuel) v acc = ds ++ acc /\ ds <> [] /\
               forallb is_decimal ds = true /\
               forall a, dec_value ds a = a * 10 ^ len ds + v.
Proof.
  assert (Hone : forall v acc, 0 <= v < 10 ->
    exists ds, digit_char (v mod 10) :: acc = ds ++ acc /\ ds <> [] /\
               forallb is_decimal ds = true /\
               forall a, dec_value ds a = a * 10 ^ len ds + v).
  { intros v acc Hv. exists [digit_char (v mod 10)].
    rewrite Z.mod_small by lia.
    split; [reflexivity|]. split; [discriminate|]. split.
    - simpl. unfold is_decimal. rewrite code_digit_char by lia. lia.
    - intro a. unfold dec_value. simpl. rewrite code_digit_char by lia.
      change (len [digit_char v]) with 1. lia. }
  induction fuel as [|fuel IH]; intros v acc Hv.
  - change (10 ^ Z.of_nat 1) with 10 in Hv. cbn [str_digits].
    destruct (Z.ltb_spec v 10); [|lia]. now apply Hone.
  - cbn [str_digits]. destruct (Z.ltb_spec v 10) as [Hs|Hb].
    { apply Hone. lia. }
    destruct (IH (v / 10) (digit_char (v mod 10) :: acc))
      as (ds & E & Hne & Hdec & Hval).
    { split; [apply Z.div_pos; lia|].
      apply Z.div_lt_upper_bound; [lia|].
      rewrite <- Z.pow_succ_r by lia.
      replace (Z.succ (Z.of_nat (S fuel))) with (Z.of_nat (S (S fuel)))
        by lia.
      lia. }
    cbn [str_digits] in E. exists (ds ++ [digit_char (v mod 10)]).
    assert (Hm : 0 <= v mod 10 < 10) by (apply Z.mod_pos_bound; lia).
    split; [rewrite <- app_assoc; exact E|].
    split; [destruct ds; discriminate|]. split.
    + rewrite forallb_app, Hdec. simpl. unfold is_decimal.
      rewrite code_digit_char by lia. lia.
    + intro a. rewrite dec_value_app, Hval, len_app.
      change (len [digit_char (v mod 10)]) with 1.
      unfold dec_value. simpl. rewrite code_digit_char by lia.
      rewrite Z.pow_add_r by (pose proof (len_nonneg ds); lia).
      change (10 ^ 1) with 10.
      pose proof (Z.div_mod v 10 ltac:(lia)). lia.
Qed.

Lemma decimal_is_digit_char (ds : list ascii) :
  forallb is_decimal ds = true -> forallb is_digit_char ds = true.
Proof.
  rewrite !forallb_forall. intros H c Hc. specialize (H c Hc).
  unfold is_decimal in H. unfold is_digit_char. lia.
Qed.

(** [str()] of a non-negative integer, and [int()] of it. *)
Lemma py_str_nonneg (v : Z) :
  0 <= v ->
  exists ds, py_str v = string_of_list_ascii ds /\ ds <> [] /\
             forallb is_decimal ds = true /\ dec_value ds 0 = v /\
             py_int (py_str v) = Ok v.
Proof.
  intro Hv. unfold py_str. destruct (Z.ltb_spec v 0); [lia|].
  destruct (str_digits_spec (Z.to_nat (Z.log2 v)) v [])
    as (ds & E & Hne & Hdec & Hval).
  { split; [exact Hv|].
    rewrite Nat2Z.inj_succ, Z2Nat.id by apply Z.log2_nonneg.
    destruct (Z.eq_dec v 0) as [->|Hnz]; [simpl; lia|].
    assert (v < 2 ^ Z.succ (Z.log2 v)) by (apply Z.log2_spec; lia).
    assert (2 ^ Z.succ (Z.log2 v) <= 10 ^ Z.succ (Z.log2 v)).
    { apply Z.pow_le_mono_l. lia. }
    lia. }
  rewrite E, app_nil_r. exists ds.
  assert (Hv0 : dec_value ds 0 = v) by (rewrite Hval; lia).
  repeat split; auto.
  rewrite py_int_digit_chars; auto using decimal_is_digit_char.
  now rewrite Hdec, Hv0.
Qed.

Lemma py_int_raises (s : string) (e : exn) :
  py_int s = Raise e -> e = ValueError.
Proof.
  unfold py_int. cbv zeta. intro H.
  match type of H with
  | match ?x with Some _ => _ | None => _ end = _ => destruct x
  end; congruence.
Qed.

Lemma first_shooting_time_found (file : bytes) (offsets : list Z) (s : string) :
  first_shooting_time file offsets = Ok s ->
  exists offset, In offset offsets /\
                 shooting_time_at file offset = Ok (Some s).
Proof.
  induction offsets as [|o offsets IH]; simpl; [discriminate|].
  intro H. apply bind_Ok in H. destruct H as [[t|] [E H]].
  - inversion H; subst. exists o. auto.
  - destruct (IH H) as [o' [Hin E']]. exists o'. auto.
Qed.

Lemma length_string_of_list_ascii (cs : list ascii) :
  String.length (string_of_list_ascii cs) = List.length cs.
Proof. induction cs as [|c cs IH]; simpl; [reflexivity|now rewrite IH]. Qed.

(** A string of fourteen decimal digits that starts with 20 and whose
    fields pass the tests of [read_shooting_time] passes
    [validate_timestamp]. *)
Lemma accepted_digits_validate (ds : list ascii) :
  List.length ds = 14%nat ->
  forallb is_decimal ds = true ->
  String.eqb (str_slice 0 2 (string_of_list_ascii ds)) "20" = true ->
  (exists mo d h mi sec,
      py_int (str_slice 4 6 (string_of_list_ascii ds)) = Ok mo /\
      py_int (str_slice 6 8 (string_of_list_ascii ds)) = Ok d /\
      py_int (str_slice 8 10 (string_of_list_ascii ds)) = Ok h /\
      py_int (str_slice 10 12 (string_of_list_ascii ds)) = Ok mi /\
      py_int (str_slice 12 14 (string_of_list_ascii ds)) = Ok sec /\
      (1 <=? mo) && (mo <=? 12) && (1 <=? d) && (d <=? 31)
      && (h <=? 23) && (mi <=? 59) && (sec <=? 59) = true) ->
  validate_timestamp (string_of_list_ascii ds) = Ok tt.
Proof.
  intros Hlen Hdec H20 (mo & d & h & mi & sec & Emo & Ed & Eh & Emi & Esec
                        & Hchk).
  do 14 (destruct ds as [|? ds]; [discriminate|]).
  destruct ds; [|discriminate]. clear Hlen.
  pose proof (decimal_is_digit_char _ Hdec) as Hdig.
  unfold validate_timestamp, isdigit.
  rewrite length_string_of_list_ascii, list_ascii_of_string_of_list_ascii.
  rewrite Hdig. cbn [List.length Nat.eqb negb orb].
  apply String.eqb_eq in H20.
  cbn [forallb] in Hdec, Hdig.
  repeat (apply andb_prop in Hdec; destruct Hdec as [? Hdec]). clear Hdec.
  repeat (apply andb_prop in Hdig; destruct Hdig as [? Hdig]). clear Hdig.
  match goal with
  | |- context [string_of_list_ascii
                  [?c0; ?c1; ?c2; ?c3; ?c4; ?c5; ?c6; ?c7; ?c8; ?c9;
                   ?c10; ?c11; ?c12; ?c13]] =>
      change (str_slice 0 2 _) with (string_of_list_ascii [c0; c1]) in H20;
      change (str_slice 0 4 _)
        with (string_of_list_ascii [c0; c1; c2; c3]) in *;
      change (str_slice 4 6 _) with (string_of_list_ascii [c4; c5]) in *;
      change (str_slice 6 8 _) with (string_of_list_ascii [c6; c7]) in *;
      change (str_slice 8 10 _) with (string_of_list_ascii [c8; c9]) in *;
      change (str_slice 10 12 _) with (string_of_list_ascii [c10; c11]) in *;
      change (str_slice 12 14 _) with (string_of_list_ascii [c12; c13]) in *
  end.
  simpl in H20. inversion H20; subst.
  repeat match goal with
         | D : is_decimal _ = true |- _ =>
             apply is_decimal_range in D
         end.
  rewrite !py_int_digit_chars in *
    by (try discriminate; cbn [forallb]; repeat (apply andb_true_intro; split);
        try assumption; reflexivity).
  repeat match goal with
         | E : (if ?b then Ok _ else Raise _) = Ok _ |- _ =>
             let B := fresh "B" in
             destruct b eqn:B; [inversion E; subst; clear E|discriminate]
         end.
  assert (D4 : forall a b c e : ascii,
             48 <= code c <= 57 -> 48 <= code e <= 57 ->
             a = "2"%char -> b = "0"%char ->
             forallb is_decimal [a; b; c; e] = true).
  { intros a b c e Hc He -> ->. cbn [forallb]. unfold is_decimal.
    change (code "2") with 50. change (code "0") with 48. lia. }
  rewrite D4 by (assumption || reflexivity).
  unfold dec_value in *. cbn [fold_left bind] in *.
  change (code "2") with 50. change (code "0") with 48.
  repeat match goal with
         | |- context [if negb ?b then _ else _] =>
             replace b with true by (symmetry; lia); cbn [negb]
         end.
  reflexivity.
Qed.

(** What a returned shooting time is. *)
Lemma read_shooting_time_found (file : bytes) (s : string) :
  read_shooting_time file = Ok s ->
  validate_timestamp s = Ok tt /\
  exists offset val n,
    In offset (_find_pattern file [x38]) /\
    _decode_varint (read_at file (offset + 1) 10) 0 = Ok (val, n) /\
    s = py_str val /\ py_int s = Ok val.
Proof.
  unfold read_shooting_time. intro H.
  apply first_shooting_time_found in H. destruct H as [offset [Hin H]].
  unfold shooting_time_at in H.
  destruct (_decode_varint (read_at file (offset + 1) 10) 0)
    as [[val n]|] eqn:Edec; [|discriminate].
  destruct (decode_varint_bounds _ _ _ _ Edec) as [Hval _].
  destruct (py_str_nonneg val Hval) as (ds & Es & Hne & Hdec & Hv & Hint).
  destruct (Nat.eqb_spec (String.length (py_str val)) 14) as [Hlen|];
    [|discriminate].
  destruct (String.eqb (str_slice 0 2 (py_str val)) "20") eqn:H20;
    [|discriminate].
  cbn [negb orb] in H.
  apply bind_Ok in H. destruct H as [y [Ey H]].
  apply bind_Ok in H. destruct H as [mo [Emo H]].
  apply bind_Ok in H. destruct H as [d [Ed H]].
  apply bind_Ok in H. destruct H as [h [Eh H]].
  apply bind_Ok in H. destruct H as [mi [Emi H]].
  apply bind_Ok in H. destruct H as [sec [Esec H]].
  destruct ((1 <=? mo) && (mo <=? 12) && (1 <=? d) && (d <=? 31)
            && (h <=? 23) && (mi <=? 59) && (sec <=? 59)) eqn:Hchk;
    [|discriminate].
  inversion H; subst s. split.
  - rewrite Es in *. apply accepted_digits_validate; auto.
    + now rewrite <- length_string_of_list_ascii.
    + exists mo, d, h, mi, sec. auto 10.
  - exists offset, val, n. auto.
Qed.

(** X17. What [read_shooting_time] returns is a timestamp the program
    accepts: the returned string passes [validate_timestamp]; it is the
    decimal form of the varint decoded right after some byte 38 of the
    file, and [int()] of it is that value. *)
Theorem read_shooting_time_is_valid (file : bytes) (s : string) :
  read_shooting_time file = Ok s ->
  validate_timestamp s = Ok tt /\
  exists offset val n,
    In offset (_find_pattern file [x38]) /\
    _decode_varint (read_at file (offset + 1) 10) 0 = Ok (val, n) /\
    s = py_str val /\ py_int s = Ok val.
Proof. apply read_shooting_time_found. Qed.

Lemma read_shooting_time_is_valid_witness :
  validate_timestamp "20260103194656" = Ok tt /\
  exists offset val n,
    In offset (_find_pattern reader_example_file [x38]) /\
    _decode_varint (read_at reader_example_file (offset + 1) 10) 0
    = Ok (val, n) /\
    "20260103194656"%string = py_str val /\
    py_int "20260103194656" = Ok val.
Proof.
  apply (read_shooting_time_is_valid reader_example_file "20260103194656").
  vm_compute. reflexivity.
Defined.

(** ** Which strings [validate_timestamp] accepts *)

Lemma is_decimal_digit_char (c : ascii) :
  is_decimal c = true -> is_digit_char c = true.
Proof. unfold is_decimal, is_digit_char. lia. Qed.

Ltac name_fields :=
  match goal with
  | |- context [String ?c0 (String ?c1 (String ?c2 (String ?c3
         (String ?c4 (String ?c5 (String ?c6 (String ?c7 (String ?c8
         (String ?c9 (String ?c10 (String ?c11 (String ?c12
         (String ?c13 EmptyString)))))))))))))] =>
      change (str_slice 0 4 _) with (string_of_list_ascii [c0; c1; c2; c3]);
      change (str_slice 4 6 _) with (string_of_list_ascii [c4; c5]);
      change (str_slice 6 8 _) with (string_of_list_ascii [c6; c7]);
      change (str_slice 8 10 _) with (string_of_list_ascii [c8; c9]);
      change (str_slice 10 12 _) with (string_of_list_ascii [c10; c11]);
      change (str_slice 12 14 _) with (string_of_list_ascii [c12; c13])
  end.

(** The fields of a string of fourteen digit characters, as
    [validate_timestamp] and [_parse_ts] read them. *)
Lemma fields_of_digits (ts_str : string) :
  String.length ts_str = 14%nat ->
  forallb is_decimal (list_ascii_of_string ts_str) = true ->
  py_int (str_slice 0 4 ts_str) = Ok (ts_field 0 4 ts_str) /\
  py_int (str_slice 4 6 ts_str) = Ok (ts_field 4 6 ts_str) /\
  py_int (str_slice 6 8 ts_str) = Ok (ts_field 6 8 ts_str) /\
  py_int (str_slice 8 10 ts_str) = Ok (ts_field 8 10 ts_str) /\
  py_int (str_slice 10 12 ts_str) = Ok (ts_field 10 12 ts_str) /\
  py_int (str_slice 12 14 ts_str) = Ok (ts_field 12 14 ts_str) /\
  0 <= ts_field 8 10 ts_str /\ 0 <= ts_field 10 12 ts_str /\
  0 <= ts_field 12 14 ts_str.
Proof.
  intros Hlen Hdec.
  do 14 (destruct ts_str as [|? ts_str]; [discriminate|]).
  destruct ts_str; [|discriminate]. clear Hlen.
  cbn [list_ascii_of_string forallb] in Hdec.
  repeat (apply andb_prop in Hdec; destruct Hdec as [? Hdec]). clear Hdec.
  unfold ts_field. name_fields.
  rewrite !list_ascii_of_string_of_list_ascii.
  rewrite !py_int_digit_chars
    by (try discriminate; cbn [forallb];
        repeat (apply andb_true_intro; split);
        try (apply is_decimal_digit_char; assumption); reflexivity).
  cbn [forallb].
  repeat match goal with
         | D : is_decimal _ = true |- _ => rewrite D
         end.
  cbn [andb].
  repeat match goal with
         | D : is_decimal _ = true |- _ => apply is_decimal_range in D
         end.
  unfold dec_value. cbn [fold_left].
  repeat split; lia.
Qed.

(** On strings of code points below 256, as the strings here are,
    [validate_timestamp] accepts the well-formed timestamps and no
    other, and refuses with [ValueError]. *)
Lemma validate_timestamp_spec (ts_str : string) :
  (validate_timestamp ts_str = Ok tt <-> well_formed ts_str)
  /\ (validate_timestamp ts_str = Ok tt
      \/ validate_timestamp ts_str = Raise ValueError).
Proof.
  assert (Hcases : validate_timestamp ts_str = Ok tt /\ well_formed ts_str
                   \/ validate_timestamp ts_str = Raise ValueError
                      /\ ~ well_formed ts_str).
  2:{ destruct Hcases as [[E W]|[E W]]; rewrite E.
      - split; [tauto|auto].
      - split; [|auto]. split; [discriminate|tauto]. }
  unfold validate_timestamp.
  destruct (Nat.eqb_spec (String.length ts_str) 14) as [Hlen|Hlen].
  2:{ right. split; [reflexivity|]. intros [H _]. contradiction. }
  cbn [negb orb].
  destruct (forallb is_decimal (list_ascii_of_string ts_str)) eqn:Hdec.
  - destruct (fields_of_digits ts_str Hlen Hdec)
      as (Ey & Emo & Ed & Eh & Emi & Es & Hh & Hmi & Hs).
    assert (Hdig : isdigit ts_str = true).
    { unfold isdigit.
      destruct (list_ascii_of_string ts_str) as [|c cs] eqn:E.
      - apply (f_equal (@List.length ascii)) in E.
        rewrite <- length_list_ascii_of_string in Hlen.
        rewrite E in Hlen. discriminate.
      - apply forallb_forall. intros x Hx. apply is_decimal_digit_char.
        rewrite forallb_forall in Hdec. now apply Hdec. }
    rewrite Hdig. cbn [negb].
    rewrite Ey, Emo, Ed, Eh, Emi, Es. cbn [bind].
    unfold well_formed.
    repeat match goal with
           | |- context [if negb ?b then _ else _] =>
               let B := fresh "B" in
               destruct b eqn:B; cbn [negb];
               [|right; split; [reflexivity|lia]]
           end.
    left. split; [reflexivity|]. rewrite Hdec.
    split; [exact Hlen|]. split; [reflexivity|]. lia.
  - assert (Hno : ~ well_formed ts_str).
    { intros (_ & H & _). congruence. }
    destruct (isdigit ts_str) eqn:Hdig;
      [|right; split; [reflexivity|exact Hno]].
    cbn [negb]. right. split; [|exact Hno].
    do 14 (destruct ts_str as [|? ts_str]; [discriminate|]).
    destruct ts_str; [|discriminate]. clear Hlen Hno.
    unfold isdigit in Hdig.
    cbn [list_ascii_of_string forallb] in Hdec, Hdig.
    repeat (apply andb_prop in Hdig; destruct Hdig as [? Hdig]). clear Hdig.
    name_fields.
    rewrite !py_int_digit_chars
      by (try discriminate; cbn [forallb];
          repeat (apply andb_true_intro; split);
          try assumption; reflexivity).
    cbn [forallb].
    repeat match goal with
           | |- context [is_decimal ?c] =>
               let D := fresh "D" in
               destruct (is_decimal c) eqn:D; cbn [andb bind];
               [|try reflexivity]
           end.
    all: try reflexivity.
    all: exfalso; cbn [andb] in Hdec; discriminate.
Qed.

(** X18. [validate_timestamp] accepts every string of fourteen digits
    0 to 9 whose year is in 2000..2099, month in 1..12, day in 1..31,
    hour at most 23 and minute and second at most 59, and of the
    strings of digits 0 to 9 it accepts no other.  A string with one of
    the superscript digits U+00B2, U+00B3, U+00B9, which [str.isdigit]
    lets through, is refused, [int] not taking them.  Every refusal is
    a [ValueError]; nothing else is raised. *)
Theorem validate_timestamp_accepts_well_formed (ts_str : string) :
  (well_formed ts_str <->
   validate_timestamp ts_str = Ok tt /\
   forallb is_decimal (list_ascii_of_string ts_str) = true)
  /\ (forall c, In c (list_ascii_of_string ts_str) ->
                In (code c) [178; 179; 185] ->
                validate_timestamp ts_str = Raise ValueError)
  /\ (validate_timestamp ts_str = Ok tt
      \/ validate_timestamp ts_str = Raise ValueError).
Proof.
  destruct (validate_timestamp_spec ts_str) as [Hiff Hcases].
  split; [|split; [|exact Hcases]].
  - split.
    + intro Hw. split; [now apply Hiff|]. now destruct Hw as (_ & Hd & _).
    + intros [Hv _]. now apply Hiff.
  - intros c Hc Hsup. destruct Hcases as [Hok|Hraise]; [|exact Hraise].
    exfalso. apply Hiff in Hok. destruct Hok as (_ & Hd & _).
    rewrite forallb_forall in Hd. specialize (Hd c Hc).
    apply is_decimal_range in Hd.
    cbn [In] in Hsup. lia.
Qed.

(** ** Dates that do not exist *)

Lemma py_int_raises_value_error (s : string) (e : exn) :
  py_int s = Raise e -> e = ValueError.
Proof.
  unfold py_int.
  match goal with
  | |- match ?x with Some _ => _ | None => _ end = _ -> _ => destruct x
  end; congruence.
Qed.

(** [_parse_ts] on a string that [validate_timestamp] accepts: the
    only test left is that of the day against the length of the
    month. *)
Lemma parse_ts_of_validated (ts_str : string) :
  validate_timestamp ts_str = Ok tt ->
  _parse_ts ts_str
  = if ts_field 6 8 ts_str
       <=? days_in_month (ts_field 0 4 ts_str) (ts_field 4 6 ts_str)
    then Ok (mkDatetime (ts_field 0 4 ts_str) (ts_field 4 6 ts_str)
                        (ts_field 6 8 ts_str) (ts_field 8 10 ts_str)
                        (ts_field 10 12 ts_str) (ts_field 12 14 ts_str))
    else Raise ValueError.
Proof.
  intro Hv. apply validate_timestamp_spec in Hv.
  destruct Hv as (Hlen & Hdec & Hy & Hmo & Hd & Hh & Hmi & Hs).
  destruct (fields_of_digits ts_str Hlen Hdec)
    as (Ey & Emo & Ed & Eh & Emi & Es & Hh0 & Hmi0 & Hs0).
  unfold _parse_ts. rewrite Ey, Emo, Ed, Eh, Emi, Es. cbn [bind].
  unfold datetime_new.
  destruct (ts_field 6 8 ts_str
            <=? days_in_month (ts_field 0 4 ts_str) (ts_field 4 6 ts_str))
    eqn:Hday.
  - match goal with
    | |- (if ?b then _ else _) = _ => replace b with true by (symmetry; lia)
    end.
    reflexivity.
  - match goal with
    | |- (if ?b then _ else _) = _ => replace b with false by (symmetry; lia)
    end.
    reflexivity.
Qed.

(** X19. [validate_timestamp] lets through days that the month does
    not have, and [_parse_ts] refuses exactly those: on an accepted
    string it returns the date and time of the six fields when the day
    is within the month, and otherwise raises [ValueError], and so does
    every [patch_file] whose wrong time is such a string, whatever the
    file, the correct time and the mode. *)
Theorem validated_timestamp_parses_iff_day_in_month (ts_str : string) :
  validate_timestamp ts_str = Ok tt ->
  (ts_field 6 8 ts_str
   <= days_in_month (ts_field 0 4 ts_str) (ts_field 4 6 ts_str) ->
   _parse_ts ts_str
   = Ok (mkDatetime (ts_field 0 4 ts_str) (ts_field 4 6 ts_str)
                    (ts_field 6 8 ts_str) (ts_field 8 10 ts_str)
                    (ts_field 10 12 ts_str) (ts_field 12 14 ts_str)))
  /\ (days_in_month (ts_field 0 4 ts_str) (ts_field 4 6 ts_str)
      < ts_field 6 8 ts_str ->
      _parse_ts ts_str = Raise ValueError /\
      forall file correct_str dry_run,
        patch_file file ts_str correct_str dry_run = Raise ValueError).
Proof.
  intro Hv. pose proof (parse_ts_of_validated ts_str Hv) as Hp.
  split; intro Hday.
  - rewrite Hp. apply Z.leb_le in Hday. now rewrite Hday.
  - apply Z.leb_gt in Hday. rewrite Hday in Hp. split; [exact Hp|].
    intros file correct_str dry_run.
    destruct (validate_timestamp_accepts ts_str Hv) as [v [Ev _]].
    unfold patch_file, plan_patches. rewrite Ev. cbn [bind].
    destruct (py_int correct_str) as [c|e] eqn:Ec.
    + cbn [bind]. rewrite Hp. reflexivity.
    + cbn [bind]. now rewrite (py_int_raises_value_error _ _ Ec).
Qed.

Lemma validated_timestamp_parses_iff_day_in_month_witness :
  (ts_field 6 8 "20260231120000"
   <= days_in_month (ts_field 0 4 "20260231120000")
                    (ts_field 4 6 "20260231120000") ->
   _parse_ts "20260231120000"
   = Ok (mkDatetime (ts_field 0 4 "20260231120000")
                    (ts_field 4 6 "20260231120000")
                    (ts_field 6 8 "20260231120000")
                    (ts_field 8 10 "20260231120000")
                    (ts_field 10 12 "20260231120000")
                    (ts_field 12 14 "20260231120000")))
  /\ (days_in_month (ts_field 0 4 "20260231120000")
                    (ts_field 4 6 "20260231120000")
      < ts_field 6 8 "20260231120000" ->
      _parse_ts "20260231120000" = Raise ValueError /\
      forall file correct_str dry_run,
        patch_file file "20260231120000" correct_str dry_run
        = Raise ValueError).
Proof.
  apply (validated_timestamp_parses_iff_day_in_month "20260231120000").
  vm_compute. reflexivity.
Defined.

(** ** What [main] runs the patcher with *)

Lemma mem_In (a : string) (argv : list string) :
  mem a argv = true <-> In a argv.
Proof.
  unfold mem. rewrite existsb_exists. split.
  - intros [x [Hx E]]. apply String.eqb_eq in E. now subst.
  - intro H. exists a. split; [exact H|apply String.eqb_refl].
Qed.

Lemma In_removelast {A : Type} (x : A) (l : list A) :
  In x (removelast l) -> In x l.
Proof.
  induction l as [|a l IH]; [auto|].
  destruct l as [|b l]; [intros []|].
  intros [->|H]; [now left|right; now apply IH].
Qed.

Lemma main_compare_patch (files files' : list string)
      (wrong_str correct_str wrong_str' correct_str' : string)
      (dry_run dry_run' : bool) (out out' : list line) :
  main_compare files wrong_str correct_str dry_run out
  = Patch files' wrong_str' correct_str' dry_run' out' ->
  files' = files /\ wrong_str' = wrong_str /\ correct_str' = correct_str /\
  dry_run' = dry_run /\ wrong_str <> correct_str.
Proof.
  unfold main_compare.
  destruct (String.eqb_spec wrong_str correct_str) as [E|E];
    [discriminate|].
  intro H. inversion H; subst. auto.
Qed.

Lemma main_setup_patch (argv : list string) (fs : filesystem)
      (files : list string) (wrong_str correct_str : string)
      (dry_run : bool) (out : list line) :
  main_setup argv fs = Ok (Patch files wrong_str correct_str dry_run out) ->
  validate_timestamp wrong_str = Ok tt /\
  validate_timestamp correct_str = Ok tt /\
  wrong_str <> correct_str /\
  (dry_run = true <-> In "--dry-run"%string argv) /\
  ~ In "--read"%string argv /\
  Forall (fun f => In f (tl argv) /\ startswith_dash f = false) files.
Proof.
  unfold main_setup.
  destruct ((List.length argv <? 2)%nat
            || (mem "--help" argv || mem "-h" argv)); [discriminate|].
  destruct (mem "--read" argv) eqn:Hread.
  { intro H. apply bind_Ok in H. destruct H as [o [_ H]]. discriminate. }
  assert (Hnr : ~ In "--read"%string argv).
  { intro H. apply mem_In in H. congruence. }
  set (args := filter (fun a => negb (startswith_dash a)) (tl argv)).
  assert (Hargs : forall f, In f args ->
                            In f (tl argv) /\ startswith_dash f = false).
  { intros f Hf. apply filter_In in Hf. destruct Hf as [Hf Hd].
    split; [exact Hf|]. now destruct (startswith_dash f). }
  destruct (List.length args <? 2)%nat; [discriminate|].
  match goal with
  | |- (if ?b then _ else _) = _ -> _ => destruct b
  end.
  - intro H.
    apply bind_Ok in H. destruct H as [[] [Hc H]].
    apply bind_Ok in H. destruct H as [[] [Hw H]].
    inversion H as [H1]. apply main_compare_patch in H1.
    destruct H1 as (-> & -> & -> & -> & Hne).
    repeat (split; [first [assumption | apply mem_In]|]).
    apply Forall_forall. intros f Hf. apply Hargs.
    now apply In_removelast, In_removelast.
  - match goal with
    | |- (if ?b then _ else _) = _ -> _ => destruct b; [|discriminate]
    end.
    intro H. apply bind_Ok in H. destruct H as [[] [Hc H]].
    destruct (first_existing fs (removelast args)) as [[first_file content]|];
      [|discriminate].
    destruct (String.eqb first_file ""); [discriminate|].
    apply bind_Ok in H. destruct H as [w [Hw H]].
    apply read_shooting_time_found in Hw. destruct Hw as [Hw _].
    inversion H as [H1]. apply main_compare_patch in H1.
    destruct H1 as (-> & -> & -> & -> & Hne).
    repeat (split; [first [assumption | apply mem_In]|]).
    apply Forall_forall. intros f Hf. apply Hargs.
    now apply In_removelast.
Qed.

(** X20. [main] runs the patcher only with two timestamps that
    [validate_timestamp] accepts and that differ, whether the wrong time
    was given or read from the first file; the files are arguments that
    do not start with a dash, the run is dry exactly when [--dry-run] is
    among the arguments, and [--read] is not. *)
Theorem main_patches_with_validated_timestamps
        (argv : list string) (fs : filesystem)
        (files : list string) (wrong_str correct_str : string)
        (dry_run : bool) (out : list line) :
  main_setup argv fs = Ok (Patch files wrong_str correct_str dry_run out) ->
  validate_timestamp wrong_str = Ok tt /\
  validate_timestamp correct_str = Ok tt /\
  wrong_str <> correct_str /\
  (dry_run = true <-> In "--dry-run"%string argv) /\
  ~ In "--read"%string argv /\
  Forall (fun f => In f (tl argv) /\ startswith_dash f = false) files.
Proof. apply main_setup_patch. Qed.

Lemma main_patches_with_validated_timestamps_witness :
  validate_timestamp "20260103194656" = Ok tt /\
  validate_timestamp "20260215143800" = Ok tt /\
  "20260103194656"%string <> "20260215143800"%string /\
  (true = true <->
   In "--dry-run"%string
      ["instatimefixer.py"; "--dry-run"; "a.mp4"; "b.mp4";
       "20260215143800"]%string) /\
  ~ In "--read"%string
       ["instatimefixer.py"; "--dry-run"; "a.mp4"; "b.mp4";
        "20260215143800"]%string /\
  Forall (fun f =>
            In f (tl ["instatimefixer.py"; "--dry-run"; "a.mp4"; "b.mp4";
                      "20260215143800"]%string) /\
            startswith_dash f = false)
         ["a.mp4"; "b.mp4"]%string.
Proof.
  apply (main_patches_with_validated_timestamps
           ["instatimefixer.py"; "--dry-run"; "a.mp4"; "b.mp4";
            "20260215143800"]%string
           [("b.mp4"%string, reader_example_file)]
           ["a.mp4"; "b.mp4"]%string "20260103194656" "20260215143800" true
           [LineDryRunMode; LineAutoDetected "2026-01-03 19:46:56";
            LineCurrent "2026-01-03 19:46:56";
            LineCorrect "2026-02-15 14:38:00"]).
  vm_compute. reflexivity.
Defined.

(** ** What [main] does to the files *)

Lemma fs_store_sizes (fs : filesystem) (path : string)
      (content content' : bytes) :
  fs_lookup fs path = Some content ->
  len content' = len content ->
  sizes (fs_store fs path content') = sizes fs.
Proof.
  intros Hl Hlen. induction fs as [|[p c] fs IH]; [reflexivity|].
  cbn [fs_lookup fs_store] in *.
  destruct (String.eqb p path).
  - inversion Hl; subst. unfold sizes. cbn [map fst snd]. now rewrite Hlen.
  - unfold sizes in *. cbn [map fst snd]. now rewrite IH.
Qed.

Lemma main_loop_sizes (files : list string) :
  forall fs wrong_str correct_str dry_run fs' out,
    String.length wrong_str = String.length correct_str ->
    main_loop fs files wrong_str correct_str dry_run = Ok (fs', out) ->
    sizes fs' = sizes fs.
Proof.
  induction files as [|filepath files IH];
    intros fs wrong_str correct_str dry_run fs' out Hlen H.
  - simpl in H. now inversion H.
  - cbn [main_loop] in H.
    destruct (fs_lookup fs filepath) as [content|] eqn:El.
    + apply bind_Ok in H. destruct H as [[[success content'] out1] [Ep H]].
      apply (patch_file_same_length _ _ _ _ _ _ _ Hlen) in Ep.
      apply bind_Ok in H. destruct H as [[fs2 out2] [Er H]].
      inversion H; subst.
      rewrite (IH _ _ _ _ _ _ Hlen Er). now apply fs_store_sizes with content.
    + apply bind_Ok in H. destruct H as [[fs2 out2] [Er H]].
      inversion H; subst. eapply IH; eauto.
Qed.

Lemma main_files (argv : list string) (fs fs' : filesystem)
      (out : list line) (st : status) :
  main argv fs = Ok (fs', out, st) ->
  sizes fs' = sizes fs /\
  (In "--dry-run"%string argv \/ In "--read"%string argv \/ st <> Returned ->
   fs' = fs).
Proof.
  unfold main. intro H. apply bind_Ok in H. destruct H as [s [Hs H]].
  destruct s as [out0 st0|files wrong_str correct_str dry_run out0].
  - inversion H; subst. auto.
  - apply bind_Ok in H. destruct H as [[fs1 out1] [Hloop H]].
    inversion H; subst.
    destruct (main_setup_patch _ _ _ _ _ _ _ Hs)
      as (Hw & Hc & _ & Hdry & Hread & _).
    apply validate_timestamp_spec in Hw. apply validate_timestamp_spec in Hc.
    destruct Hw as [Hw _]. destruct Hc as [Hc _].
    split.
    + eapply main_loop_sizes; [|exact Hloop]. congruence.
    + intros [Hd|[Hr|Hst]].
      * apply Hdry in Hd. subst dry_run.
        eapply main_loop_dry_run; eauto.
      * contradiction.
      * congruence.
Qed.

(** X21. Whatever the arguments, [main] neither creates nor removes a
    file nor changes the size of one: when it ends without an uncaught
    exception the paths and the sizes are as before.  And with
    [--dry-run] or [--read] among the arguments, or when it ends in
    [sys.exit], every file is as it was. *)
Theorem main_keeps_paths_and_sizes
        (argv : list string) (fs fs' : filesystem)
        (out : list line) (st : status) :
  main argv fs = Ok (fs', out, st) ->
  sizes fs' = sizes fs /\
  (In "--dry-run"%string argv \/ In "--read"%string argv \/ st <> Returned ->
   fs' = fs).
Proof. apply main_files. Qed.

Lemma main_keeps_paths_and_sizes_witness :
  sizes [("a.mp4"%string, mvhd_example_once)]
  = sizes [("a.mp4"%string, mvhd_example_file)] /\
  (In "--dry-run"%string
      ["instatimefixer.py"; "a.mp4"; "20260103194656";
       "20260215143800"]%string
   \/ In "--read"%string
         ["instatimefixer.py"; "a.mp4"; "20260103194656";
          "20260215143800"]%string
   \/ Returned <> Returned ->
   [("a.mp4"%string, mvhd_example_once)]
   = [("a.mp4"%string, mvhd_example_file)]).
Proof.
  apply (main_keeps_paths_and_sizes
           ["instatimefixer.py"; "a.mp4"; "20260103194656";
            "20260215143800"]%string
           [("a.mp4"%string, mvhd_example_file)]
           [("a.mp4"%string, mvhd_example_once)]
           [LineCurrent "2026-01-03 19:46:56";
            LineCorrect "2026-02-15 14:38:00"; LineOf (MsgFile "a.mp4");
            LineOf (MsgCandidate "mvhd.creation" 8);
            LineOf (MsgCandidate "mvhd.modification" 12);
            LineOf (MsgApplied 2); LineOf MsgDone]
           Returned).
  vm_compute. reflexivity.
Defined.

(** ** No occurrence is missed *)

Lemma validated_varint_7 (ts_str : string) (v : Z) (bs : bytes) :
  validate_timestamp ts_str = Ok tt ->
  py_int ts_str = Ok v -> _encode_varint v = Ok bs ->
  List.length bs = 7%nat.
Proof.
  intros Hv Ei Ee.
  destruct (validate_timestamp_accepts ts_str Hv) as [v' [Ev Hr]].
  rewrite Ei in Ev. inversion Ev; subst v'.
  destruct (encode_varint_7 v) as [bs' [E L]]; [lia|].
  rewrite Ee in E. inversion E; subst. exact L.
Qed.

(** A patch that is in one of the two stages that take every hit is in
    the plan: no patch of another stage has its type. *)
Lemma plan_keeps (file : bytes) (wrong_str correct_str : string)
      (patches : list patch) (p : patch) :
  plan_patches file wrong_str correct_str = Ok (Patches patches) ->
  forall wrong_varint correct_varint wrong_ascii correct_ascii o,
    In o (_find_pattern file (x38 :: wrong_varint)) /\
    p = mkPatch "protobuf creation_time" (o + 1) wrong_varint correct_varint
    \/ In o (_find_pattern file wrong_ascii) /\
       p = mkPatch "ASCII filename date" o wrong_ascii correct_ascii ->
    (exists wrong_ts, py_int wrong_str = Ok wrong_ts /\
                      _encode_varint wrong_ts = Ok wrong_varint) ->
    (exists correct_ts, py_int correct_str = Ok correct_ts /\
                        _encode_varint correct_ts = Ok correct_varint) ->
    encode_ascii (str_slice 0 8 wrong_str ++ "_" ++ str_from 8 wrong_str)
    = Ok wrong_ascii ->
    encode_ascii (str_slice 0 8 correct_str ++ "_" ++ str_from 8 correct_str)
    = Ok correct_ascii ->
    In p patches.
Proof.
  intros Hplan wv' cv' wa' ca' o Hp (wts & Ewts & Ewv') (cts & Ects & Ecv')
         Ewa' Eca'.
  destruct (plan_patches_inv _ _ _ _ Hplan)
    as (wrong_ts & correct_ts & wrong_dt & correct_dt & atoms & wv & cv
        & gps & wa & ca & Ew & Ec & _ & _ & Eatoms & Ewv & Ecv & _ & Egps
        & Ewa & Eca & ->).
  rewrite Ew in Ewts. inversion Ewts; subst wts.
  rewrite Ec in Ects. inversion Ects; subst cts.
  rewrite Ewv in Ewv'. inversion Ewv'; subst wv'.
  rewrite Ecv in Ecv'. inversion Ecv'; subst cv'.
  rewrite Ewa in Ewa'. inversion Ewa'; subst wa'.
  rewrite Eca in Eca'. inversion Eca'; subst ca'.
  match goal with
  | |- In p (dedup [] ?l) => set (all := l)
  end.
  assert (Hall : In p all).
  { unfold all. destruct Hp as [[Ho ->]|[Ho ->]].
    - apply in_or_app. right. apply in_or_app. left.
      unfold protobuf_patches. apply in_map_iff. exists o. auto.
    - do 3 (apply in_or_app; right). apply in_or_app. left.
      unfold ascii_patches. apply in_map_iff. exists o. auto. }
  destruct (dedup_keys all []) as (_ & _ & Hcov).
  destruct (Hcov p Hall) as [[]|(q & Hq & Hkey)].
  assert (Hqall : In q all) by (eapply dedup_In; eauto).
  assert (Eq : q = p); [|now subst q].
  unfold patch_key in Hkey. inversion Hkey as [[Hoff Htype]].
  unfold all in Hqall.
  repeat (apply in_app_or in Hqall; destruct Hqall as [Hqall|Hqall]).
  - apply (mp4_patches_types _ _ _ _ Eatoms) in Hqall.
    rewrite Htype in Hqall. exfalso.
    destruct Hp as [[_ ->]|[_ ->]]; simpl in Hqall;
      repeat (destruct Hqall as [Hqall|Hqall]; [discriminate|]);
      contradiction.
  - destruct Hp as [[_ ->]|[_ ->]].
    + unfold protobuf_patches in Hqall. apply in_map_iff in Hqall.
      destruct Hqall as [o' [<- _]]. simpl in Hoff. f_equal. exact Hoff.
    + apply protobuf_patches_types in Hqall. rewrite Htype in Hqall.
      discriminate.
  - apply (gps_patches_In _ _ _ _ _ Egps) in Hqall.
    destruct Hqall as [Hqt _]. rewrite Htype in Hqt.
    destruct Hp as [[_ ->]|[_ ->]]; discriminate.
  - destruct Hp as [[_ ->]|[_ ->]].
    + apply ascii_patches_types in Hqall. rewrite Htype in Hqall.
      discriminate.
    + unfold ascii_patches in Hqall. apply in_map_iff in Hqall.
      destruct Hqall as [o' [<- _]]. simpl in Hoff. f_equal. exact Hoff.
  - apply utf16_patches_In in Hqall.
    destruct Hqall as (o' & _ & _ & [[Hqt _]|[Hqt _]]);
      rewrite Htype in Hqt;
      destruct Hp as [[_ ->]|[_ ->]]; discriminate.
Qed.

(** X22. The plan misses no occurrence of the wrong time: with a wrong
    time that [validate_timestamp] accepts, wherever the file holds the
    tag [38] followed by the varint of the wrong time, the plan has the
    protobuf candidate for it, and wherever it holds the ASCII form
    [YYYYMMDD_HHmmss], the plan has the ASCII candidate for it; the
    candidates of other stages at the same offsets do not displace
    them. *)
Theorem occurrences_become_candidates
        (file : bytes) (wrong_str correct_str : string)
        (patches : list patch) :
  validate_timestamp wrong_str = Ok tt ->
  plan_patches file wrong_str correct_str = Ok (Patches patches) ->
  exists wrong_ts correct_ts wrong_varint correct_varint
         wrong_ascii correct_ascii,
    py_int wrong_str = Ok wrong_ts /\
    py_int correct_str = Ok correct_ts /\
    _encode_varint wrong_ts = Ok wrong_varint /\
    _encode_varint correct_ts = Ok correct_varint /\
    encode_ascii (str_slice 0 8 wrong_str ++ "_" ++ str_from 8 wrong_str)
    = Ok wrong_ascii /\
    encode_ascii (str_slice 0 8 correct_str ++ "_" ++ str_from 8 correct_str)
    = Ok correct_ascii /\
    (forall o, occurs_at file (x38 :: wrong_varint) o ->
       In (mkPatch "protobuf creation_time" (o + 1)
                   wrong_varint correct_varint) patches) /\
    (forall o, occurs_at file wrong_ascii o ->
       In (mkPatch "ASCII filename date" o wrong_ascii correct_ascii)
          patches).
Proof.
  intros Hv Hplan.
  destruct (plan_patches_inv _ _ _ _ Hplan)
    as (wrong_ts & correct_ts & wrong_dt & correct_dt & atoms & wv & cv
        & gps & wa & ca & Ew & Ec & _ & _ & Eatoms & Ewv & Ecv & _ & Egps
        & Ewa & Eca & _).
  exists wrong_ts, correct_ts, wv, cv, wa, ca.
  repeat (split; [assumption|]).
  pose proof (validated_varint_7 _ _ _ Hv Ew Ewv) as L7.
  pose proof (joined_ascii_length _ _ Ewa) as La.
  apply validate_timestamp_spec in Hv. destruct Hv as [L14 _].
  split; intros o Ho.
  - eapply plan_keeps; eauto. left. split; [|reflexivity].
    apply find_pattern_spec; [discriminate| |exact Ho].
    unfold len. cbn [List.length]. rewrite L7. vm_compute. discriminate.
  - eapply plan_keeps; eauto. right. split; [|reflexivity].
    apply find_pattern_spec; [| |exact Ho].
    + intro E. rewrite E in La. discriminate.
    + unfold len. rewrite La, L14. vm_compute. discriminate.
Qed.

Lemma occurrences_become_candidates_witness :
  exists wrong_ts correct_ts wrong_varint correct_varint
         wrong_ascii correct_ascii,
    py_int "20260103194656" = Ok wrong_ts /\
    py_int "20260215143800" = Ok correct_ts /\
    _encode_varint wrong_ts = Ok wrong_varint /\
    _encode_varint correct_ts = Ok correct_varint /\
    encode_ascii (str_slice 0 8 "20260103194656" ++ "_"
                  ++ str_from 8 "20260103194656")
    = Ok wrong_ascii /\
    encode_ascii (str_slice 0 8 "20260215143800" ++ "_"
                  ++ str_from 8 "20260215143800")
    = Ok correct_ascii /\
    (forall o, occurs_at ascii_example_file (x38 :: wrong_varint) o ->
       In (mkPatch "protobuf creation_time" (o + 1)
                   wrong_varint correct_varint)
          [mkPatch "ASCII filename date" 2
                   (list_byte_of_string "20260103_194656")
                   (list_byte_of_string "20260215_143800")]) /\
    (forall o, occurs_at ascii_example_file wrong_ascii o ->
       In (mkPatch "ASCII filename date" o wrong_ascii correct_ascii)
          [mkPatch "ASCII filename date" 2
                   (list_byte_of_string "20260103_194656")
                   (list_byte_of_string "20260215_143800")]).
Proof.
  apply (occurrences_become_candidates
           ascii_example_file "20260103194656" "20260215143800").
  - vm_compute. reflexivity.
  - vm_compute. reflexivity.
Defined.

(** ** Reading back what was written *)

Lemma dec_value_lower (ds : list ascii) :
  forall a, 0 <= a -> forallb is_decimal ds = true -> a <= dec_value ds a.
Proof.
  unfold dec_value.
  induction ds as [|c ds IH]; intros a Ha Hd; cbn [fold_left]; [lia|].
  cbn [forallb] in Hd. apply andb_prop in Hd. destruct Hd as [Hc Hd].
  apply is_decimal_range in Hc.
  specialize (IH (a * 10 + (code c - 48)) ltac:(lia) Hd). lia.
Qed.

(** [str()] gives back the digits of a number written without a
    leading zero. *)
Lemma str_digits_of_value (ds : list ascii) :
  forall fuel acc,
    forallb is_decimal ds = true ->
    (exists c rest, ds = c :: rest /\ code c <> 48) ->
    (List.length ds <= fuel)%nat ->
    str_digits fuel (dec_value ds 0) acc = ds ++ acc.
Proof.
  induction ds as [|c ds0 IH] using rev_ind;
    intros fuel acc Hd (c0 & rest & E & Hc0) Hfuel.
  { discriminate. }
  rewrite forallb_app in Hd. apply andb_prop in Hd. destruct Hd as [Hd0 Hc].
  cbn [forallb] in Hc. rewrite andb_true_r in Hc.
  rewrite length_app in Hfuel. cbn [List.length] in Hfuel.
  destruct fuel as [|fuel]; [lia|].
  rewrite dec_value_app. unfold dec_value at 1. cbn [fold_left].
  pose proof (is_decimal_range _ Hc) as Rc.
  cbn [str_digits].
  replace ((dec_value ds0 0 * 10 + (code c - 48)) mod 10) with (code c - 48)
    by (symmetry; rewrite Z.add_comm, Z.mod_add by lia;
        apply Z.mod_small; lia).
  rewrite (digit_char_code _ Hc).
  destruct ds0 as [|d ds0].
  - unfold dec_value. cbn [fold_left].
    destruct (Z.ltb_spec (0 * 10 + (code c - 48)) 10); [reflexivity|lia].
  - cbn [app] in E. inversion E; subst c0 rest.
    assert (Hv : 1 <= dec_value (d :: ds0) 0).
    { cbn [forallb] in Hd0. apply andb_prop in Hd0.
      destruct Hd0 as [Hdd Hd0]. apply is_decimal_range in Hdd.
      unfold dec_value. cbn [fold_left].
      pose proof (dec_value_lower ds0 (0 * 10 + (code d - 48))) as L.
      unfold dec_value in L. specialize (L ltac:(lia) Hd0). lia. }
    destruct (Z.ltb_spec (dec_value (d :: ds0) 0 * 10 + (code c - 48)) 10);
      [lia|].
    replace ((dec_value (d :: ds0) 0 * 10 + (code c - 48)) / 10)
      with (dec_value (d :: ds0) 0)
      by (symmetry; rewrite Z.add_comm, Z.div_add by lia;
          rewrite Z.div_small by lia; lia).
    rewrite IH.
    + now rewrite <- app_assoc.
    + exact Hd0.
    + exists d, ds0. auto.
    + cbn [List.length] in *. lia.
Qed.

(** [str(int(s))] is [s] for a timestamp that [validate_timestamp]
    accepts, the strings here being of code points below 256: an
    accepted one is written with the digits 0 to 9. *)
Lemma py_str_of_validated (ts_str : string) (v : Z) :
  validate_timestamp ts_str = Ok tt -> py_int ts_str = Ok v ->
  py_str v = ts_str.
Proof.
  intros Hv Ei.
  destruct (validate_timestamp_accepts ts_str Hv) as [v' [Ev Hr]].
  rewrite Ei in Ev. inversion Ev; subst v'. clear Ev.
  apply validate_timestamp_spec in Hv.
  destruct Hv as (Hlen & Hdec & Hy & _).
  assert (Hval : v = dec_value (list_ascii_of_string ts_str) 0).
  { rewrite <- (string_of_list_ascii_of_string ts_str) in Ei.
    rewrite py_int_digit_chars in Ei.
    - rewrite Hdec in Ei. now inversion Ei.
    - intro E. rewrite <- length_list_ascii_of_string, E in Hlen.
      discriminate.
    - now apply decimal_is_digit_char. }
  unfold py_str. destruct (Z.ltb_spec v 0); [lia|].
  rewrite Hval at 2.
  rewrite str_digits_of_value.
  - rewrite app_nil_r. apply string_of_list_ascii_of_string.
  - exact Hdec.
  - do 14 (destruct ts_str as [|? ts_str]; [discriminate|]).
    cbn [list_ascii_of_string]. eexists. eexists. split; [reflexivity|].
    unfold ts_field in Hy. cbn [list_ascii_of_string forallb] in Hdec, Hy.
    repeat (apply andb_prop in Hdec; destruct Hdec as [? Hdec]).
    repeat match goal with
           | D : is_decimal _ = true |- _ => apply is_decimal_range in D
           end.
    revert Hy.
    match goal with
    | |- context [String ?c0 (String ?c1 (String ?c2 (String ?c3 _)))] =>
        change (list_ascii_of_string (str_slice 0 4 _))
          with [c0; c1; c2; c3]
    end.
    unfold dec_value. cbn [fold_left]. lia.
  - rewrite length_list_ascii_of_string, Hlen.
    assert (44 <= Z.log2 v) by (apply Z.log2_le_pow2; lia). lia.
Qed.

(** The first hit of a pattern that the file starts with is 0. *)
Lemma find_pattern_first (file pattern : bytes) :
  pattern <> [] -> len pattern <= _CHUNK_SIZE ->
  occurs_at file pattern 0 ->
  exists rest, _find_pattern file pattern = 0 :: rest.
Proof.
  intros Hne Hlen Hocc.
  destruct (find_pattern_spec file pattern Hne) as (Hsound & Hsorted & Hall).
  specialize (Hall Hlen 0 Hocc).
  destruct (_find_pattern file pattern) as [|o rest]; [contradiction|].
  exists rest. f_equal.
  assert (0 <= o) by (destruct (Hsound o) as [H _]; [now left|exact H]).
  apply StronglySorted_inv in Hsorted. destruct Hsorted as [_ Hle].
  destruct Hall as [E|Hin]; [exact E|].
  rewrite Forall_forall in Hle. specialize (Hle 0 Hin). lia.
Qed.

Lemma read_shooting_time_of_written
      (ts_str : string) (v : Z) (varint rest : bytes) :
  validate_timestamp ts_str = Ok tt ->
  py_int ts_str = Ok v ->
  _encode_varint v = Ok varint ->
  read_shooting_time (x38 :: varint ++ rest) = Ok ts_str.
Proof.
  intros Hv Ei Ee.
  pose proof (validated_varint_7 _ _ _ Hv Ei Ee) as L7.
  pose proof (py_str_of_validated _ _ Hv Ei) as Hstr.
  destruct (validate_timestamp_accepts ts_str Hv) as [v' [Ev Hr]].
  rewrite Ei in Ev. inversion Ev; subst v'. clear Ev.
  unfold read_shooting_time.
  destruct (find_pattern_first (x38 :: varint ++ rest) [x38])
    as [hits Ehits].
  { discriminate. }
  { vm_compute. discriminate. }
  { unfold occurs_at, read_at. change (len [x38]) with 1.
    split; [lia|]. split.
    - rewrite len_cons. pose proof (len_nonneg (varint ++ rest)). lia.
    - rewrite drop_0 by lia. rewrite take_firstn. reflexivity. }
  rewrite Ehits. cbn [first_shooting_time].
  assert (Eat : shooting_time_at (x38 :: varint ++ rest) 0
                = Ok (Some ts_str)); [|now rewrite Eat].
  unfold shooting_time_at.
  assert (Ebuf : read_at (x38 :: varint ++ rest) (0 + 1) 10
                 = varint ++ firstn 3 rest).
  { unfold read_at. change (drop (0 + 1) (x38 :: varint ++ rest))
      with (drop 0 (varint ++ rest)).
    rewrite drop_0 by lia. rewrite take_firstn.
    change (Z.to_nat 10) with 10%nat.
    rewrite firstn_app, L7. f_equal.
    rewrite firstn_all2 by lia. reflexivity. }
  rewrite Ebuf.
  destruct (encode_varint_decodes v) as (bs & Ebs & _ & Hdec); [lia|].
  rewrite Ee in Ebs. inversion Ebs; subst bs.
  rewrite Hdec. rewrite Hstr.
  apply validate_timestamp_spec in Hv.
  destruct Hv as (Hlen & Hdig & Hy & Hmo & Hd & Hh & Hmi & Hs).
  destruct (fields_of_digits ts_str Hlen Hdig)
    as (Ey & Emo & Ed & Eh & Emi & Es & Hh0 & Hmi0 & Hs0).
  rewrite Hlen. cbn [Nat.eqb negb orb].
  assert (E20 : String.eqb (str_slice 0 2 ts_str) "20" = true).
  { do 14 (destruct ts_str as [|? ts_str]; [discriminate|]).
    unfold ts_field in Hy. cbn [list_ascii_of_string forallb] in Hdig.
    repeat (apply andb_prop in Hdig; destruct Hdig as [? Hdig]).
    repeat match goal with
           | D : is_decimal _ = true |- _ => apply is_decimal_range in D
           end.
    revert Hy.
    match goal with
    | |- context [String ?c0 (String ?c1 (String ?c2 (String ?c3 _)))] =>
        change (list_ascii_of_string (str_slice 0 4 _))
          with [c0; c1; c2; c3];
        change (str_slice 0 2 _) with (String c0 (String c1 EmptyString));
        assert (Hcode : forall c n, code c = Z.of_nat n ->
                                    c = ascii_of_nat n)
    end.
    { intros c n E. unfold code in E. apply Nat2Z.inj in E.
      rewrite <- E. symmetry. apply ascii_nat_embedding. }
    unfold dec_value. cbn [fold_left]. intro Hy.
    match goal with
    | |- String.eqb (String ?c0 (String ?c1 _)) _ = true =>
        rewrite (Hcode c0 50%nat) by lia; rewrite (Hcode c1 48%nat) by lia
    end.
    reflexivity. }
  rewrite E20. cbn [negb].
  rewrite Ey, Emo, Ed, Eh, Emi, Es. cbn [bind].
  match goal with
  | |- (if ?b then _ else _) = _ => replace b with true by (symmetry; lia)
  end.
  reflexivity.
Qed.

(** X23. The reader finds what the patcher writes: for a timestamp
    written with the digits 0 to 9 that [validate_timestamp] accepts, a
    file that starts with the tag [38] followed by the varint of the
    timestamp's integer, whatever comes after, is read by
    [read_shooting_time] as that very timestamp; [str] undoes [int] on
    it and the decoder the encoder. *)
Theorem read_shooting_time_reads_back
        (ts_str : string) (v : Z) (varint rest : bytes) :
  forallb is_decimal (list_ascii_of_string ts_str) = true ->
  validate_timestamp ts_str = Ok tt ->
  py_int ts_str = Ok v ->
  _encode_varint v = Ok varint ->
  read_shooting_time (x38 :: varint ++ rest) = Ok ts_str.
Proof. intros _. apply read_shooting_time_of_written. Qed.

Lemma read_shooting_time_reads_back_witness :
  read_shooting_time
    (x38 :: [xf8; xfa; xb4; x97; xd3; xcd; x04] ++ [x38; x00; xff])
  = Ok "20260215143800"%string.
Proof.
  apply (read_shooting_time_reads_back "20260215143800" 20260215143800).
  - reflexivity.
  - vm_compute. reflexivity.
  - vm_compute. reflexivity.
  - vm_compute. reflexivity.
Defined.

(** ** Which atoms the atom stage takes *)

Lemma year_of_day (t : Z) :
  fromtimestamp_year t = fromtimestamp_year (t / 86400 * 86400).
Proof.
  unfold fromtimestamp_year. now rewrite Z.div_mul by lia.
Qed.

(** On the days a 32-bit count of seconds from 1904 can fall on,
    counted from 1970-01-01, the year is one of 2000 to 2099 from day
    10957 on. *)
Lemma year_by_day (d : Z) :
  -24107 <= d <= 25603 ->
  (2000 <= fromtimestamp_year (d * 86400) <= 2099 <-> 10957 <= d).
Proof.
  intro Hd. unfold fromtimestamp_year. rewrite Z.div_mul by lia.
  cbv zeta.
  match goal with
  | |- context [if ?b then _ else _] => destruct b eqn:B
  end; Z.div_mod_to_equations; lia.
Qed.

(** For a 32-bit creation time, the years 2000 to 2099 are the counts
    from 3029529600 (2000-01-01T00:00:00Z) on: the field ends in 2040. *)
Lemma year_accepted_32 (ct : Z) :
  0 <= ct <= 4294967295 ->
  (2000 <= fromtimestamp_year (ct - _MP4_EPOCH_OFFSET) <= 2099
   <-> 3029529600 <= ct).
Proof.
  intro Hct. unfold _MP4_EPOCH_OFFSET.
  rewrite (year_of_day (ct - 2082844800)).
  assert (Hlo : 10957 <= (ct - 2082844800) / 86400 <-> 3029529600 <= ct).
  { split; intro H.
    - destruct (Z.le_gt_cases 3029529600 ct) as [|Hlt]; [assumption|].
      assert ((ct - 2082844800) / 86400 < 10957); [|lia].
      apply Z.div_lt_upper_bound; lia.
    - apply Z.div_le_lower_bound; lia. }
  rewrite <- Hlo. apply year_by_day. split.
  - apply Z.div_le_lower_bound; lia.
  - assert ((ct - 2082844800) / 86400 < 25604); [|lia].
    apply Z.div_lt_upper_bound; lia.
Qed.

Lemma mp4_hit_from_2000 (file box_type : bytes) (delta_sec offset : Z)
      (version : byte) (ct : Z) :
  first_byte (read_at file (offset + 4) 20) = Ok version ->
  byte_val version = 0 ->
  unpack_u32 (read_at file (offset + 4) 20) 4 = Ok ct ->
  mp4_hit file box_type delta_sec offset
  = if ct <? 3029529600 then Ok []
    else for_each [(4, "creation"%string); (8, "modification"%string)]
                  (mp4_field box_type (read_at file (offset + 4) 20)
                             offset delta_sec).
Proof.
  intros Hb Hver Hct. unfold mp4_hit. rewrite Hb. cbn [bind].
  rewrite Hver. cbn [Z.eqb negb]. rewrite Hct. cbn [bind].
  pose proof (year_accepted_32 ct (unpack_u32_range _ _ _ Hct)) as Hy.
  destruct (Z.ltb_spec ct 3029529600).
  - match goal with
    | |- (if negb ?b then _ else _) = _ =>
        replace b with false by (symmetry; lia)
    end.
    reflexivity.
  - match goal with
    | |- (if negb ?b then _ else _) = _ =>
        replace b with true by (symmetry; lia)
    end.
    reflexivity.
Qed.

(** X24. Which atoms the atom stage takes: in an atom of version 0
    the test on the year of the creation time, 2000 to 2099, holds
    exactly when the 32-bit field is at least 3029529600, which is
    2000-01-01T00:00:00Z counted from 1904; the upper limit excludes
    nothing, the field ending in 2040.  Below that the hit gives no
    candidate, from there on its two fields are taken. *)
Theorem atom_taken_iff_created_from_2000
        (file box_type : bytes) (delta_sec offset : Z)
        (version : byte) (ct : Z) :
  first_byte (read_at file (offset + 4) 20) = Ok version ->
  byte_val version = 0 ->
  unpack_u32 (read_at file (offset + 4) 20) 4 = Ok ct ->
  (2000 <= fromtimestamp_year (ct - _MP4_EPOCH_OFFSET) <= 2099
   <-> 3029529600 <= ct)
  /\ mp4_hit file box_type delta_sec offset
     = if ct <? 3029529600 then Ok []
       else for_each [(4, "creation"%string); (8, "modification"%string)]
                     (mp4_field box_type (read_at file (offset + 4) 20)
                                offset delta_sec).
Proof.
  intros Hb Hver Hct. split; [|now apply mp4_hit_from_2000 with version].
  exact (year_accepted_32 ct (unpack_u32_range _ _ _ Hct)).
Qed.

Lemma atom_taken_iff_created_from_2000_witness :
  (2000 <= fromtimestamp_year (3850385920 - _MP4_EPOCH_OFFSET) <= 2099
   <-> 3029529600 <= 3850385920)
  /\ mp4_hit mvhd_example_file (list_byte_of_string "mvhd") 3696664 0
     = if 3850385920 <? 3029529600 then Ok []
       else for_each [(4, "creation"%string); (8, "modification"%string)]
                     (mp4_field (list_byte_of_string "mvhd")
                                (read_at mvhd_example_file (0 + 4) 20)
                                0 3696664).
Proof.
  apply (atom_taken_iff_created_from_2000
           mvhd_example_file (list_byte_of_string "mvhd") 3696664 0 x00
           3850385920).
  - vm_compute. reflexivity.
  - reflexivity.
  - vm_compute. reflexivity.
Defined.

(** * The write phase and a second run *)

(** ** The write phase *)

(** What [f.write] does to a file, read back: for an offset within the
    file or at its end. *)
Lemma write_at_replaced (file : bytes) (off : Z) (data : bytes) :
  0 <= off <= len file ->
  replaced file off data (write_at file off data).
Proof.
  intros [Ho Hin]. pose proof (len_nonneg data) as Hd.
  assert (Lt : len (take off file) = off) by (rewrite len_take; lia).
  assert (E : write_at file off data
              = take off file ++ data ++ drop (off + len data) file).
  { unfold write_at. replace (Z.to_nat (off - len file)) with O by lia.
    reflexivity. }
  rewrite E. unfold replaced. split; [|split].
  - rewrite read_at_prefix by lia.
    unfold read_at. rewrite !drop_0 by lia.
    rewrite take_all by lia. reflexivity.
  - rewrite read_at_suffix by lia. rewrite Lt, Z.sub_diag.
    unfold read_at. rewrite drop_0 by lia. apply take_app_exact.
  - rewrite <- Lt at 1. rewrite drop_app_ge by lia. apply drop_app_exact.
Qed.

(** A file is what is read in front of an offset, at it, and after. *)
Lemma replaced_unique (before : bytes) (off : Z) (new a1 a2 : bytes) :
  0 <= off ->
  replaced before off new a1 -> replaced before off new a2 -> a1 = a2.
Proof.
  intros Ho (F1 & M1 & B1) (F2 & M2 & B2).
  pose proof (len_nonneg new) as Hn.
  assert (Hparts : forall a : bytes,
             a = read_at a 0 off ++ read_at a off (len new)
                 ++ drop (off + len new) a).
  { intro a. unfold read_at. rewrite drop_0 by lia.
    rewrite <- (drop_drop (len new) off a) by lia.
    rewrite (take_drop (len new) (drop off a)).
    symmetry. apply take_drop. }
  rewrite (Hparts a1), (Hparts a2). congruence.
Qed.

Lemma write_patches_run (patches : list patch) :
  Forall checkable patches ->
  forall file ok0,
  exists ok file' errors,
    write_patches file patches ok0 = (ok0 && ok, file', errors) /\
    write_run file patches ok file' errors.
Proof.
  induction patches as [|p rest IH]; intros Hall file ok0.
  - exists true, file, []. simpl. rewrite andb_true_r.
    split; [reflexivity|constructor].
  - apply Forall_cons_iff in Hall. destruct Hall as [[Hoff Hold] Hrest].
    cbn [write_patches].
    destruct (bytes_eq_dec (read_at file (p_offset p) (len (p_old p)))
                           (p_old p)) as [Hm|Hm].
    + rewrite (patch_write_match _ _ _ _ Hm). cbn [negb].
      destruct (IH Hrest (write_at file (p_offset p) (p_new p)) ok0)
        as (ok & file' & errors & E & Hrun).
      rewrite E. exists ok, file', errors. split; [reflexivity|].
      apply run_written with (write_at file (p_offset p) (p_new p));
        [exact Hm| |exact Hrun].
      apply write_at_replaced. split; [exact Hoff|].
      assert (L : len (read_at file (p_offset p) (len (p_old p)))
                  = len (p_old p)) by now rewrite Hm.
      assert (0 < len (p_old p)).
      { unfold len. destruct (p_old p); [contradiction|]. simpl. lia. }
      rewrite read_at_len in L by lia. lia.
    + rewrite (patch_write_mismatch _ _ _ _ Hm). cbn [negb].
      destruct (IH Hrest file false) as (ok & file' & errors & E & Hrun).
      rewrite E. exists false, file', (MsgUnexpectedBytes (p_offset p)
                                         :: errors).
      split; [now rewrite andb_false_r|].
      apply run_refused with ok; assumption.
Qed.

(** The loop is a function of the file and the candidates: the flag,
    the file afterwards and the messages are determined. *)
Lemma write_run_deterministic (patches : list patch) :
  Forall checkable patches ->
  forall file ok1 file1 errors1 ok2 file2 errors2,
    write_run file patches ok1 file1 errors1 ->
    write_run file patches ok2 file2 errors2 ->
    ok1 = ok2 /\ file1 = file2 /\ errors1 = errors2.
Proof.
  induction patches as [|p rest IH];
    intros Hall file ok1 file1 errors1 ok2 file2 errors2 H1 H2.
  - inversion H1; subst. inversion H2; subst. auto.
  - apply Forall_cons_iff in Hall. destruct Hall as [[Hoff _] Hrest].
    inversion H1; subst; inversion H2; subst; try contradiction.
    + match goal with
      | Ha : replaced file _ _ ?a, Hb : replaced file _ _ ?b |- _ =>
          assert (a = b) by (eapply replaced_unique; eauto); subst
      end.
      eapply IH; eauto.
    + match goal with
      | Ha : write_run file rest _ _ _, Hb : write_run file rest _ _ _ |- _ =>
          destruct (IH Hrest _ _ _ _ _ _ _ Ha Hb) as (_ & -> & ->)
      end.
      auto.
Qed.

(** The flag is true exactly when no candidate was refused. *)
Lemma write_run_flag (file : bytes) (patches : list patch) (ok : bool)
      (file' : bytes) (errors : list msg) :
  write_run file patches ok file' errors -> (ok = true <-> errors = []).
Proof.
  induction 1 as [f|f p rest f1 ok f' errors Hr Hrep Hrun IH
                 |f p rest ok f' errors Hr Hrun IH].
  - tauto.
  - exact IH.
  - split; discriminate.
Qed.

Lemma plan_checkable (file : bytes) (wrong_str correct_str : string)
      (patches : list patch) :
  plan_patches file wrong_str correct_str = Ok (Patches patches) ->
  Forall checkable patches.
Proof.
  intro Hplan. apply Forall_forall. intros p Hp.
  destruct (candidate_verifies _ _ _ _ _ Hplan Hp) as (Ho & Hne & _).
  split; assumption.
Qed.

(** C3.  When [patch_file] comes to write (a plan that is not empty,
    no dry run) it returns, and what it returns is the outcome of the
    write loop over the candidates in turn: for each one the old bytes
    are read back at its offset from the file as the earlier writes
    left it; when they are there, the new bytes are in the file at
    that offset afterwards and every byte in front of and after them
    is as it was; when they are not, the candidate is refused with the
    message for its offset, the file stays as it is, and the next
    candidate is tried all the same.  The flag returned is true exactly
    when no candidate was refused, and the messages are the list of
    candidates, one error for each refusal, and the count when all
    were written. *)
Theorem verified_write_partial_failure
        (file : bytes) (wrong_str correct_str : string)
        (patches : list patch) :
  plan_patches file wrong_str correct_str = Ok (Patches patches) ->
  patches <> [] ->
  exists (ok : bool) (file' : bytes) (errors : list msg),
    patch_file file wrong_str correct_str false
    = Ok (ok, file',
          map (fun p => MsgCandidate (p_type p) (p_offset p)) patches
          ++ errors
          ++ (if ok then [MsgApplied (len patches)] else []))
    /\ write_run file patches ok file' errors
    /\ (ok = true <-> errors = [])
    /\ forall ok2 file2 errors2,
         write_run file patches ok2 file2 errors2 ->
         ok2 = ok /\ file2 = file' /\ errors2 = errors.
Proof.
  intros Hplan Hne. unfold patch_file. rewrite Hplan. cbn [bind].
  destruct patches as [|p rest]; [contradiction|].
  pose proof (plan_checkable _ _ _ _ Hplan) as Hall.
  destruct (write_patches_run (p :: rest) Hall file true)
    as (ok & file' & errors & E & Hrun).
  rewrite E. cbn [andb].
  exists ok, file', errors. split; [reflexivity|]. split; [exact Hrun|].
  split.
  - eapply write_run_flag; eauto.
  - intros ok2 file2 errors2 H2.
    eapply write_run_deterministic; eauto.
Qed.

Lemma verified_write_partial_failure_witness :
  exists (ok : bool) (file' : bytes) (errors : list msg),
    patch_file overlap_example_file "20120115201201" "20260215143800" false
    = Ok (ok, file',
          map (fun p => MsgCandidate (p_type p) (p_offset p))
              [mkPatch "ASCII filename date" 0
                       (list_byte_of_string "20120115_201201")
                       (list_byte_of_string "20260215_143800");
               mkPatch "ASCII filename date" 9
                       (list_byte_of_string "20120115_201201")
                       (list_byte_of_string "20260215_143800")]
          ++ errors
          ++ (if ok
              then [MsgApplied
                      (len [mkPatch "ASCII filename date" 0
                              (list_byte_of_string "20120115_201201")
                              (list_byte_of_string "20260215_143800");
                            mkPatch "ASCII filename date" 9
                              (list_byte_of_string "20120115_201201")
                              (list_byte_of_string "20260215_143800")])]
              else []))
    /\ write_run overlap_example_file
                 [mkPatch "ASCII filename date" 0
                          (list_byte_of_string "20120115_201201")
                          (list_byte_of_string "20260215_143800");
                  mkPatch "ASCII filename date" 9
                          (list_byte_of_string "20120115_201201")
                          (list_byte_of_string "20260215_143800")]
                 ok file' errors
    /\ (ok = true <-> errors = [])
    /\ forall ok2 file2 errors2,
         write_run overlap_example_file
                   [mkPatch "ASCII filename date" 0
                            (list_byte_of_string "20120115_201201")
                            (list_byte_of_string "20260215_143800");
                    mkPatch "ASCII filename date" 9
                            (list_byte_of_string "20120115_201201")
                            (list_byte_of_string "20260215_143800")]
                   ok2 file2 errors2 ->
         ok2 = ok /\ file2 = file' /\ errors2 = errors.
Proof.
  apply (verified_write_partial_failure
           overlap_example_file "20120115201201" "20260215143800").
  - vm_compute. reflexivity.
  - discriminate.
Defined.

(** ** A second run *)

Lemma read_at_within (f g : bytes) (off n i : Z) :
  0 <= off -> off <= i < off + n ->
  read_at f off n = read_at g off n ->
  read_at f i 1 = read_at g i 1.
Proof.
  intros Ho Hi H.
  replace i with (off + (i - off)) by lia.
  rewrite <- (read_at_read_at f off n (i - off) 1) by lia.
  rewrite <- (read_at_read_at g off n (i - off) 1) by lia.
  now rewrite H.
Qed.

(** Two byte strings of one length that differ, differ at an index. *)
Lemma differ_at (a : bytes) :
  forall b, len a = len b -> a <> b ->
            exists j, 0 <= j < len a /\ read_at a j 1 <> read_at b j 1.
Proof.
  induction a as [|x a IH]; intros [|y b] Hl Hne.
  - contradiction.
  - rewrite len_cons in Hl. pose proof (len_nonneg b).
    change (len (@nil byte)) with 0 in Hl. lia.
  - rewrite len_cons in Hl. pose proof (len_nonneg a).
    change (len (@nil byte)) with 0 in Hl. lia.
  - rewrite !len_cons in Hl. pose proof (len_nonneg a) as La.
    destruct (Byte.byte_eq_dec x y) as [->|Hxy].
    + destruct (IH b) as [j [Hj Hd]]; [lia|congruence|].
      exists (j + 1). rewrite len_cons. split; [lia|].
      unfold read_at in *. rewrite !drop_cons_pos by lia.
      replace (j + 1 - 1) with j by lia. exact Hd.
    + exists 0. rewrite len_cons. split; [lia|].
      unfold read_at. rewrite !drop_0 by lia.
      rewrite !take_cons_pos by lia. congruence.
Qed.

(** In a write loop in which every candidate was written, a byte that
    no longer is what the file had when the plan was made is under no
    later candidate: it stays. *)
Lemma changed_byte_stays (orig : bytes) (i : Z)
      (patches : list patch) (cur : bytes) (outcomes : list bool)
      (final : bytes) :
  writes cur patches outcomes final ->
  forallb (fun b => b) outcomes = true ->
  Forall in_place patches -> Forall (verifies orig) patches ->
  0 <= i ->
  read_at cur i 1 <> read_at orig i 1 ->
  read_at final i 1 = read_at cur i 1.
Proof.
  induction 1 as [cur|cur p rest outcomes final Hr Hw IH
                 |cur p rest outcomes final Hr Hw IH];
    intros Hall Hin Hver Hi Hdiff.
  - reflexivity.
  - cbn [forallb andb] in Hall.
    apply Forall_cons_iff in Hin. destruct Hin as [Hp Hin].
    apply Forall_cons_iff in Hver. destruct Hver as [Hvp Hver].
    pose proof (verified_in_range cur p Hp Hr) as Hrange.
    destruct Hp as (Ho & Hne & Hl). destruct Hvp as (_ & _ & Horig).
    assert (Hout : i < p_offset p \/ p_offset p + len (p_new p) <= i).
    { destruct (Z.lt_ge_cases i (p_offset p)) as [|Hge]; [now left|].
      destruct (Z.lt_ge_cases i (p_offset p + len (p_new p))) as [Hlt|];
        [|now right].
      exfalso. apply Hdiff.
      apply read_at_within with (p_offset p) (len (p_old p));
        [lia|lia|congruence]. }
    assert (E : read_at (write_at cur (p_offset p) (p_new p)) i 1
                = read_at cur i 1).
    { apply write_read_elsewhere; try lia. }
    rewrite <- E. apply IH; auto. now rewrite E.
  - cbn [forallb andb] in Hall. discriminate.
Qed.

(** The bytes a candidate wrote over different ones stay to the end of
    the loop. *)
Lemma applied_bytes_stay (orig : bytes)
      (patches : list patch) (cur : bytes) (outcomes : list bool)
      (final : bytes) :
  writes cur patches outcomes final ->
  forallb (fun b => b) outcomes = true ->
  Forall in_place patches -> Forall (verifies orig) patches ->
  forall p j,
    In p patches -> 0 <= j < len (p_new p) ->
    read_at (p_new p) j 1 <> read_at orig (p_offset p + j) 1 ->
    read_at final (p_offset p + j) 1 = read_at (p_new p) j 1.
Proof.
  induction 1 as [cur|cur q rest outcomes final Hr Hw IH
                 |cur q rest outcomes final Hr Hw IH];
    intros Hall Hin Hver p j Hp Hj Hdiff.
  - contradiction.
  - cbn [forallb andb] in Hall.
    pose proof Hin as Hin0. pose proof Hver as Hver0.
    apply Forall_cons_iff in Hin. destruct Hin as [Hq Hin].
    apply Forall_cons_iff in Hver. destruct Hver as [Hvq Hver].
    destruct Hp as [->|Hp]; [|now apply IH].
    pose proof (verified_in_range cur p Hq Hr) as Hrange.
    destruct Hq as (Ho & Hne & Hl).
    assert (E : read_at (write_at cur (p_offset p) (p_new p))
                        (p_offset p + j) 1
                = read_at (p_new p) j 1).
    { rewrite <- (read_at_read_at _ (p_offset p) (len (p_new p)) j 1)
        by lia.
      now rewrite write_then_read by lia. }
    rewrite <- E.
    apply (changed_byte_stays orig (p_offset p + j) rest _ outcomes);
      auto; [lia|]. now rewrite E.
  - cbn [forallb andb] in Hall. discriminate.
Qed.

(** After a write loop in which every candidate was written, the old
    bytes of a candidate that had other bytes to write are no longer
    at its offset. *)
Lemma old_bytes_gone (orig : bytes)
      (patches : list patch) (outcomes : list bool) (final : bytes) :
  writes orig patches outcomes final ->
  forallb (fun b => b) outcomes = true ->
  Forall in_place patches -> Forall (verifies orig) patches ->
  forall p, In p patches -> p_old p <> p_new p ->
            read_at final (p_offset p) (len (p_old p)) <> p_old p.
Proof.
  intros Hw Hall Hin Hver p Hp Hne Hstill.
  pose proof Hin as Hin0. rewrite Forall_forall in Hin0.
  pose proof Hver as Hver0. rewrite Forall_forall in Hver0.
  destruct (Hin0 p Hp) as (Ho & _ & Hl).
  destruct (Hver0 p Hp) as (_ & _ & Horig).
  destruct (differ_at (p_old p) (p_new p) Hl Hne) as [j [Hj Hd]].
  assert (Eo : read_at orig (p_offset p + j) 1 = read_at (p_old p) j 1).
  { rewrite <- (read_at_read_at orig (p_offset p) (len (p_old p)) j 1)
      by lia.
    now rewrite Horig. }
  assert (Ef : read_at final (p_offset p + j) 1 = read_at (p_old p) j 1).
  { rewrite <- (read_at_read_at final (p_offset p) (len (p_old p)) j 1)
      by lia.
    now rewrite Hstill. }
  rewrite (applied_bytes_stay orig patches orig outcomes final Hw Hall
             Hin Hver p j Hp) in Ef by (rewrite ?Eo; auto; lia).
  congruence.
Qed.

Lemma encode_ascii_chars_map (cs : list ascii) :
  forall bs, encode_ascii_chars cs = Ok bs -> bs = map byte_of_ascii cs.
Proof.
  induction cs as [|c cs IH]; simpl; intros bs H.
  - now inversion H.
  - destruct (code c <? 128); [|discriminate].
    apply bind_Ok in H. destruct H as [bs' [E H]]. inversion H.
    now rewrite (IH bs').
Qed.

Lemma encode_ascii_inj (s t : string) (bs : bytes) :
  encode_ascii s = Ok bs -> encode_ascii t = Ok bs -> s = t.
Proof.
  unfold encode_ascii. intros Hs Ht.
  apply encode_ascii_chars_map in Hs. apply encode_ascii_chars_map in Ht.
  rewrite Hs in Ht. apply (f_equal (map ascii_of_byte)) in Ht.
  rewrite !map_map in Ht.
  rewrite !(map_ext (fun x => ascii_of_byte (byte_of_ascii x))
                    (fun c => c)) in Ht
    by (intro; apply ascii_of_byte_of_ascii).
  rewrite !map_id in Ht.
  apply (f_equal string_of_list_ascii) in Ht.
  now rewrite !string_of_list_ascii_of_string in Ht.
Qed.

(** The date, an underscore and the time determine a timestamp of
    fourteen characters. *)
Lemma joined_inj (s t : string) :
  String.length s = 14%nat -> String.length t = 14%nat ->
  (str_slice 0 8 s ++ "_" ++ str_from 8 s)%string
  = (str_slice 0 8 t ++ "_" ++ str_from 8 t)%string ->
  s = t.
Proof.
  intros Hs Ht.
  do 14 (destruct s as [|? s]; [discriminate|]).
  destruct s; [|discriminate].
  do 14 (destruct t as [|? t]; [discriminate|]).
  destruct t; [|discriminate].
  unfold str_slice, str_from. cbn. intro H. inversion H. reflexivity.
Qed.

(** Two timestamps that [validate_timestamp] accepts and that differ
    have different varints and different ASCII forms. *)
Lemma distinct_timestamps_distinct_bytes
      (wrong_str correct_str : string) (wrong_ts correct_ts : Z)
      (wv cv wa ca : bytes) :
  validate_timestamp wrong_str = Ok tt ->
  validate_timestamp correct_str = Ok tt ->
  wrong_str <> correct_str ->
  py_int wrong_str = Ok wrong_ts -> py_int correct_str = Ok correct_ts ->
  _encode_varint wrong_ts = Ok wv -> _encode_varint correct_ts = Ok cv ->
  encode_ascii (str_slice 0 8 wrong_str ++ "_" ++ str_from 8 wrong_str)
  = Ok wa ->
  encode_ascii (str_slice 0 8 correct_str ++ "_" ++ str_from 8 correct_str)
  = Ok ca ->
  wv <> cv /\ wa <> ca.
Proof.
  intros Hw Hc Hne Ew Ec Ewv Ecv Ewa Eca. split; intro E; apply Hne.
  - subst cv.
    destruct (encode_varint_decodes wrong_ts
                (encode_varint_ok_nonneg _ _ Ewv)) as (b1 & E1 & _ & D1).
    destruct (encode_varint_decodes correct_ts
                (encode_varint_ok_nonneg _ _ Ecv)) as (b2 & E2 & _ & D2).
    rewrite Ewv in E1. rewrite Ecv in E2.
    inversion E1; subst b1. inversion E2; subst b2.
    specialize (D1 []). specialize (D2 []). rewrite D1 in D2.
    inversion D2; subst correct_ts.
    rewrite <- (py_str_of_validated _ _ Hw Ew).
    now rewrite <- (py_str_of_validated _ _ Hc Ec).
  - subst ca.
    apply validate_timestamp_spec in Hw. apply validate_timestamp_spec in Hc.
    destruct Hw as [Lw _]. destruct Hc as [Lc _].
    apply joined_inj; [exact Lw|exact Lc|].
    eapply encode_ascii_inj; eauto.
Qed.

(** A protobuf or ASCII candidate of a plan sits on an occurrence of
    its pattern in the file the plan was made for. *)
Lemma pattern_candidate_occurs
      (file : bytes) (wrong_str correct_str : string)
      (patches : list patch) (wrong_ts : Z) (wv wa : bytes) (q : patch) :
  plan_patches file wrong_str correct_str = Ok (Patches patches) ->
  py_int wrong_str = Ok wrong_ts -> _encode_varint wrong_ts = Ok wv ->
  encode_ascii (str_slice 0 8 wrong_str ++ "_" ++ str_from 8 wrong_str)
  = Ok wa ->
  In q patches ->
  (p_type q = "protobuf creation_time"%string ->
   occurs_at file (x38 :: wv) (p_offset q - 1))
  /\ (p_type q = "ASCII filename date"%string ->
      occurs_at file wa (p_offset q)).
Proof.
  intros Hplan Ew' Ewv' Ewa' Hq.
  destruct (plan_patches_inv _ _ _ _ Hplan)
    as (wrong_ts0 & correct_ts & wrong_dt & correct_dt & atoms & wv0 & cv
        & gps & wa0 & ca & Ew & _ & _ & _ & Eatoms & Ewv & _ & _ & Egps
        & Ewa & _ & ->).
  rewrite Ew in Ew'. inversion Ew'; subst wrong_ts0.
  rewrite Ewv in Ewv'. inversion Ewv'; subst wv0.
  rewrite Ewa in Ewa'. inversion Ewa'; subst wa0.
  apply dedup_In in Hq.
  repeat (apply in_app_or in Hq; destruct Hq as [Hq|Hq]).
  - apply (mp4_patches_types _ _ _ _ Eatoms) in Hq.
    split; intro Ht; rewrite Ht in Hq; simpl in Hq;
      repeat (destruct Hq as [Hq|Hq]; [discriminate|]); contradiction.
  - unfold protobuf_patches in Hq. apply in_map_iff in Hq.
    destruct Hq as [o [<- Ho]]. cbn [p_type p_offset]. split.
    + intros _. replace (o + 1 - 1) with o by lia.
      apply find_pattern_spec in Ho; [exact Ho|discriminate].
    + discriminate.
  - apply (gps_patches_In _ _ _ _ _ Egps) in Hq. destruct Hq as [Ht _].
    split; intro Ht'; rewrite Ht' in Ht; discriminate.
  - unfold ascii_patches in Hq. apply in_map_iff in Hq.
    destruct Hq as [o [<- Ho]]. cbn [p_type p_offset]. split.
    + discriminate.
    + intros _. apply find_pattern_spec in Ho; [exact Ho|].
      eapply encode_ascii_joined_nonempty; eauto.
  - apply utf16_patches_In in Hq.
    destruct Hq as (o & _ & _ & [[Ht _]|[Ht _]]);
      split; intro Ht'; rewrite Ht' in Ht; discriminate.
Qed.

(** C1, as amended.  A run of [patch_file] with two different
    timestamps that [validate_timestamp] accepts has returned [True].
    Then the wrong value is gone wherever that run patched it: the old
    bytes of every candidate that had other bytes to write are no
    longer at its offset, and no place where the file held the wrong
    time, as the tag [38] with its varint or in ASCII, holds it in the
    patched file.  So a second run with the same pair emits none of
    those candidates again, and a protobuf or ASCII candidate it emits
    is at an occurrence that was not in the file before the first run.
    (It need not be a no-op: the atom and GPS locators do not look for
    the wrong value.) *)
Theorem second_run_finds_no_patched_candidate
        (file : bytes) (wrong_str correct_str : string)
        (file' : bytes) (out : list msg) :
  validate_timestamp wrong_str = Ok tt ->
  validate_timestamp correct_str = Ok tt ->
  wrong_str <> correct_str ->
  patch_file file wrong_str correct_str false = Ok (true, file', out) ->
  exists patches wrong_ts wrong_varint wrong_ascii,
    plan_patches file wrong_str correct_str = Ok (Patches patches) /\
    py_int wrong_str = Ok wrong_ts /\
    _encode_varint wrong_ts = Ok wrong_varint /\
    encode_ascii (str_slice 0 8 wrong_str ++ "_" ++ str_from 8 wrong_str)
    = Ok wrong_ascii /\
    (forall p, In p patches -> p_old p <> p_new p ->
               read_at file' (p_offset p) (len (p_old p)) <> p_old p) /\
    (forall o, occurs_at file (x38 :: wrong_varint) o ->
               ~ occurs_at file' (x38 :: wrong_varint) o) /\
    (forall o, occurs_at file wrong_ascii o ->
               ~ occurs_at file' wrong_ascii o) /\
    forall patches2,
      plan_patches file' wrong_str correct_str = Ok (Patches patches2) ->
      (forall p, In p patches -> p_old p <> p_new p -> ~ In p patches2) /\
      (forall q, In q patches2 ->
                 p_type q = "protobuf creation_time"%string ->
                 ~ occurs_at file (x38 :: wrong_varint) (p_offset q - 1)) /\
      (forall q, In q patches2 ->
                 p_type q = "ASCII filename date"%string ->
                 ~ occurs_at file wrong_ascii (p_offset q)).
Proof.
  intros Hvw Hvc Hne Hrun.
  pose proof Hrun as Hrun0. unfold patch_file in Hrun.
  apply bind_Ok in Hrun. destruct Hrun as [pl [Hplan Hrun]].
  destruct pl as [wl cl|patches]; [discriminate|].
  destruct patches as [|p0 rest]; [discriminate|].
  set (patches := p0 :: rest) in *.
  destruct (write_patches_spec patches file true)
    as (outcomes & f1 & out1 & E & Hw & _).
  rewrite E in Hrun. cbn [andb] in Hrun.
  assert (Hall : forallb (fun b => b) outcomes = true)
    by (inversion Hrun; reflexivity).
  assert (Ef : f1 = file') by (inversion Hrun; reflexivity). subst f1.
  clear Hrun E.
  assert (Hlen : String.length wrong_str = String.length correct_str).
  { pose proof (proj1 (proj1 (proj1 (validate_timestamp_spec _)) Hvw)).
    pose proof (proj1 (proj1 (proj1 (validate_timestamp_spec _)) Hvc)).
    congruence. }
  destruct (plan_in_place _ _ _ _ Hplan Hlen) as [Hin Hver].
  destruct (plan_patches_inv _ _ _ _ Hplan)
    as (wrong_ts & correct_ts & wrong_dt & correct_dt & atoms & wv & cv
        & gps & wa & ca & Ew & Ec & _ & _ & _ & Ewv & Ecv & _ & _
        & Ewa & Eca & _).
  destruct (distinct_timestamps_distinct_bytes
              _ _ _ _ _ _ _ _ Hvw Hvc Hne Ew Ec Ewv Ecv Ewa Eca)
    as [Hvne Hane].
  pose proof (validated_varint_7 _ _ _ Hvw Ew Ewv) as L7.
  pose proof (joined_ascii_length _ _ Ewa) as La.
  pose proof (proj1 (proj1 (proj1 (validate_timestamp_spec _)) Hvw)) as L14.
  assert (Hgone : forall p, In p patches -> p_old p <> p_new p ->
             read_at file' (p_offset p) (len (p_old p)) <> p_old p)
    by (eapply old_bytes_gone; eauto).
  assert (Hproto : forall o, occurs_at file (x38 :: wv) o ->
                             ~ occurs_at file' (x38 :: wv) o).
  { intros o Ho Ho'.
    assert (Hp : In (mkPatch "protobuf creation_time" (o + 1) wv cv)
                    patches).
    { eapply plan_keeps; eauto. left. split; [|reflexivity].
      apply find_pattern_spec; [discriminate| |exact Ho].
      unfold len. cbn [List.length]. rewrite L7. vm_compute. discriminate. }
    apply (Hgone _ Hp); [exact Hvne|]. cbn [p_offset p_old].
    destruct Ho' as (Ho0 & _ & Hr).
    change (x38 :: wv) with ([x38] ++ wv) in Hr.
    apply read_at_split in Hr; [|exact Ho0]. now destruct Hr. }
  assert (Hascii : forall o, occurs_at file wa o -> ~ occurs_at file' wa o).
  { intros o Ho Ho'.
    assert (Hp : In (mkPatch "ASCII filename date" o wa ca) patches).
    { eapply plan_keeps; eauto. right. split; [|reflexivity].
      apply find_pattern_spec; [| |exact Ho].
      - intro E. rewrite E in La. discriminate.
      - unfold len. rewrite La, L14. vm_compute. discriminate. }
    apply (Hgone _ Hp); [exact Hane|]. cbn [p_offset p_old].
    now destruct Ho' as (_ & _ & Hr). }
  exists patches, wrong_ts, wv, wa.
  repeat (split; [assumption|]).
  intros patches2 Hplan2. split; [|split].
  - intros p Hp Hd Hp2.
    destruct (candidate_verifies _ _ _ _ _ Hplan2 Hp2) as (_ & _ & Hr).
    now apply (Hgone p Hp Hd).
  - intros q Hq Ht Ho.
    destruct (pattern_candidate_occurs _ _ _ _ _ _ _ q Hplan2 Ew Ewv Ewa Hq)
      as [Hp _].
    now apply (Hproto _ Ho), Hp.
  - intros q Hq Ht Ho.
    destruct (pattern_candidate_occurs _ _ _ _ _ _ _ q Hplan2 Ew Ewv Ewa Hq)
      as [_ Hp].
    now apply (Hascii _ Ho), Hp.
Qed.

Lemma second_run_finds_no_patched_candidate_witness :
  exists patches wrong_ts wrong_varint wrong_ascii,
    plan_patches ascii_example_file "20260103194656" "20260215143800"
    = Ok (Patches patches) /\
    py_int "20260103194656" = Ok wrong_ts /\
    _encode_varint wrong_ts = Ok wrong_varint /\
    encode_ascii (str_slice 0 8 "20260103194656" ++ "_"
                  ++ str_from 8 "20260103194656")
    = Ok wrong_ascii /\
    (forall p, In p patches -> p_old p <> p_new p ->
               read_at (list_byte_of_string "zz20260215_143800zz")
                       (p_offset p) (len (p_old p))
               <> p_old p) /\
    (forall o, occurs_at ascii_example_file (x38 :: wrong_varint) o ->
               ~ occurs_at (list_byte_of_string "zz20260215_143800zz")
                           (x38 :: wrong_varint) o) /\
    (forall o, occurs_at ascii_example_file wrong_ascii o ->
               ~ occurs_at (list_byte_of_string "zz20260215_143800zz")
                           wrong_ascii o) /\
    forall patches2,
      plan_patches (list_byte_of_string "zz20260215_143800zz")
                   "20260103194656" "20260215143800"
      = Ok (Patches patches2) ->
      (forall p, In p patches -> p_old p <> p_new p -> ~ In p patches2) /\
      (forall q, In q patches2 ->
                 p_type q = "protobuf creation_time"%string ->
                 ~ occurs_at ascii_example_file (x38 :: wrong_varint)
                             (p_offset q - 1)) /\
      (forall q, In q patches2 ->
                 p_type q = "ASCII filename date"%string ->
                 ~ occurs_at ascii_example_file wrong_ascii (p_offset q)).
Proof.
  apply (second_run_finds_no_patched_candidate
           ascii_example_file "20260103194656" "20260215143800"
           (list_byte_of_string "zz20260215_143800zz")
           [MsgCandidate "ASCII filename date" 2; MsgApplied 1]).
  - vm_compute. reflexivity.
  - vm_compute. reflexivity.
  - discriminate.
  - vm_compute. reflexivity.
Defined.

(** On that file the second run is a no-op. *)
Example second_run_is_noop_example :
  patch_file ascii_example_file "20260103194656" "20260215143800" false
  = Ok (true, list_byte_of_string "zz20260215_143800zz",
        [MsgCandidate "ASCII filename date" 2; MsgApplied 1])
  /\ patch_file (list_byte_of_string "zz20260215_143800zz")
                "20260103194656" "20260215143800" false
     = Ok (false, list_byte_of_string "zz20260215_143800zz",
           [MsgNoPatchable]).
Proof. vm_compute. split; reflexivity. Qed.

(** What else a second run can find.  The GPS locator looks for a
    value within a day of the wrong time, not for the wrong time: with
    a correction of one hour the shifted value is found and shifted
    again. *)
Example second_run_shifts_gps_again :
  patch_file gps_example_file "20260103194656" "20260103204656" false
  = Ok (true, [xa0; x02; x80; xf4; xf3; xac; xb8; x33; x00; x00],
        [MsgCandidate "first_gps_timestamp" 2; MsgApplied 1])
  /\ patch_file [xa0; x02; x80; xf4; xf3; xac; xb8; x33; x00; x00]
                "20260103194656" "20260103204656" false
     = Ok (true, [xa0; x02; x80; xd1; xcf; xae; xb8; x33; x00; x00],
           [MsgCandidate "first_gps_timestamp" 2; MsgApplied 1]).
Proof. vm_compute. split; reflexivity. Qed.

(** The bytes a run writes can put the wrong time together anew: the
    correct time ends in 2026, and what follows it in the file goes on
    as the wrong time does. *)
Example second_run_finds_created_occurrence :
  patch_file (list_byte_of_string "20260103_1946560103_194656")
             "20260103194656" "20260215142026" false
  = Ok (true, list_byte_of_string "20260215_1420260103_194656",
        [MsgCandidate "ASCII filename date" 0; MsgApplied 1])
  /\ plan_patches (list_byte_of_string "20260215_1420260103_194656")
                  "20260103194656" "20260215142026"
     = Ok (Patches [mkPatch "ASCII filename date" 11
                            (list_byte_of_string "20260103_194656")
                            (list_byte_of_string "20260215_142026")])
  /\ ~ occurs_at (list_byte_of_string "20260103_1946560103_194656")
                 (list_byte_of_string "20260103_194656") 11.
Proof.
  split; [vm_compute; reflexivity|]. split; [vm_compute; reflexivity|].
  intros (_ & _ & H). vm_compute in H. discriminate.
Qed.

(** A candidate whose new bytes are its old bytes is found again: the
    UTF-16LE date when only the time of day is corrected. *)
Example second_run_repeats_unchanged_date :
  patch_file marker_after_file "20260103194656" "20260103204656" false
  = Ok (true, marker_after_file,
        [MsgCandidate "UTF-16LE filename date" 0; MsgApplied 1])
  /\ plan_patches marker_after_file "20260103194656" "20260103204656"
     = Ok (Patches [mkPatch "UTF-16LE filename date" 0
                            (encode_utf16le "20260103")
                            (encode_utf16le "20260103")]).
Proof. vm_compute. split; reflexivity. Qed.
